(** * Nihongo Voice: the audio pipeline and the playback controller

    A shallow embedding of [services/audioUtils.ts] ([decodeBase64],
    [decodeAudioData], [audioBufferToWav], [writeString]),
    [services/geminiService.ts] ([generateJapaneseSpeech]), the handlers of
    [App.tsx] ([stopAudio], [ensureAudioContext], [playBuffer],
    [handleGenerateAndPlay], [handleReplay], [handleDownload], the effect on
    the text and the voice), the buttons and inputs of
    [components/Controls.tsx] and the frame [components/Visualizer.tsx]
    draws.

    JavaScript numbers are modelled by [JS.number]: a finite value is a
    rational, which is exact for every operation the pipeline performs
    (a division of a 16-bit integer by [32768], a product of a 32-bit float
    with [32768] or [32767], comparisons): none of them rounds in double
    precision.  [NaN] and the two infinities are kept, the signed zero is
    not.  Typed arrays are lists; a store out of range does nothing and a
    load out of range yields [undefined], as in the language. *)

From Stdlib Require Import ZArith QArith Qround Qminmax Qabs.
From Stdlib Require Import Lia ZifyBool ZifyNat Lqa List String.
From Stdlib.Strings Require Import Byte Ascii.
From stdpp Require Import base list.
Local Open Scope Z_scope.

(** ** The fragment of JavaScript the code uses *)

Module JS.

Inductive number : Type :=
| NaN
| PosInf
| NegInf
| Fin (q : Q).

(** What a call can throw.  [Error] carries the message of
    [new Error(message)]. *)
Inductive exn : Type :=
| RangeError
| NotSupportedError
| InvalidCharacterError
| InvalidStateError
| Error (message : string).

Inductive result (A : Type) : Type :=
| Ok (a : A)
| Throw (e : exn).
Arguments Ok {A} a.
Arguments Throw {A} e.

#[global] Instance result_ret : MRet result := @Ok.
#[global] Instance result_bind : MBind result :=
  fun A B k r =>
    match r with
    | Ok a => k a
    | Throw e => Throw e
    end.

(** [try { body } catch (e) { handler e }] *)
Definition try_catch {A : Type} (body : result A) (handler : exn -> result A)
  : result A :=
  match body with
  | Ok a => Ok a
  | Throw e => handler e
  end.

Definition of_Z (z : Z) : number := Fin (inject_Z z).
Definition of_nat (n : nat) : number := of_Z (Z.of_nat n).

(** The sign of a rational, as a comparison with zero. *)
Definition sgn (q : Q) : comparison := Qcompare q 0.

(** [x / y] on numbers. *)
Definition div (x y : number) : number :=
  match x, y with
  | NaN, _ | _, NaN => NaN
  | (PosInf | NegInf), (PosInf | NegInf) => NaN
  | PosInf, Fin b => match sgn b with Lt => NegInf | _ => PosInf end
  | NegInf, Fin b => match sgn b with Lt => PosInf | _ => NegInf end
  | Fin _, (PosInf | NegInf) => Fin 0
  | Fin a, Fin b =>
      match sgn b with
      | Eq => match sgn a with Eq => NaN | Lt => NegInf | Gt => PosInf end
      | _ => Fin (a / b)
      end
  end.

(** [x * y] on numbers. *)
Definition mul (x y : number) : number :=
  match x, y with
  | NaN, _ | _, NaN => NaN
  | PosInf, PosInf | NegInf, NegInf => PosInf
  | PosInf, NegInf | NegInf, PosInf => NegInf
  | PosInf, Fin b | Fin b, PosInf =>
      match sgn b with Eq => NaN | Lt => NegInf | Gt => PosInf end
  | NegInf, Fin b | Fin b, NegInf =>
      match sgn b with Eq => NaN | Lt => PosInf | Gt => NegInf end
  | Fin a, Fin b => Fin (a * b)
  end.

(** [x < y]: false as soon as one side is [NaN]. *)
Definition lt (x y : number) : bool :=
  match x, y with
  | NaN, _ | _, NaN => false
  | _, NegInf | PosInf, _ => false
  | NegInf, _ | _, PosInf => true
  | Fin a, Fin b => match Qcompare a b with Lt => true | _ => false end
  end.

(** [Math.min] and [Math.max] of two arguments. *)
Definition Math_min (x y : number) : number :=
  match x, y with
  | NaN, _ | _, NaN => NaN
  | _, _ => if lt y x then y else x
  end.

Definition Math_max (x y : number) : number :=
  match x, y with
  | NaN, _ | _, NaN => NaN
  | _, _ => if lt x y then y else x
  end.

(** The integer part, rounding toward zero. *)
Definition trunc (q : Q) : Z := Z.quot (Qnum q) (Z.pos (Qden q)).

(** The integer a number converts to before it is reduced to a width:
    [NaN] and the infinities become [0]. *)
Definition ToIntegerOrZero (x : number) : Z :=
  match x with
  | Fin q => trunc q
  | _ => 0
  end.

Definition ToUint8 (x : number) : Z := ToIntegerOrZero x mod 2 ^ 8.
Definition ToUint16 (x : number) : Z := ToIntegerOrZero x mod 2 ^ 16.
Definition ToUint32 (x : number) : Z := ToIntegerOrZero x mod 2 ^ 32.

(** A 16-bit pattern read as a signed integer. *)
Definition signed16 (u : Z) : Z :=
  let m := u mod 2 ^ 16 in
  if m <? 2 ^ 15 then m else m - 2 ^ 16.

Definition ToInt16 (x : number) : Z := signed16 (ToIntegerOrZero x).

(** How many [i = 0, 1, 2, ...] satisfy [i < bound]: the number of rounds
    of [for (let i = 0; i < bound; i++)].  The loop does not end for
    [PosInf]; the code reaches that bound only inside an outer loop that
    makes no round, so no count is needed there. *)
Definition rounds (bound : number) : nat :=
  match bound with
  | Fin q => Z.to_nat (Qceiling q)
  | _ => 0%nat
  end.

(** A byte of a buffer, from the integer it holds. *)
Definition byte_of_Z (z : Z) : byte :=
  match Byte.of_N (Z.to_N (z mod 256)) with
  | Some b => b
  | None => x00
  end.

Definition Z_of_byte (b : byte) : Z := Z.of_N (Byte.to_N b).

(** [error.message].  For the errors of the platform the text is the
    platform's; its name stands for it. *)
Definition message (e : exn) : string :=
  match e with
  | RangeError => "RangeError"
  | NotSupportedError => "NotSupportedError"
  | InvalidCharacterError => "InvalidCharacterError"
  | InvalidStateError => "InvalidStateError"
  | Error m => m
  end.

(** The code units [String.prototype.trim] removes: the WhiteSpace and
    LineTerminator productions of ECMAScript (TAB, LF, VT, FF, CR, SPACE,
    NBSP, the other space separators up to the ideographic space U+3000,
    LS, PS and the byte order mark). *)
Definition is_white_space (c : N) : bool :=
  ((9 <=? c) && (c <=? 13) || (c =? 32) || (c =? 160) || (c =? 5760)
   || (8192 <=? c) && (c <=? 8202) || (c =? 8232) || (c =? 8233)
   || (c =? 8239) || (c =? 8287) || (c =? 12288) || (c =? 65279))%N.

Fixpoint trimStart (s : list N) : list N :=
  match s with
  | c :: rest => if is_white_space c then trimStart rest else s
  | [] => []
  end.

Definition trim (s : list N) : list N :=
  reverse (trimStart (reverse (trimStart s))).

(** A string as a condition: the empty string is false. *)
Definition truthy (s : list N) : bool :=
  match s with
  | [] => false
  | _ :: _ => true
  end.

(** A string value: its UTF-16 code units.  [str] gives the units of a
    literal of the source. *)
Definition str (s : string) : list N :=
  N_of_ascii <$> list_ascii_of_string s.

(** [s.charCodeAt(i)]: [NaN] past the end. *)
Definition charCodeAt (s : list N) (i : nat) : number :=
  match s !! i with
  | Some c => of_Z (Z.of_N c)
  | None => NaN
  end.

(** An element of a typed array of integers as a number: [undefined]
    out of range, which arithmetic turns into [NaN]. *)
Definition load (a : list Z) (i : nat) : number :=
  match a !! i with
  | Some v => of_Z v
  | None => NaN
  end.

(** An element of a [Float32Array] as a number. *)
Definition loadf (a : list number) (i : nat) : number :=
  match a !! i with
  | Some v => v
  | None => NaN
  end.

End JS.

(** ** The Web Audio objects *)

Module AudioBuffer.

(** [numberOfChannels] is the number of channel arrays; each of them has
    [length] samples in a buffer the platform hands out ([wf]). *)
Record t : Type := mk {
  sampleRate : Q;
  length : nat;
  channelData : list (list JS.number)
}.

Definition numberOfChannels (b : t) : nat := List.length (channelData b).

Definition getChannelData (b : t) (channel : nat) : list JS.number :=
  match channelData b !! channel with
  | Some c => c
  | None => []
  end.

(** The channel array is a live view: writing to it writes to the
    buffer. *)
Definition setChannelData (b : t) (channel : nat) (c : list JS.number) : t :=
  mk (sampleRate b) (length b) (<[channel := c]> (channelData b)).

Definition wf (b : t) : Prop :=
  Forall (fun c => List.length c = length b) (channelData b).

(** A silent buffer. *)
Definition zeros (numberOfChannels length : nat) (sampleRate : Q) : t :=
  mk sampleRate length (replicate numberOfChannels (replicate length (JS.Fin 0))).

End AudioBuffer.

Module AudioContext.

(** An audio context decides which buffers it can allocate; that is all
    the decoder asks of it. *)
Record t : Type := mk {
  supports : nat -> nat -> Q -> bool
}.

(** [ctx.createBuffer(numberOfChannels, length, sampleRate)]: a
    zero-initialised buffer, or [NotSupportedError] for arguments outside
    the nominal ranges of the context. *)
Definition createBuffer (ctx : t) (numberOfChannels length : nat) (sampleRate : Q)
  : JS.result AudioBuffer.t :=
  if supports ctx numberOfChannels length sampleRate
  then JS.Ok (AudioBuffer.zeros numberOfChannels length sampleRate)
  else JS.Throw JS.NotSupportedError.

(** The context of the Web Audio standard with the ranges every
    implementation must offer: 1 to 32 channels, at least one frame,
    8000 Hz to 96000 Hz.  An implementation may accept more channels or
    more rates; none accepts a zero or negative argument. *)
Definition webAudio : t :=
  mk (fun numberOfChannels length sampleRate =>
        (1 <=? numberOfChannels)%nat && (numberOfChannels <=? 32)%nat
        && (1 <=? length)%nat
        && Qle_bool 8000 sampleRate && Qle_bool sampleRate 96000).

End AudioContext.

(** ** The base64 decoder of the platform *)

Module Web.
Import JS.

(** TAB, LF, FF, CR and SPACE. *)
Definition is_ascii_whitespace (c : N) : bool :=
  ((c =? 9) || (c =? 10) || (c =? 12) || (c =? 13) || (c =? 32))%N.

(** The value of a character of the base64 alphabet, [None] for any
    other code unit ([=] included). *)
Definition sextet (c : N) : option N :=
  if ((65 <=? c) && (c <=? 90))%N then Some (c - 65)%N
  else if ((97 <=? c) && (c <=? 122))%N then Some (c - 71)%N
  else if ((48 <=? c) && (c <=? 57))%N then Some (c + 4)%N
  else if (c =? 43)%N then Some 62%N
  else if (c =? 47)%N then Some 63%N
  else None.

Fixpoint sextets (data : list N) : option (list N) :=
  match data with
  | [] => Some []
  | c :: rest =>
      match sextet c, sextets rest with
      | Some v, Some vs => Some (v :: vs)
      | _, _ => None
      end
  end.

(** A final [=] is removed. *)
Definition remove_final_equals (data : list N) : list N :=
  match last data with
  | Some c => if (c =? 61)%N then take (List.length data - 1) data else data
  | None => data
  end.

(** One or two [=] at the end are removed when the length is a multiple
    of four. *)
Definition strip_padding (data : list N) : list N :=
  if (List.length data mod 4 =? 0)%nat
  then remove_final_equals (remove_final_equals data)
  else data.

(** Four sextets give three bytes; two left over give one byte and three
    give two, the low bits that do not fill a byte being discarded. *)
Fixpoint decode_sextets (vs : list N) : list N :=
  match vs with
  | a :: b :: c :: d :: rest =>
      (a * 4 + b / 16)%N :: (b mod 16 * 16 + c / 4)%N :: (c mod 4 * 64 + d)%N
      :: decode_sextets rest
  | [a; b; c] => [(a * 4 + b / 16)%N; (b mod 16 * 16 + c / 4)%N]
  | [a; b] => [(a * 4 + b / 16)%N]
  | _ => []
  end.

(** [atob(data)], the forgiving base64 decoding of the HTML standard:
    ASCII whitespace is removed, the padding is stripped, a length of
    [4 k + 1] or a character outside the alphabet is an
    [InvalidCharacterError], and the result is the string whose code
    units are the decoded bytes. *)
Definition atob (data : list N) : result (list N) :=
  let data := List.filter (fun c => negb (is_ascii_whitespace c)) data in
  let data := strip_padding data in
  if (List.length data mod 4 =? 1)%nat then Throw InvalidCharacterError
  else match sextets data with
       | Some vs => Ok (decode_sextets vs)
       | None => Throw InvalidCharacterError
       end.

End Web.

(** ** services/audioUtils.ts *)

Module AudioUtils.
Import JS.

Definition decodeBase64 (base64 : list N) : result (list byte) :=
  binaryString ← Web.atob base64;
  let len := List.length binaryString in
  let bytes := replicate len x00 in
  Ok (foldl
        (fun bytes i => <[i := byte_of_Z (ToUint8 (charCodeAt binaryString i))]> bytes)
        bytes (seq 0 len)).

(** The little-endian signed 16-bit integer of two bytes. *)
Definition int16_le (lo hi : byte) : Z :=
  signed16 (Z_of_byte lo + 256 * Z_of_byte hi).

Fixpoint int16_view (bs : list byte) : list Z :=
  match bs with
  | lo :: hi :: rest => int16_le lo hi :: int16_view rest
  | _ => []
  end.

(** [new Int16Array(buffer)]: a view of a whole [ArrayBuffer], [bs] its
    bytes, [RangeError] when their number is odd.  Elements are read in the
    byte order of the machine, little-endian here. *)
Definition Int16Array_of_buffer (bs : list byte) : result (list Z) :=
  if Nat.even (List.length bs) then Ok (int16_view bs) else Throw RangeError.

(** The rejected promise of the [async] function is [Throw].  The code
    reads its argument only through [data.buffer]: [data] here is the bytes
    of that buffer.  They are the array's own bytes when the array spans its
    buffer, as the one [decodeBase64] allocates does; [Decoder] below takes
    the array itself. *)
Definition decodeAudioData (data : list byte) (ctx : AudioContext.t)
    (sampleRate : Q) (numChannels : nat) : result AudioBuffer.t :=
  dataInt16 ← Int16Array_of_buffer data;
  let frameCount := div (of_nat (List.length dataInt16)) (of_nat numChannels) in
  buffer ← AudioContext.createBuffer ctx numChannels
             (Z.to_nat (ToUint32 frameCount)) sampleRate;
  Ok (foldl
        (fun buffer channel =>
           let channelData := AudioBuffer.getChannelData buffer channel in
           AudioBuffer.setChannelData buffer channel
             (foldl
                (fun channelData i =>
                   <[i := div (load dataInt16 (i * numChannels + channel))
                              (Fin 32768)]> channelData)
                channelData (seq 0 (rounds frameCount))))
        buffer (seq 0 numChannels)).

(** A [Blob]: the bytes of its parts in order, and its media type. *)
Record Blob : Type := mkBlob {
  blob_bytes : list byte;
  blob_type : string
}.

(** The [DataView] setters the encoder calls, little-endian.  They throw
    [RangeError] past the end of the view; the encoder calls them at
    fixed offsets inside its 44 bytes, where they cannot. *)
Definition setUint8 (view : list byte) (offset : nat) (value : number) : list byte :=
  <[offset := byte_of_Z (ToUint8 value)]> view.

Definition setUint16 (view : list byte) (offset : nat) (value : number) : list byte :=
  let v := ToUint16 value in
  <[S offset := byte_of_Z (v / 2 ^ 8)]> (<[offset := byte_of_Z v]> view).

Definition setUint32 (view : list byte) (offset : nat) (value : number) : list byte :=
  let v := ToUint32 value in
  <[S (S (S offset)) := byte_of_Z (v / 2 ^ 24)]>
    (<[S (S offset) := byte_of_Z (v / 2 ^ 16)]>
       (<[S offset := byte_of_Z (v / 2 ^ 8)]> (<[offset := byte_of_Z v]> view))).

Definition writeString (view : list byte) (offset : nat) (string : list N)
  : list byte :=
  foldl (fun view i => setUint8 view (offset + i) (charCodeAt string i))
    view (seq 0 (List.length string)).

(** The bytes of an [Int16Array], in the byte order of the machine
    (little-endian, as in [Int16Array_of_buffer]). *)
Definition int16_bytes (data : list Z) : list byte :=
  flat_map (fun v => [byte_of_Z v; byte_of_Z (v / 2 ^ 8)]) data.

(** The two statements under "Clip sample to [-1, 1]" and "Scale to
    16-bit integer range" of the inner loop. *)
Definition clip_and_scale (sample : number) : number :=
  let sample := Math_max (of_Z (-1)) (Math_min (of_Z 1) sample) in
  if lt sample (of_Z 0)
  then mul sample (of_Z 32768)
  else mul sample (of_Z 32767).

(** The statements under "Write WAV Header": the 44 bytes of [header]
    once [view] has written them. *)
Definition wav_header (numChannels : nat) (sampleRate format bitDepth : number)
    (byteLength : nat) : list byte :=
  let header := replicate 44 x00 in
  let view := header in
  let view := writeString view 0 (str "RIFF") in
  let view := setUint32 view 4 (of_Z (36 + Z.of_nat byteLength)) in
  let view := writeString view 8 (str "WAVE") in
  let view := writeString view 12 (str "fmt ") in
  let view := setUint32 view 16 (of_Z 16) in
  let view := setUint16 view 20 format in
  let view := setUint16 view 22 (of_nat numChannels) in
  let view := setUint32 view 24 sampleRate in
  let view := setUint32 view 28
                (mul (mul sampleRate (of_nat numChannels)) (div bitDepth (of_Z 8))) in
  let view := setUint16 view 32 (mul (of_nat numChannels) (div bitDepth (of_Z 8))) in
  let view := setUint16 view 34 bitDepth in
  let view := writeString view 36 (str "data") in
  let view := setUint32 view 40 (of_nat byteLength) in
  view.

(** The statements under "Interleave channels": the [Int16Array]. *)
Definition interleave (buffer : AudioBuffer.t) : list Z :=
  let numChannels := AudioBuffer.numberOfChannels buffer in
  let channels := AudioBuffer.getChannelData buffer <$> seq 0 numChannels in
  let data := replicate (AudioBuffer.length buffer * numChannels) 0 in
  foldl
    (fun data i =>
       foldl
         (fun data ch =>
            <[(i * numChannels + ch)%nat :=
                ToInt16 (clip_and_scale (loadf (default [] (channels !! ch)) i))]> data)
         data (seq 0 numChannels))
    data (seq 0 (AudioBuffer.length buffer)).

Definition audioBufferToWav (buffer : AudioBuffer.t) : Blob :=
  let numChannels := AudioBuffer.numberOfChannels buffer in
  let sampleRate := Fin (AudioBuffer.sampleRate buffer) in
  let format := of_Z 1 in
  let bitDepth := of_Z 16 in
  let data := interleave buffer in
  let header := wav_header numChannels sampleRate format bitDepth
                  (2 * List.length data) in
  mkBlob (header ++ int16_bytes data) "audio/wav".

End AudioUtils.

(** ** A [Uint8Array] and its buffer *)

Module Uint8Array.

(** A typed array is a window on an [ArrayBuffer]: [length] bytes from
    [byteOffset] on. *)
Record t : Type := mk {
  buffer : list byte;
  byteOffset : nat;
  length : nat
}.

(** The bytes the array itself holds. *)
Definition bytes (a : t) : list byte :=
  take (length a) (drop (byteOffset a) (buffer a)).

(** [new Uint8Array(len)], filled: the array spans a buffer of its own,
    as the result of [decodeBase64] does. *)
Definition of_bytes (bs : list byte) : t := mk bs 0 (List.length bs).

(** The array spans its buffer. *)
Definition spans (a : t) : Prop :=
  byteOffset a = 0%nat /\ length a = List.length (buffer a).

End Uint8Array.

Module Decoder.

(** [decodeAudioData] on the array it is given: [new Int16Array(data.buffer)]
    views the whole buffer, whatever window [data] has on it. *)
Definition decodeAudioData (data : Uint8Array.t) (ctx : AudioContext.t)
    (sampleRate : Q) (numChannels : nat) : JS.result AudioBuffer.t :=
  AudioUtils.decodeAudioData (Uint8Array.buffer data) ctx sampleRate numChannels.

End Decoder.

(** ** services/geminiService.ts *)

Module GeminiService.
Import JS.

Section Service.
(** The voices of [types.ts]. *)
Context {VoiceName : Type}.

(** The remote service: the request fails, or a response arrives whose
    first part holds inline data or holds none. *)
Definition GenAI : Type := list N -> VoiceName -> result (option (list N)).

(** A computation that talks to the service: how it ends (a rejected
    promise is [Throw]) and the requests it has sent, in order. *)
Definition Remote (A : Type) : Type := result A * list (list N * VoiceName).

Definition remote_ret {A : Type} (a : A) : Remote A := (Ok a, []).
Definition remote_throw {A : Type} (e : exn) : Remote A := (Throw e, []).

Definition remote_bind {A B : Type} (m : Remote A) (k : A -> Remote B) : Remote B :=
  match m with
  | (Ok a, sent) => let (r, sent') := k a in (r, sent ++ sent')
  | (Throw e, sent) => (Throw e, sent)
  end.

Definition remote_try {A : Type} (body : Remote A) (handler : exn -> Remote A)
  : Remote A :=
  match body with
  | (Ok a, sent) => (Ok a, sent)
  | (Throw e, sent) => let (r, sent') := handler e in (r, sent ++ sent')
  end.

(** [await ai.models.generateContent({...})] *)
Definition generateContent (ai : GenAI) (text : list N) (voice : VoiceName)
  : Remote (option (list N)) :=
  (ai text voice, [(text, voice)]).

(** A computation of the service records its requests and how it ends:
    the [console.error] of the [catch] block, which changes neither, is
    left out, so nothing here counts the console entries of a failed
    call. *)
Definition generateJapaneseSpeech (ai : GenAI) (text : list N) (voice : VoiceName)
  : Remote (list N) :=
  if negb (truthy (trim text))
  then remote_throw (Error "Please enter some Japanese text.")
  else
    remote_try
      (remote_bind (generateContent ai text voice)
         (fun response =>
            let base64Audio := response in
            match base64Audio with
            | Some (c :: data) => remote_ret (c :: data)
            | _ => remote_throw (Error "No audio data received from Gemini.")
            end))
      (fun error =>
         remote_throw (Error (if String.eqb (message error) ""
                              then "Failed to generate speech."
                              else message error))).

End Service.

End GeminiService.

(** ** App.tsx: the playback controller and the handlers *)

Module App.
Import JS.

(** An [AudioBufferSourceNode]: its buffer, whether [start] and [stop]
    were called, whether its buffer ran out, whether it is connected. *)
Record SourceNode : Type := mkNode {
  node_buffer : AudioBuffer.t;
  started : bool;
  stopped : bool;
  ended : bool;
  connected : bool
}.

(** The node is producing sound. *)
Definition playing (n : SourceNode) : bool :=
  started n && negb (stopped n) && negb (ended n).

Inductive ContextState : Type := suspended | running.

(** What the browser answers when the page asks for audio output. *)
Record Platform : Type := mkPlatform {
  can_create : bool;
  starts_suspended : bool;
  can_resume : bool
}.

(** The state of the component: the React state, the four refs, and the
    world the handlers act on (the source nodes created so far, the files
    offered for download, the console entries the handlers of [App.tsx]
    write). *)
Record State : Type := mkState {
  isLoading : bool;
  isPlaying : bool;
  error : option string;
  hasAudio : bool;
  audioContextRef : option ContextState;
  sourceNodeRef : option nat;
  analyserRef : bool;
  lastAudioBufferRef : option AudioBuffer.t;
  nodes : list SourceNode;
  downloads : list (string * AudioUtils.Blob);
  console : list exn
}.

Definition initial : State :=
  mkState false false None false None None false None [] [] [].

Definition set_isPlaying (v : bool) (s : State) : State :=
  mkState (isLoading s) v (error s) (hasAudio s) (audioContextRef s)
    (sourceNodeRef s) (analyserRef s) (lastAudioBufferRef s) (nodes s)
    (downloads s) (console s).

Definition set_error (v : option string) (s : State) : State :=
  mkState (isLoading s) (isPlaying s) v (hasAudio s) (audioContextRef s)
    (sourceNodeRef s) (analyserRef s) (lastAudioBufferRef s) (nodes s)
    (downloads s) (console s).

Definition set_audioContextRef (v : option ContextState) (s : State) : State :=
  mkState (isLoading s) (isPlaying s) (error s) (hasAudio s) v
    (sourceNodeRef s) (analyserRef s) (lastAudioBufferRef s) (nodes s)
    (downloads s) (console s).

Definition set_sourceNodeRef (v : option nat) (s : State) : State :=
  mkState (isLoading s) (isPlaying s) (error s) (hasAudio s) (audioContextRef s)
    v (analyserRef s) (lastAudioBufferRef s) (nodes s) (downloads s) (console s).

Definition set_analyserRef (v : bool) (s : State) : State :=
  mkState (isLoading s) (isPlaying s) (error s) (hasAudio s) (audioContextRef s)
    (sourceNodeRef s) v (lastAudioBufferRef s) (nodes s) (downloads s) (console s).

Definition set_nodes (v : list SourceNode) (s : State) : State :=
  mkState (isLoading s) (isPlaying s) (error s) (hasAudio s) (audioContextRef s)
    (sourceNodeRef s) (analyserRef s) (lastAudioBufferRef s) v
    (downloads s) (console s).

Definition set_downloads (v : list (string * AudioUtils.Blob)) (s : State) : State :=
  mkState (isLoading s) (isPlaying s) (error s) (hasAudio s) (audioContextRef s)
    (sourceNodeRef s) (analyserRef s) (lastAudioBufferRef s) (nodes s)
    v (console s).

Definition set_console (v : list exn) (s : State) : State :=
  mkState (isLoading s) (isPlaying s) (error s) (hasAudio s) (audioContextRef s)
    (sourceNodeRef s) (analyserRef s) (lastAudioBufferRef s) (nodes s)
    (downloads s) v.

(** A handler runs on the state and ends normally or by throwing; what
    it has changed before it throws stays changed. *)
Definition M (A : Type) : Type := State -> result A * State.

#[global] Instance M_ret : MRet M := fun A a s => (Ok a, s).
#[global] Instance M_bind : MBind M :=
  fun A B k m s =>
    match m s with
    | (Ok a, s') => k a s'
    | (Throw e, s') => (Throw e, s')
    end.

Definition get {A : Type} (field : State -> A) : M A := fun s => (Ok (field s), s).
Definition modify (f : State -> State) : M unit := fun s => (Ok tt, f s).
Definition throw {A : Type} (e : exn) : M A := fun s => (Throw e, s).

Definition try_catch {A : Type} (body : M A) (handler : exn -> M A) : M A :=
  fun s =>
    match body s with
    | (Ok a, s') => (Ok a, s')
    | (Throw e, s') => handler e s'
    end.

(** [source.stop()]: [InvalidStateError] on a node that was not
    started. *)
Definition node_stop (id : nat) : M unit :=
  fun s =>
    match nodes s !! id with
    | Some n =>
        if started n
        then (Ok tt,
              set_nodes (alter (fun n => mkNode (node_buffer n) (started n) true
                                           (ended n) (connected n)) id (nodes s)) s)
        else (Throw InvalidStateError, s)
    | None => (Ok tt, s)
    end.

(** [source.disconnect()] and [source.connect(analyser)] *)
Definition node_connection (id : nat) (v : bool) : M unit :=
  modify (fun s =>
    set_nodes (alter (fun n => mkNode (node_buffer n) (started n) (stopped n)
                                 (ended n) v) id (nodes s)) s).

(** [source.start()] *)
Definition node_start (id : nat) : M unit :=
  modify (fun s =>
    set_nodes (alter (fun n => mkNode (node_buffer n) true (stopped n)
                                 (ended n) (connected n)) id (nodes s)) s).

(** [ctx.createBufferSource()] followed by [source.buffer = buffer]: a
    new node, idle and unconnected. *)
Definition createBufferSource (buffer : AudioBuffer.t) : M nat :=
  fun s =>
    (Ok (List.length (nodes s)),
     set_nodes (nodes s ++ [mkNode buffer false false false false]) s).

Definition console_error (e : exn) : M unit :=
  modify (fun s => set_console (console s ++ [e]) s).

Definition stopAudio : M unit :=
  current ← get sourceNodeRef;
  match current with
  | Some id =>
      try_catch (node_stop id) (fun e => mret tt);;
      node_connection id false;;
      modify (set_sourceNodeRef None)
  | None => mret tt
  end;;
  modify (set_isPlaying false).

Definition ensureAudioContext (p : Platform) : M unit :=
  current ← get audioContextRef;
  match current with
  | None =>
      if can_create p
      then modify (set_audioContextRef
                     (Some (if starts_suspended p then suspended else running)))
      else throw NotSupportedError
  | Some _ => mret tt
  end;;
  current ← get audioContextRef;
  match current with
  | Some suspended =>
      if can_resume p
      then modify (set_audioContextRef (Some running))
      else throw InvalidStateError
  | _ => mret tt
  end.

Definition playBuffer (p : Platform) (buffer : AudioBuffer.t) : M unit :=
  ensureAudioContext p;;
  analyser ← get analyserRef;
  (if analyser : bool then mret tt else modify (set_analyserRef true));;
  source ← createBufferSource buffer;
  node_connection source true;;
  modify (set_sourceNodeRef (Some source));;
  node_start source;;
  modify (set_isPlaying true).

(** The [ended] event of a node, with the handler [playBuffer] gave
    it. *)
Definition onended (id : nat) : M unit :=
  modify (fun s =>
    set_nodes (alter (fun n => mkNode (node_buffer n) (started n) (stopped n)
                                 true (connected n)) id (nodes s)) s);;
  modify (set_isPlaying false).

(** The handler run to its end, with nothing in between at its [await];
    [Async] below splits the call there. *)
Definition handleReplay (p : Platform) : M unit :=
  last ← get lastAudioBufferRef;
  match last with
  | None => mret tt
  | Some buffer =>
      stopAudio;;
      try_catch (playBuffer p buffer)
        (fun err =>
           console_error err;;
           modify (set_error (Some "Failed to replay audio."%string)))
  end.

(** [iso.replace(/[:.]/g, '-').slice(0, 19)] *)
Fixpoint dashes (iso : string) : string :=
  match iso with
  | EmptyString => EmptyString
  | String c rest =>
      String (if (Ascii.eqb c ":" || Ascii.eqb c ".")%char then "-"%char else c)
        (dashes rest)
  end.

Definition file_name (iso : string) : string :=
  ("nihongo-voice-" ++ substring 0 19 (dashes iso) ++ ".wav")%string.

(** [iso] is [new Date().toISOString()].  The link is clicked, which
    offers the file for download. *)
Definition handleDownload (iso : string) : M unit :=
  last ← get lastAudioBufferRef;
  match last with
  | None => mret tt
  | Some buffer =>
      try_catch
        (let wavBlob := AudioUtils.audioBufferToWav buffer in
         modify (fun s => set_downloads (downloads s ++ [(file_name iso, wavBlob)]) s))
        (fun err =>
           console_error err;;
           modify (set_error (Some "Failed to download audio."%string)))
  end.

(** Every node that is producing sound is the one [sourceNodeRef]
    holds. *)
Definition single_session (s : State) : Prop :=
  forall id n, nodes s !! id = Some n -> playing n = true -> sourceNodeRef s = Some id.

(** The node a stopped session leaves behind: stopped if it had been
    started, and disconnected. *)
Definition torn_down (n : SourceNode) : SourceNode :=
  mkNode (node_buffer n) (started n) (if started n then true else stopped n)
    (ended n) false.

(** [ensureAudioContext] will succeed. *)
Definition audio_available (p : Platform) (s : State) : bool :=
  match audioContextRef s with
  | None => can_create p && (negb (starts_suspended p) || can_resume p)
  | Some suspended => can_resume p
  | Some running => true
  end.

End App.

(** ** App.tsx: a replay at its [await] *)

Module Async.
Import JS App.









End Async.

(** ** The encoder's quantisation, in the words of the specification *)

Module Spec.

(** The sample clamped to [[-1, 1]]. *)
Definition clamp (q : Q) : Q := Qmax (-1) (Qmin 1 q).

(** Negative samples scale by 32768, the others by 32767. *)
Definition scale (c : Q) : Q :=
  if Qlt_le_dec c 0 then (c * 32768)%Q else (c * 32767)%Q.

(** The 16-bit value of a finite sample: the integer part of the scaled
    clamped sample. *)
Definition encode (q : Q) : Z := JS.trunc (scale (clamp q)).

(** The same for every number a [Float32Array] can hold: the infinities
    clamp to the ends of the range, [NaN] goes through the clamp and the
    scaling as [NaN] and is stored as [0]. *)
Definition encode_number (s : JS.number) : Z :=
  match s with
  | JS.Fin q => encode q
  | JS.PosInf => 32767
  | JS.NegInf => -32768
  | JS.NaN => 0
  end.

(** Reading a WAV back: little-endian unsigned integers at a byte
    offset. *)
Definition byte_at (w : list byte) (offset : nat) : Z :=
  JS.Z_of_byte (default x00 (w !! offset)).

Definition u16_at (w : list byte) (offset : nat) : Z :=
  byte_at w offset + 2 ^ 8 * byte_at w (offset + 1).

Definition u32_at (w : list byte) (offset : nat) : Z :=
  byte_at w offset + 2 ^ 8 * byte_at w (offset + 1)
  + 2 ^ 16 * byte_at w (offset + 2) + 2 ^ 24 * byte_at w (offset + 3).

(** The four bytes of a chunk identifier. *)
Definition tag_at (w : list byte) (offset : nat) : list byte :=
  take 4 (drop offset w).

(** The buffer's parameters fit the fixed-width fields of the header:
    the sample rate is the whole number [hz] of hertz, and the channel
    count, the rates and the sizes are below the bounds of their 16-bit
    and 32-bit fields. *)
Definition header_fits (b : AudioBuffer.t) (hz : Z) : Prop :=
  let n := Z.of_nat (AudioBuffer.numberOfChannels b) in
  let len := Z.of_nat (AudioBuffer.length b) in
  (AudioBuffer.sampleRate b == inject_Z hz)%Q
  /\ 0 <= hz < 2 ^ 32
  /\ hz * n * 2 < 2 ^ 32
  /\ n * 2 < 2 ^ 16
  /\ 36 + 2 * (len * n) < 2 ^ 32.

(** Base64 as RFC 4648 writes it.  The character of a 6-bit value: *)
Definition alphabet_char (v : N) : N :=
  if (v <? 26)%N then (v + 65)%N
  else if (v <? 52)%N then (v + 71)%N
  else if (v <? 62)%N then (v - 4)%N
  else if (v =? 62)%N then 43%N
  else 47%N.

(** The 6-bit values of a byte sequence: four for each group of three
    bytes, two for a last single byte, three for a last pair. *)
Fixpoint sextets_of_bytes (bs : list N) : list N :=
  match bs with
  | x :: y :: z :: rest =>
      (x / 4)%N :: (x mod 4 * 16 + y / 16)%N :: (y mod 16 * 4 + z / 64)%N
      :: (z mod 64)%N :: sextets_of_bytes rest
  | [x; y] => [(x / 4)%N; (x mod 4 * 16 + y / 16)%N; (y mod 16 * 4)%N]
  | [x] => [(x / 4)%N; (x mod 4 * 16)%N]
  | [] => []
  end.

(** The number of [=] that complete the last group. *)
Definition padding (n : nat) : nat :=
  match (n mod 3)%nat with
  | 1%nat => 2%nat
  | 2%nat => 1%nat
  | _ => 0%nat
  end.

Definition base64_encode (bs : list byte) : list N :=
  (alphabet_char <$> sextets_of_bytes (Byte.to_N <$> bs))
  ++ replicate (padding (List.length bs)) 61%N.

(** A padded base64 string: characters of the alphabet, then at most two
    [=], four characters to a group. *)
Definition padded_base64 (body : list N) (pad : nat) : Prop :=
  Forall (fun c => is_Some (Web.sextet c)) body
  /\ (pad <= 2)%nat
  /\ ((List.length body + pad) mod 4 = 0)%nat.

(** Every sample of the buffer is a finite number of [[-1, 1]]. *)
Definition normalized (b : AudioBuffer.t) : Prop :=
  Forall (Forall (fun s => exists q, s = JS.Fin q /\ (-1 <= q <= 1)%Q))
    (AudioBuffer.channelData b).

(** The number of whole frames in [data]. *)
Definition frames_of (data : list byte) (numChannels : nat) : nat :=
  (List.length data / 2 / numChannels)%nat.

End Spec.

(** ** What the decoder and the encoder produce, for the further
    properties *)

Module Derived.

(** A sample the decoder stores: a 16-bit integer over 32768. *)
Definition pcm_sample (s : JS.number) : Prop :=
  exists q k, s = JS.Fin q /\ (q == inject_Z k / 32768)%Q /\ -32768 <= k <= 32767.

(** What a 16-bit sample becomes when it is decoded and encoded again:
    a positive one loses one step. *)
Definition reencoded (v : Z) : Z := if 0 <? v then v - 1 else v.

(** The byte a code unit is stored as. *)
Definition low_byte (c : N) : byte := JS.byte_of_Z (Z.of_N c mod 256).

(** What [replace(/[:.]/g, '-')] makes of a character. *)
Definition dash (c : ascii) : ascii :=
  if (Ascii.eqb c ":" || Ascii.eqb c ".")%char then "-"%char else c.

End Derived.

(** ** components/Controls.tsx: what the controls offer *)

Module Controls.

(** The props the markup depends on; the voice only fills the select and
    the callbacks are the handlers of [App.tsx]. *)
Record Props : Type := mkProps {
  text : list N;
  isLoading : bool;
  isPlaying : bool;
  hasAudio : bool
}.

Inductive button : Type := Stop | Download | Replay | Generate.

#[global] Instance button_eq_dec : EqDecision button.
Proof. solve_decision. Defined.

(** The buttons rendered, in their order, each with its [disabled]
    attribute. *)
Definition buttons (props : Props) : list (button * bool) :=
  if isPlaying props
  then [(Stop, false)]
  else
    (if hasAudio props && negb (isLoading props)
     then [(Download, false); (Replay, false)]
     else [])
    ++ [(Generate, isLoading props || negb (JS.truthy (JS.trim (text props))))].

(** The [disabled] attribute of the textarea and of the select. *)
Definition inputs_disabled (props : Props) : bool :=
  isLoading props || isPlaying props.


(** A click on the button reaches its handler: it is rendered and not
    disabled. *)
Definition clickable (b : button) (props : Props) : bool :=
  bool_decide ((b, false) ∈ buttons props).

End Controls.

(** ** components/Visualizer.tsx: one frame of the oscilloscope *)

Module Visualizer.

(** The calls [draw] makes, on the 2D context, the analyser and the
    window. *)
Inductive command : Type :=
| FillStyle (v : string)
| FillRect (x y w h : Q)
| BeginPath
| MoveTo (x y : Q)
| LineTo (x y : Q)
| StrokeStyle (v : string)
| LineWidth (v : Q)
| Stroke
| RequestAnimationFrame
| GetByteTimeDomainData.

(** The canvas is [width={600} height={100}]. *)
Definition width : Q := 600.
Definition height : Q := 100.

(** The body of the loop: the point of sample [i], then [x += sliceWidth]. *)
Definition plot (dataArray : list byte) (sliceWidth : Q) (acc : Q * list command)
    (i : nat) : Q * list command :=
  let (x, path) := acc in
  let v := (inject_Z (JS.Z_of_byte (default x00 (dataArray !! i))) / 128)%Q in
  let y := (v * height / 2)%Q in
  ((x + sliceWidth)%Q, path ++ [if (i =? 0)%nat then MoveTo x y else LineTo x y]).

(** [dataArray] is the array after [getByteTimeDomainData] has filled it;
    its length is [analyser.frequencyBinCount].  The numbers are the exact
    values: the doubles of the source compute them without rounding when
    the length is a power of two, as every [frequencyBinCount] is. *)
Definition draw (isPlaying : bool) (dataArray : list byte) : list command :=
  if negb isPlaying
  then
    [FillStyle "rgb(24, 24, 27)"; FillRect 0 0 width height; BeginPath;
     MoveTo 0 (height / 2); LineTo width (height / 2);
     StrokeStyle "#3f3f46"; Stroke]
  else
    let bufferLength := List.length dataArray in
    let sliceWidth := (width * 1 / inject_Z (Z.of_nat bufferLength))%Q in
    let path := (foldl (plot dataArray sliceWidth) (0%Q, []) (seq 0 bufferLength)).2 in
    [RequestAnimationFrame; GetByteTimeDomainData;
     FillStyle "rgb(24, 24, 27)"; FillRect 0 0 width height;
     LineWidth 2; StrokeStyle "#818cf8"; BeginPath]
    ++ path ++ [LineTo width (height / 2); Stroke].

(** The height at which sample [i] is drawn. *)
Definition level (dataArray : list byte) (i : nat) : Q :=
  (inject_Z (JS.Z_of_byte (default x00 (dataArray !! i))) / 128 * height / 2)%Q.

(** The points of the path the commands trace. *)
Definition point (c : command) : option (Q * Q) :=
  match c with
  | MoveTo x y | LineTo x y => Some (x, y)
  | _ => None
  end.

Definition points (cs : list command) : list (Q * Q) := omap point cs.

(** [x] after [i] additions of [sliceWidth]. *)
Fixpoint advance (sliceWidth : Q) (i : nat) : Q :=
  match i with
  | O => 0%Q
  | S j => (advance sliceWidth j + sliceWidth)%Q
  end.

End Visualizer.

(** ** App.tsx: generating speech, and the page under its events *)

Module Page.
Import JS App.

Definition set_isLoading (v : bool) (s : State) : State :=
  mkState v (isPlaying s) (error s) (hasAudio s) (audioContextRef s)
    (sourceNodeRef s) (analyserRef s) (lastAudioBufferRef s) (nodes s)
    (downloads s) (console s).

Definition set_hasAudio (v : bool) (s : State) : State :=
  mkState (isLoading s) (isPlaying s) (error s) v (audioContextRef s)
    (sourceNodeRef s) (analyserRef s) (lastAudioBufferRef s) (nodes s)
    (downloads s) (console s).

Definition set_lastAudioBufferRef (v : option AudioBuffer.t) (s : State) : State :=
  mkState (isLoading s) (isPlaying s) (error s) (hasAudio s) (audioContextRef s)
    (sourceNodeRef s) (analyserRef s) v (nodes s) (downloads s) (console s).

(** [err.message || fallback] *)
Definition message_or (err : exn) (fallback : string) : string :=
  if String.eqb (message err) "" then fallback else message err.

(** The effect on [text] and [voice]: it runs when one of them has
    changed. *)
Definition resetCache : M unit :=
  modify (set_hasAudio false);;
  modify (set_lastAudioBufferRef None).

Section Generate.
Context {VoiceName : Type}.

(** A handler that also talks to the service: how it ends, the state it
    leaves and the requests it has sent. *)
Definition G (A : Type) : Type :=
  State -> result A * State * list (list N * VoiceName).

#[global] Instance G_ret : MRet G := fun A a s => (Ok a, s, []).
#[global] Instance G_bind : MBind G :=
  fun A B k m s =>
    match m s with
    | (Ok a, s', sent) =>
        match k a s' with
        | (r, s'', sent') => (r, s'', sent ++ sent')
        end
    | (Throw e, s', sent) => (Throw e, s', sent)
    end.

(** A step on the page alone, a call of the service, a call of a pure
    function. *)
Definition on_page {A : Type} (m : M A) : G A := fun s => (m s, []).
Definition on_service {A : Type} (r : GeminiService.Remote A) : G A :=
  fun s => (r.1, s, r.2).
Definition call {A : Type} (r : result A) : G A := fun s => (r, s, []).

(** [try { body } catch (err) { handler err } finally { final }] *)
Definition try_catch_finally {A : Type} (body : G A) (handler : exn -> G A)
    (final : G unit) : G A :=
  fun s =>
    match
      match body s with
      | (Ok a, s', sent) => (Ok a, s', sent)
      | (Throw e, s', sent) =>
          match handler e s' with
          | (r, s'', sent') => (r, s'', sent ++ sent')
          end
      end
    with
    | (r, s1, sent1) =>
        match final s1 with
        | (Ok _, s2, sent2) => (r, s2, sent1 ++ sent2)
        | (Throw e, s2, sent2) => (Throw e, s2, sent1 ++ sent2)
        end
    end.

(** [ctx] is the audio context [audioContextRef] holds, as the decoder
    sees it. *)
Definition handleGenerateAndPlay (p : Platform) (ctx : AudioContext.t)
    (ai : GeminiService.GenAI) (text : list N) (voice : VoiceName) : G unit :=
  on_page (modify (set_error None));;
  on_page (modify (set_isLoading true));;
  on_page (modify (set_hasAudio false));;
  on_page stopAudio;;
  try_catch_finally
    (on_page (ensureAudioContext p);;
     base64Data ← on_service (GeminiService.generateJapaneseSpeech ai text voice);
     rawBytes ← call (AudioUtils.decodeBase64 base64Data);
     audioBuffer ← call (AudioUtils.decodeAudioData rawBytes ctx 24000 1);
     on_page (modify (set_lastAudioBufferRef (Some audioBuffer)));;
     on_page (modify (set_hasAudio true));;
     on_page (playBuffer p audioBuffer))
    (fun err =>
       on_page (console_error err);;
       on_page (modify (set_error
                          (Some (message_or err "An unexpected error occurred."))));;
       on_page (modify (set_hasAudio false)))
    (on_page (modify (set_isLoading false))).

(** The page: the component's state, the two inputs, and the requests
    sent so far. *)
Record World : Type := mkWorld {
  state : State;
  text : list N;
  voice : VoiceName;
  sent : list (list N * VoiceName)
}.

(** What happens to the page: the handlers of the four buttons, each with
    what the platform and the service answer at that time, the [ended]
    event of a source node, and the two inputs. *)
Inductive event : Type :=
| ClickGenerate (p : Platform) (ctx : AudioContext.t) (ai : @GeminiService.GenAI VoiceName)
| ClickReplay (p : Platform)
| ClickDownload (iso : string)
| ClickStop
| Ended (id : nat)
| TextChange (t : list N)
| VoiceChange (v : VoiceName).

Context `{EqDecision VoiceName}.

Definition on_state (f : State -> State) (w : World) : World :=
  mkWorld (f (state w)) (text w) (voice w) (sent w).

(** Each handler runs to its end before the next event: while a
    generation waits, [isLoading] keeps the buttons and the inputs from
    reaching a handler.  A node fires [ended] once, after it was
    started. *)
Definition handle (w : World) (ev : event) : World :=
  match ev with
  | ClickGenerate p ctx ai =>
      match handleGenerateAndPlay p ctx ai (text w) (voice w) (state w) with
      | (_, s, requests) => mkWorld s (text w) (voice w) (sent w ++ requests)
      end
  | ClickReplay p => on_state (fun s => (handleReplay p s).2) w
  | ClickDownload iso => on_state (fun s => (handleDownload iso s).2) w
  | ClickStop => on_state (fun s => (stopAudio s).2) w
  | Ended id =>
      match nodes (state w) !! id with
      | Some n =>
          if started n && negb (ended n)
          then on_state (fun s => (onended id s).2) w
          else w
      | None => w
      end
  | TextChange t =>
      if decide (t = text w) then w
      else mkWorld (resetCache (state w)).2 t (voice w) (sent w)
  | VoiceChange v =>
      if decide (v = voice w) then w
      else mkWorld (resetCache (state w)).2 (text w) v (sent w)
  end.

Definition run (w : World) (events : list event) : World := foldl handle w events.

(** The page as it is mounted. *)
Definition mounted (text : list N) (voice : VoiceName) : World :=
  mkWorld initial text voice [].

(** The props [App] passes to [Controls]. *)
Definition props (w : World) : Controls.Props :=
  Controls.mkProps (text w) (isLoading (state w)) (isPlaying (state w))
    (hasAudio (state w)).

End Generate.

(** The state a generation starts from, after the flags are reset and
    the session stopped. *)
Definition prepared (s : State) : State :=
  (stopAudio (set_hasAudio false (set_isLoading true (set_error None s)))).2.

(** The state a failed generation ends in. *)
Definition failed (err : exn) (s : State) : State :=
  set_isLoading false
    (set_hasAudio false
       (set_error (Some (message_or err "An unexpected error occurred."))
          (set_console (console s ++ [err]) s))).

(** The state a generation that has decoded [b] ends in, from the
    prepared state [s]. *)
Definition succeeded (b : AudioBuffer.t) (s : State) : State :=
  mkState false true (error s) true (Some running) (Some (List.length (nodes s)))
    true (Some b) (nodes s ++ [mkNode b true false false true])
    (downloads s) (console s).

(** A buffer the page has decoded: mono at 24 kHz, its channel of its
    length, its samples 16-bit integers over 32768. *)
Definition decoded (b : AudioBuffer.t) : Prop :=
  AudioBuffer.sampleRate b = 24000%Q
  /\ AudioBuffer.numberOfChannels b = 1%nat
  /\ AudioBuffer.wf b
  /\ Forall (Forall Derived.pcm_sample) (AudioBuffer.channelData b).

(** What holds of the page between two events. *)
Definition invariant (s : State) : Prop :=
  single_session s
  /\ isLoading s = false
  /\ (hasAudio s = true -> is_Some (lastAudioBufferRef s))
  /\ (isPlaying s = true ->
      exists id n, sourceNodeRef s = Some id /\ nodes s !! id = Some n
                   /\ playing n = true)
  /\ (forall m, error s = Some m -> m <> ""%string)
  /\ (forall b, lastAudioBufferRef s = Some b -> decoded b)
  /\ (forall id n, nodes s !! id = Some n -> started n = true /\ decoded (node_buffer n))
  /\ (forall name blob, (name, blob) ∈ downloads s ->
      exists iso b, name = file_name iso /\ decoded b
                    /\ blob = AudioUtils.audioBufferToWav b).

End Page.

(** * Properties *)

(** ** Loops that fill an array by index *)

Section Loops.
Context {A : Type}.

Lemma fill_length (f : nat -> A) (n : nat) (a : list A) :
  length (foldl (fun a i => <[i := f i]> a) a (seq 0 n)) = length a.
Proof.
  induction n as [|n IH]; [done|].
  rewrite seq_S, foldl_app. cbn [foldl]. by rewrite length_insert.
Qed.

(** [for (i = 0; i < n; i++) a[i] = f i]: the cells below [n] that exist
    are written, the others keep their value. *)
Lemma fill_lookup (f : nat -> A) (n : nat) (a : list A) (i : nat) :
  foldl (fun a i => <[i := f i]> a) a (seq 0 n) !! i
  = if decide (i < n /\ i < length a)%nat then Some (f i) else a !! i.
Proof.
  induction n as [|n IH].
  - cbn [seq foldl]. by rewrite decide_False by lia.
  - rewrite seq_S, foldl_app. cbn [foldl Nat.add].
    destruct (decide (i = n)) as [->|Hne].
    + destruct (decide (n < length a)%nat) as [Hlt|Hge].
      * rewrite list_lookup_insert_eq by (rewrite fill_length; lia).
        by rewrite decide_True by lia.
      * rewrite list_insert_ge by (rewrite fill_length; lia).
        rewrite IH. by rewrite !decide_False by lia.
    + rewrite list_lookup_insert_ne by done. rewrite IH.
      destruct (decide (i < n /\ i < length a)%nat) as [Hin|Hout].
      * by rewrite decide_True by lia.
      * by rewrite decide_False by lia.
Qed.

(** [for (j = 0; j < m; j++) a[base + j] = f j] *)
Lemma fill_from_length (f : nat -> A) (base m : nat) (a : list A) :
  length (foldl (fun a j => <[(base + j)%nat := f j]> a) a (seq 0 m)) = length a.
Proof.
  induction m as [|m IH]; [done|].
  rewrite seq_S, foldl_app. cbn [foldl]. by rewrite length_insert.
Qed.

Lemma fill_from_lookup (f : nat -> A) (base m : nat) (a : list A) (k : nat) :
  foldl (fun a j => <[(base + j)%nat := f j]> a) a (seq 0 m) !! k
  = if decide (base <= k /\ k < base + m /\ k < length a)%nat
    then Some (f (k - base)%nat) else a !! k.
Proof.
  induction m as [|m IH].
  - cbn [seq foldl]. by rewrite decide_False by lia.
  - rewrite seq_S, foldl_app. cbn [foldl Nat.add].
    destruct (decide (k = base + m)%nat) as [->|Hne].
    + destruct (decide (base + m < length a)%nat) as [Hlt|Hge].
      * rewrite list_lookup_insert_eq by (rewrite fill_from_length; lia).
        rewrite decide_True by lia. do 2 f_equal. lia.
      * rewrite list_insert_ge by (rewrite fill_from_length; lia).
        rewrite IH. by rewrite !decide_False by lia.
    + rewrite list_lookup_insert_ne by done. rewrite IH.
      destruct (decide (base <= k /\ k < base + m /\ k < length a)%nat).
      * by rewrite decide_True by lia.
      * by rewrite decide_False by lia.
Qed.

(** The interleaving loops: [for i < n] [for j < m] [a[i * m + j] = f i j]. *)
Lemma interleave_length (f : nat -> nat -> A) (n m : nat) (a : list A) :
  length (foldl (fun a i =>
                   foldl (fun a j => <[(i * m + j)%nat := f i j]> a) a (seq 0 m))
            a (seq 0 n)) = length a.
Proof.
  induction n as [|n IH]; [done|].
  rewrite seq_S, foldl_app. cbn [foldl Nat.add].
  by rewrite (fill_from_length (f n) (n * m) m).
Qed.

Lemma interleave_lookup (f : nat -> nat -> A) (n m : nat) (a : list A) (i j : nat) :
  (i < n)%nat -> (j < m)%nat -> (i * m + j < length a)%nat ->
  foldl (fun a i =>
           foldl (fun a j => <[(i * m + j)%nat := f i j]> a) a (seq 0 m))
    a (seq 0 n) !! (i * m + j)%nat = Some (f i j).
Proof.
  intros Hi Hj Hlen. induction n as [|n IH]; [lia|].
  rewrite seq_S, foldl_app. cbn [foldl Nat.add].
  rewrite (fill_from_lookup (f n) (n * m) m).
  destruct (decide (i = n)) as [->|Hne].
  - rewrite decide_True by (rewrite interleave_length; lia).
    do 2 f_equal. lia.
  - rewrite decide_False by nia. apply IH. lia.
Qed.

End Loops.

(** ** Arithmetic of the number model *)

Lemma sgn_of_nat_pos (n : nat) : (0 < n)%nat -> JS.sgn (inject_Z (Z.of_nat n)) = Gt.
Proof.
  intros Hn. unfold JS.sgn, Qcompare. cbn [Qnum Qden inject_Z].
  apply Z.compare_gt_iff. lia.
Qed.

(** A quotient of two naturals, as a number. *)
Lemma div_of_nat (a b : nat) :
  (0 < b)%nat ->
  JS.div (JS.of_nat a) (JS.of_nat b)
  = JS.Fin (inject_Z (Z.of_nat a) / inject_Z (Z.of_nat b)).
Proof.
  intros Hb. unfold JS.div, JS.of_nat, JS.of_Z. by rewrite sgn_of_nat_pos.
Qed.

Lemma trunc_quotient (a b : nat) :
  (0 < b)%nat ->
  JS.trunc (inject_Z (Z.of_nat a) / inject_Z (Z.of_nat b)) = Z.of_nat (a / b).
Proof.
  intros Hb. unfold JS.trunc, Qdiv, Qmult, Qinv. cbn [Qnum Qden inject_Z].
  destruct (Z.of_nat b) as [|p|p] eqn:Ep; try lia.
  cbn [Qnum Qden]. rewrite Z.mul_1_r, Pos.mul_1_l.
  rewrite Z.quot_div_nonneg by lia. rewrite <- Ep. by rewrite Nat2Z.inj_div.
Qed.

Lemma ceiling_quotient (a b : nat) :
  (0 < b)%nat ->
  (a / b <= Z.to_nat (Qceiling (inject_Z (Z.of_nat a) / inject_Z (Z.of_nat b))))%nat.
Proof.
  intros Hb.
  assert (Hle : (inject_Z (Z.of_nat (a / b))
                 <= inject_Z (Z.of_nat a) / inject_Z (Z.of_nat b))%Q).
  { rewrite <- (trunc_quotient a b Hb). unfold JS.trunc.
    set (q := (inject_Z (Z.of_nat a) / inject_Z (Z.of_nat b))%Q).
    assert (Hq : (0 <= Qnum q)%Z).
    { subst q. unfold Qdiv, Qmult, Qinv. cbn [Qnum Qden inject_Z].
      destruct (Z.of_nat b) as [|p|p] eqn:Ep; cbn [Qnum Qden]; lia. }
    rewrite Z.quot_div_nonneg by lia. apply (Qfloor_le q). }
  apply Qle_trans with (z := inject_Z (Qceiling
          (inject_Z (Z.of_nat a) / inject_Z (Z.of_nat b)))) in Hle;
    [| apply Qle_ceiling].
  rewrite <- Zle_Qle in Hle. lia.
Qed.

(** ** The view of a byte buffer as 16-bit integers *)

Import AudioUtils.

(** Induction over a list two elements at a time. *)
Lemma list_pair_ind {A : Type} (P : list A -> Prop) :
  P [] -> (forall x, P [x]) -> (forall x y l, P l -> P (x :: y :: l)) ->
  forall l, P l.
Proof.
  intros H0 H1 H2 l.
  enough (H : P l /\ forall x, P (x :: l)) by apply H.
  induction l as [|y l [IHl IHxl]]; split; auto.
Qed.

Lemma int16_view_length (bs : list byte) :
  length (int16_view bs) = (length bs / 2)%nat.
Proof.
  induction bs as [|lo|lo hi rest IH] using list_pair_ind; [done | done |].
  cbn [int16_view length]. rewrite IH.
  change (S (S (length rest))) with (1 * 2 + length rest)%nat.
  rewrite Nat.div_add_l by lia. lia.
Qed.

Lemma int16_view_lookup (bs : list byte) (k : nat) :
  (2 * k + 1 < length bs)%nat ->
  exists lo hi,
    bs !! (2 * k)%nat = Some lo /\ bs !! (2 * k + 1)%nat = Some hi
    /\ int16_view bs !! k = Some (int16_le lo hi).
Proof.
  revert bs. induction k as [|k IH]; intros bs Hk.
  - destruct bs as [|lo [|hi rest]]; cbn [length] in Hk; try lia.
    by exists lo, hi.
  - destruct bs as [|lo [|hi rest]]; cbn [length] in Hk; try lia.
    destruct (IH rest) as (lo' & hi' & H1 & H2 & H3); [lia|].
    exists lo', hi'. replace (2 * S k)%nat with (S (S (2 * k))) by lia.
    by cbn [int16_view].
Qed.

(** ** The PCM decoder *)

Section PerChannel.
Variable g : nat -> list JS.number -> list JS.number.

Let step (b : AudioBuffer.t) (channel : nat) : AudioBuffer.t :=
  AudioBuffer.setChannelData b channel (g channel (AudioBuffer.getChannelData b channel)).

(** [for (channel = 0; channel < n; channel++)]: each existing channel
    below [n] is rewritten once, from its initial contents. *)
Lemma per_channel_lookup (n : nat) (b : AudioBuffer.t) (ch : nat) :
  AudioBuffer.channelData (foldl step b (seq 0 n)) !! ch
  = if decide (ch < n)%nat then g ch <$> AudioBuffer.channelData b !! ch
    else AudioBuffer.channelData b !! ch.
Proof.
  induction n as [|n IH].
  - by rewrite decide_False by lia.
  - rewrite seq_S, foldl_app. cbn [foldl Nat.add].
    set (b' := foldl step b (seq 0 n)) in *.
    unfold step at 1, AudioBuffer.setChannelData. cbn [AudioBuffer.channelData].
    destruct (decide (ch = n)) as [->|Hne].
    + rewrite decide_True by lia. rewrite decide_False in IH by lia.
      unfold AudioBuffer.getChannelData. rewrite IH.
      destruct (AudioBuffer.channelData b !! n) as [c|] eqn:Ec.
      * apply list_lookup_insert_eq. by apply lookup_lt_Some in IH.
      * rewrite list_insert_ge; [by rewrite IH|]. by apply lookup_ge_None in IH.
    + rewrite list_lookup_insert_ne by done. rewrite IH.
      destruct (decide (ch < n)%nat);
        [by rewrite decide_True by lia | by rewrite decide_False by lia].
Qed.

Lemma per_channel_shape (n : nat) (b : AudioBuffer.t) :
  AudioBuffer.sampleRate (foldl step b (seq 0 n)) = AudioBuffer.sampleRate b
  /\ AudioBuffer.length (foldl step b (seq 0 n)) = AudioBuffer.length b
  /\ AudioBuffer.numberOfChannels (foldl step b (seq 0 n))
     = AudioBuffer.numberOfChannels b.
Proof.
  induction n as [|n (IH1 & IH2 & IH3)]; [done|].
  rewrite seq_S, foldl_app. cbn [foldl Nat.add].
  unfold step at 1 3 5, AudioBuffer.setChannelData, AudioBuffer.numberOfChannels.
  cbn [AudioBuffer.sampleRate AudioBuffer.length AudioBuffer.channelData].
  rewrite length_insert. auto.
Qed.

End PerChannel.

Lemma decodeAudioData_odd (data : list byte) (ctx : AudioContext.t)
    (sampleRate : Q) (numChannels : nat) :
  Nat.even (length data) = false ->
  decodeAudioData data ctx sampleRate numChannels = JS.Throw JS.RangeError.
Proof.
  intros Hodd. unfold decodeAudioData, Int16Array_of_buffer. by rewrite Hodd.
Qed.

Lemma decodeAudioData_even (data : list byte) (ctx : AudioContext.t)
    (sampleRate : Q) (numChannels : nat) :
  Nat.even (length data) = true ->
  (0 < numChannels)%nat ->
  Z.of_nat (Spec.frames_of data numChannels) < 2 ^ 32 ->
  AudioContext.supports ctx numChannels (Spec.frames_of data numChannels) sampleRate = true ->
  exists b,
    decodeAudioData data ctx sampleRate numChannels = JS.Ok b
    /\ AudioBuffer.sampleRate b = sampleRate
    /\ AudioBuffer.numberOfChannels b = numChannels
    /\ AudioBuffer.length b = Spec.frames_of data numChannels
    /\ forall ch, (ch < numChannels)%nat ->
       exists c,
         AudioBuffer.channelData b !! ch = Some c
         /\ length c = Spec.frames_of data numChannels
         /\ forall i, (i < Spec.frames_of data numChannels)%nat ->
            exists lo hi,
              data !! (2 * (i * numChannels + ch))%nat = Some lo
              /\ data !! (2 * (i * numChannels + ch) + 1)%nat = Some hi
              /\ c !! i = Some (JS.Fin (inject_Z (int16_le lo hi) / 32768)).
Proof.
  intros Heven Hnc Hfit Hsup. unfold Spec.frames_of in *.
  set (F := (length data / 2 / numChannels)%nat) in *.
  unfold decodeAudioData, Int16Array_of_buffer. rewrite Heven.
  cbn [mbind JS.result_bind]. rewrite int16_view_length.
  rewrite div_of_nat by done.
  assert (HF : Z.to_nat (JS.ToUint32 (JS.Fin (inject_Z (Z.of_nat (length data / 2))
                                          / inject_Z (Z.of_nat numChannels)))) = F).
  { unfold JS.ToUint32, JS.ToIntegerOrZero. rewrite trunc_quotient by done.
    fold F. rewrite Z.mod_small by lia. lia. }
  rewrite HF. unfold AudioContext.createBuffer. rewrite Hsup.
  eexists. split; [reflexivity|].
  set (g := fun (channel : nat) (channelData : list JS.number) =>
         foldl (fun channelData i =>
                  <[i := JS.div (JS.load (int16_view data) (i * numChannels + channel))
                           (JS.Fin 32768)]> channelData)
           channelData
           (seq 0 (JS.rounds (JS.Fin (inject_Z (Z.of_nat (length data / 2))
                                     / inject_Z (Z.of_nat numChannels)))))).
  pose proof (per_channel_shape g numChannels
                (AudioBuffer.zeros numChannels F sampleRate)) as (Hs & Hl & Hn).
  pose proof (per_channel_lookup g numChannels
                (AudioBuffer.zeros numChannels F sampleRate)) as Hlk.
  subst g. cbv beta in Hs, Hl, Hn, Hlk.
  split; [exact Hs|]. split.
  { rewrite Hn. unfold AudioBuffer.numberOfChannels, AudioBuffer.zeros.
    cbn [AudioBuffer.channelData]. by rewrite length_replicate. }
  split; [exact Hl|].
  intros ch Hch. rewrite Hlk. rewrite decide_True by done.
  unfold AudioBuffer.zeros. cbn [AudioBuffer.channelData].
  rewrite lookup_replicate_2 by done. cbn [fmap option_fmap option_map].
  eexists. split; [reflexivity|]. split.
  { by rewrite fill_length, length_replicate. }
  intros i Hi.
  assert (Hk : (2 * (i * numChannels + ch) + 1 < length data)%nat).
  { subst F.
    pose proof (Nat.div_mod_eq (length data) 2) as E1.
    pose proof (Nat.div_mod_eq (length data / 2) numChannels) as E2.
    pose proof (Nat.mod_upper_bound (length data / 2) numChannels ltac:(lia)).
    nia. }
  destruct (int16_view_lookup data _ Hk) as (lo & hi & Hlo & Hhi & Hv).
  exists lo, hi. split; [done|]. split; [done|].
  rewrite fill_lookup. rewrite length_replicate.
  rewrite decide_True.
  - unfold JS.load. rewrite Hv. reflexivity.
  - split; [|done]. unfold JS.rounds.
    pose proof (ceiling_quotient (length data / 2) numChannels Hnc). fold F in H. lia.
Qed.

Lemma decodeAudioData_unsupported (data : list byte) (ctx : AudioContext.t)
    (sampleRate : Q) (numChannels : nat) :
  Nat.even (length data) = true ->
  (0 < numChannels)%nat ->
  Z.of_nat (Spec.frames_of data numChannels) < 2 ^ 32 ->
  AudioContext.supports ctx numChannels (Spec.frames_of data numChannels) sampleRate
  = false ->
  decodeAudioData data ctx sampleRate numChannels = JS.Throw JS.NotSupportedError.
Proof.
  intros Heven Hnc Hfit Hsup. unfold Spec.frames_of in *.
  unfold decodeAudioData, Int16Array_of_buffer. rewrite Heven.
  cbn [mbind JS.result_bind]. rewrite int16_view_length.
  rewrite div_of_nat by done.
  unfold JS.ToUint32, JS.ToIntegerOrZero. rewrite trunc_quotient by done.
  rewrite Z.mod_small by lia. rewrite Nat2Z.id.
  unfold AudioContext.createBuffer. by rewrite Hsup.
Qed.

(** A channel written back unchanged leaves the buffer as it was. *)
Lemma setChannelData_same (b : AudioBuffer.t) (channel : nat) :
  AudioBuffer.setChannelData b channel (AudioBuffer.getChannelData b channel) = b.
Proof.
  destruct b as [sr len cs].
  unfold AudioBuffer.setChannelData, AudioBuffer.getChannelData.
  cbn [AudioBuffer.sampleRate AudioBuffer.length AudioBuffer.channelData].
  f_equal. destruct (cs !! channel) as [c|] eqn:Ec.
  - by apply list_insert_id.
  - apply list_insert_ge. by apply lookup_ge_None.
Qed.

Lemma rounds_zero (numChannels : nat) :
  JS.rounds (JS.div (JS.of_nat 0) (JS.of_nat numChannels)) = 0%nat
  /\ JS.ToUint32 (JS.div (JS.of_nat 0) (JS.of_nat numChannels)) = 0.
Proof.
  destruct numChannels as [|n]; [done|].
  rewrite div_of_nat by lia. unfold JS.rounds, JS.ToUint32, JS.ToIntegerOrZero.
  rewrite trunc_quotient by lia. split; [|done].
  unfold Qceiling, Qfloor, Qdiv, Qmult, Qinv, Qopp.
  cbn [Qnum Qden inject_Z]. change (Z.of_nat 0) with 0.
  rewrite Z.mul_0_l. done.
Qed.

(** C7 (as amended): on an empty byte sequence the decoder computes a frame
    count of zero, stores no sample and returns what the context's
    [createBuffer] gives for zero frames: a buffer of [numChannels] empty
    channels when the context grants one, its [NotSupportedError]
    otherwise. *)
Theorem decodeAudioData_empty (ctx : AudioContext.t) (sampleRate : Q)
    (numChannels : nat) :
  decodeAudioData [] ctx sampleRate numChannels
  = if AudioContext.supports ctx numChannels 0 sampleRate
    then JS.Ok (AudioBuffer.mk sampleRate 0 (replicate numChannels []))
    else JS.Throw JS.NotSupportedError.
Proof.
  unfold decodeAudioData, Int16Array_of_buffer.
  cbn [length Nat.even int16_view mbind JS.result_bind].
  destruct (rounds_zero numChannels) as [-> ->].
  change (Z.to_nat 0) with 0%nat. cbn [seq].
  unfold AudioContext.createBuffer.
  destruct (AudioContext.supports ctx numChannels 0 sampleRate);
    cbn [mbind JS.result_bind foldl]; [|done].
  f_equal.
  assert (Hid : forall n b,
             foldl (fun buffer channel =>
                      AudioBuffer.setChannelData buffer channel
                        (AudioBuffer.getChannelData buffer channel))
               b (seq 0 n) = b).
  { induction n as [|n IH]; intros b; [done|].
    rewrite seq_S, foldl_app. cbn [foldl Nat.add].
    rewrite IH. apply setChannelData_same. }
  by rewrite Hid.
Qed.

(** C7, the claim as written fails on a context of the Web Audio standard:
    a buffer of zero frames is outside its nominal range. *)
Lemma decodeAudioData_empty_webAudio :
  decodeAudioData [] AudioContext.webAudio 24000 1 = JS.Throw JS.NotSupportedError.
Proof. reflexivity. Qed.

(** An array that spans its buffer holds the buffer's bytes. *)
Lemma spans_bytes (data : Uint8Array.t) :
  Uint8Array.spans data -> Uint8Array.bytes data = Uint8Array.buffer data.
Proof.
  intros [Hoffset Hlength]. unfold Uint8Array.bytes.
  rewrite Hoffset, Hlength. cbn [drop]. apply firstn_all.
Qed.

(** C1 (as amended): for an array that spans its buffer, as the one
    [decodeBase64] returns does: an odd number of bytes is rejected with
    [RangeError] by the 16-bit view.  For an even number, a positive channel
    count and a context that grants the buffer, the result has
    [floor (byteLength / 2 / numChannels)] samples per channel, sample [i] of
    channel [ch] being the signed little-endian 16-bit value at index
    [i * numChannels + ch] divided by [32768]; the 16-bit values after the
    last whole frame are dropped without an error. *)
Theorem decodeAudioData_frames (data : Uint8Array.t) (ctx : AudioContext.t)
    (sampleRate : Q) (numChannels : nat) :
  Uint8Array.spans data ->
  let bytes := Uint8Array.bytes data in
  (Nat.even (length bytes) = false ->
   Decoder.decodeAudioData data ctx sampleRate numChannels = JS.Throw JS.RangeError)
  /\ (Nat.even (length bytes) = true ->
      (0 < numChannels)%nat ->
      Z.of_nat (Spec.frames_of bytes numChannels) < 2 ^ 32 ->
      AudioContext.supports ctx numChannels (Spec.frames_of bytes numChannels) sampleRate
      = true ->
      exists b,
        Decoder.decodeAudioData data ctx sampleRate numChannels = JS.Ok b
        /\ AudioBuffer.sampleRate b = sampleRate
        /\ AudioBuffer.numberOfChannels b = numChannels
        /\ AudioBuffer.length b = Spec.frames_of bytes numChannels
        /\ forall ch, (ch < numChannels)%nat ->
           exists c,
             AudioBuffer.channelData b !! ch = Some c
             /\ length c = Spec.frames_of bytes numChannels
             /\ forall i, (i < Spec.frames_of bytes numChannels)%nat ->
                exists lo hi,
                  bytes !! (2 * (i * numChannels + ch))%nat = Some lo
                  /\ bytes !! (2 * (i * numChannels + ch) + 1)%nat = Some hi
                  /\ c !! i = Some (JS.Fin (inject_Z (int16_le lo hi) / 32768))).
Proof.
  intros Hspans bytes. subst bytes. rewrite (spans_bytes data Hspans).
  unfold Decoder.decodeAudioData. split.
  - apply decodeAudioData_odd.
  - apply decodeAudioData_even.
Qed.

(** Three 16-bit values for two channels: one whole frame, the third value
    is dropped. *)
Lemma decodeAudioData_frames_witness :
  exists b,
    Decoder.decodeAudioData (Uint8Array.of_bytes [x01; x00; xff; xff; x00; x80])
      AudioContext.webAudio 24000 2 = JS.Ok b
    /\ AudioBuffer.length b = 1%nat
    /\ AudioBuffer.channelData b
       = [[JS.Fin (1 # 32768)]; [JS.Fin (-1 # 32768)]].
Proof.
  destruct (proj2 (decodeAudioData_frames
                     (Uint8Array.of_bytes [x01; x00; xff; xff; x00; x80])
                     AudioContext.webAudio 24000 2 (conj eq_refl eq_refl)))
    as (b & Hb & _ & _ & Hlen & _).
  - reflexivity.
  - apply Nat.lt_0_succ.
  - reflexivity.
  - reflexivity.
  - exists b. split; [exact Hb|]. split; [exact Hlen|].
    injection Hb as <-. reflexivity.
Defined.

(** Without the hypothesis: an array of the first three bytes of a buffer
    of four is decoded as the four bytes, two samples and no error. *)
Lemma decodeAudioData_window :
  let data := Uint8Array.mk [x01; x00; x02; x00] 0 3 in
  Uint8Array.bytes data = [x01; x00; x02]
  /\ Decoder.decodeAudioData data AudioContext.webAudio 24000 1
     = JS.Ok (AudioBuffer.mk 24000 2 [[JS.Fin (1 # 32768); JS.Fin (2 # 32768)]]).
Proof. split; reflexivity. Qed.

(** C1, the claim as written fails on three bytes: no buffer of one sample
    comes back, the view of the bytes as 16-bit integers is refused. *)
Lemma decodeAudioData_three_bytes :
  decodeAudioData [x01; x00; x02] AudioContext.webAudio 24000 1 = JS.Throw JS.RangeError.
Proof. reflexivity. Qed.

(** ** Bytes and 16-bit integers *)

Lemma Z_of_byte_of_Z (z : Z) : JS.Z_of_byte (JS.byte_of_Z z) = z mod 256.
Proof.
  unfold JS.Z_of_byte, JS.byte_of_Z.
  pose proof (Z.mod_pos_bound z 256 ltac:(lia)) as Hz.
  destruct (Byte.of_N (Z.to_N (z mod 256))) as [b|] eqn:Eb.
  - apply Byte.to_of_N in Eb. rewrite Eb. lia.
  - apply Byte.of_N_None_iff in Eb. lia.
Qed.

Lemma Z_of_byte_range (b : byte) : 0 <= JS.Z_of_byte b < 256.
Proof.
  unfold JS.Z_of_byte. pose proof (Byte.to_N_bounded b). lia.
Qed.

Lemma int16_le_bytes (v : Z) :
  int16_le (JS.byte_of_Z v) (JS.byte_of_Z (v / 2 ^ 8)) = JS.signed16 v.
Proof.
  unfold int16_le. rewrite !Z_of_byte_of_Z. unfold JS.signed16.
  replace ((v mod 256 + 256 * ((v / 2 ^ 8) mod 256)) mod 2 ^ 16) with (v mod 2 ^ 16);
    [done|].
  change (2 ^ 8) with 256. change (2 ^ 16) with 65536.
  Z.to_euclidean_division_equations. lia.
Qed.

Lemma signed16_small (v : Z) : -32768 <= v <= 32767 -> JS.signed16 v = v.
Proof.
  intros Hv. unfold JS.signed16. change (2 ^ 16) with 65536. change (2 ^ 15) with 32768.
  destruct (Z.ltb_spec (v mod 65536) 32768);
    Z.to_euclidean_division_equations; lia.
Qed.

Lemma signed16_range (v : Z) : -32768 <= JS.signed16 v <= 32767.
Proof.
  unfold JS.signed16. change (2 ^ 16) with 65536. change (2 ^ 15) with 32768.
  destruct (Z.ltb_spec (v mod 65536) 32768);
    Z.to_euclidean_division_equations; lia.
Qed.

Lemma int16_bytes_length (data : list Z) :
  length (int16_bytes data) = (2 * length data)%nat.
Proof.
  induction data as [|v data IH]; [done|].
  cbn [int16_bytes flat_map app length] in *. unfold int16_bytes in IH. lia.
Qed.

Lemma int16_bytes_lookup (data : list Z) (k : nat) (v : Z) :
  data !! k = Some v ->
  int16_bytes data !! (2 * k)%nat = Some (JS.byte_of_Z v)
  /\ int16_bytes data !! (2 * k + 1)%nat = Some (JS.byte_of_Z (v / 2 ^ 8)).
Proof.
  revert k. induction data as [|x data IH]; intros k Hk; [done|].
  destruct k as [|k].
  - injection Hk as ->. done.
  - replace (2 * S k)%nat with (S (S (2 * k))) by lia.
    cbn [int16_bytes flat_map app Nat.add]. apply (IH k Hk).
Qed.

Lemma int16_view_bytes (data : list Z) :
  int16_view (int16_bytes data) = map JS.signed16 data.
Proof.
  induction data as [|v data IH]; [done|].
  cbn [int16_bytes flat_map app int16_view map].
  rewrite int16_le_bytes. f_equal. exact IH.
Qed.

(** ** Truncation *)

Lemma trunc_between (q : Q) (a b : Z) :
  (inject_Z a <= q)%Q -> (q <= inject_Z b)%Q -> a <= JS.trunc q <= b.
Proof.
  destruct q as [n d]. unfold Qle, JS.trunc. cbn [Qnum Qden inject_Z].
  intros Ha Hb. Z.to_euclidean_division_equations. nia.
Qed.

(** ** The WAV encoder: samples *)

Lemma clamp_range (q : Q) : (-1 <= Spec.clamp q <= 1)%Q.
Proof.
  unfold Spec.clamp. split.
  - apply Q.le_max_l.
  - apply Q.max_lub; [done|]. apply Q.le_min_l.
Qed.

Lemma scale_range (c : Q) :
  (-1 <= c <= 1)%Q -> (inject_Z (-32768) <= Spec.scale c <= inject_Z 32767)%Q.
Proof.
  intros [Hlo Hhi]. unfold Spec.scale.
  change (inject_Z (-32768)) with (-32768)%Q. change (inject_Z 32767) with 32767%Q.
  destruct (Qlt_le_dec c 0); lra.
Qed.

Lemma encode_range (q : Q) : -32768 <= Spec.encode q <= 32767.
Proof.
  unfold Spec.encode. apply trunc_between; apply scale_range, clamp_range.
Qed.

Lemma encode_number_range (s : JS.number) : -32768 <= Spec.encode_number s <= 32767.
Proof.
  destruct s as [| | |q]; cbn [Spec.encode_number]; try lia. apply encode_range.
Qed.

(** The clip and the scaling of the inner loop compute the specified
    quantisation. *)
Lemma clip_and_scale_encode (s : JS.number) :
  JS.ToInt16 (clip_and_scale s) = Spec.encode_number s.
Proof.
  destruct s as [| | |q]; [reflexivity | reflexivity | reflexivity |].
  cbn [Spec.encode_number].
  rewrite <- (signed16_small (Spec.encode q)) by apply encode_range.
  unfold JS.ToInt16, JS.ToIntegerOrZero, Spec.encode. f_equal.
  assert (Hclip : JS.Math_max (JS.of_Z (-1)) (JS.Math_min (JS.of_Z 1) (JS.Fin q))
                  = JS.Fin (Spec.clamp q)).
  { unfold Spec.clamp, Qmax, Qmin, GenericMinMax.gmax, GenericMinMax.gmin.
    unfold JS.Math_min, JS.of_Z, JS.lt.
    change (inject_Z 1) with 1%Q. change (inject_Z (-1)) with (-1)%Q.
    rewrite <- (Qcompare_antisym q 1).
    destruct (q ?= 1)%Q; cbn [CompOpp JS.Math_max JS.lt];
      match goal with |- context [(?a ?= ?b)%Q] => destruct (a ?= b)%Q end; done. }
  unfold clip_and_scale. rewrite Hclip. unfold Spec.scale, JS.lt, JS.of_Z.
  change (inject_Z 0) with 0%Q.
  destruct (Qlt_le_dec (Spec.clamp q) 0) as [Hneg|Hpos];
    destruct (Spec.clamp q ?= 0)%Q eqn:Ec; try reflexivity.
  - apply Qeq_alt in Ec. lra.
  - apply Qgt_alt in Ec. lra.
  - apply Qlt_alt in Ec. lra.
Qed.

Lemma interleave_size (b : AudioBuffer.t) :
  length (interleave b)
  = (AudioBuffer.length b * AudioBuffer.numberOfChannels b)%nat.
Proof.
  unfold interleave.
  rewrite (interleave_length
             (fun i ch => JS.ToInt16 (clip_and_scale
                (JS.loadf (default [] ((AudioBuffer.getChannelData b <$>
                   seq 0 (AudioBuffer.numberOfChannels b)) !! ch)) i)))).
  apply length_replicate.
Qed.

Lemma interleave_sample (b : AudioBuffer.t) (ch i : nat) (c : list JS.number)
    (s : JS.number) :
  AudioBuffer.channelData b !! ch = Some c ->
  c !! i = Some s ->
  (i < AudioBuffer.length b)%nat ->
  interleave b !! (i * AudioBuffer.numberOfChannels b + ch)%nat
  = Some (Spec.encode_number s).
Proof.
  intros Hc Hs Hi.
  assert (Hch : (ch < AudioBuffer.numberOfChannels b)%nat)
    by (by apply lookup_lt_Some in Hc).
  unfold interleave.
  rewrite (interleave_lookup
             (fun i ch => JS.ToInt16 (clip_and_scale
                (JS.loadf (default [] ((AudioBuffer.getChannelData b <$>
                   seq 0 (AudioBuffer.numberOfChannels b)) !! ch)) i))));
    [| done | done | rewrite length_replicate; nia].
  f_equal. rewrite <- clip_and_scale_encode. do 2 f_equal.
  rewrite list_lookup_fmap, lookup_seq_lt by done. cbn [fmap option_fmap option_map default].
  unfold AudioBuffer.getChannelData, JS.loadf. cbn [Nat.add].
  rewrite Hc. unfold id. by rewrite Hs.
Qed.

Lemma wav_header_length (numChannels : nat) (sampleRate format bitDepth : JS.number)
    (byteLength : nat) :
  length (wav_header numChannels sampleRate format bitDepth byteLength) = 44%nat.
Proof. reflexivity. Qed.

(** C3: in the WAV the encoder writes, the sample [i] of channel [ch] is the
    signed 16-bit little-endian integer at byte [44 + 2 * (i * numChannels +
    ch)], and it is the sample clamped to [[-1, 1]], multiplied by 32768 when
    negative and by 32767 otherwise, with the fraction dropped; the value
    lies in the 16-bit range, so the store does not wrap. *)
Theorem audioBufferToWav_sample (b : AudioBuffer.t) (ch i : nat)
    (c : list JS.number) (s : JS.number) :
  AudioBuffer.channelData b !! ch = Some c ->
  c !! i = Some s ->
  (i < AudioBuffer.length b)%nat ->
  exists lo hi,
    blob_bytes (audioBufferToWav b)
      !! (44 + 2 * (i * AudioBuffer.numberOfChannels b + ch))%nat = Some lo
    /\ blob_bytes (audioBufferToWav b)
         !! (44 + 2 * (i * AudioBuffer.numberOfChannels b + ch) + 1)%nat = Some hi
    /\ int16_le lo hi = Spec.encode_number s
    /\ -32768 <= Spec.encode_number s <= 32767.
Proof.
  intros Hc Hs Hi.
  pose proof (interleave_sample b ch i c s Hc Hs Hi) as Hk.
  destruct (int16_bytes_lookup _ _ _ Hk) as [Hlo Hhi].
  exists (JS.byte_of_Z (Spec.encode_number s)),
         (JS.byte_of_Z (Spec.encode_number s / 2 ^ 8)).
  unfold audioBufferToWav. cbn [blob_bytes].
  split; [|split; [|split]].
  - rewrite lookup_app_r by (rewrite wav_header_length; lia).
    rewrite wav_header_length.
    replace (44 + 2 * (i * AudioBuffer.numberOfChannels b + ch) - 44)%nat
      with (2 * (i * AudioBuffer.numberOfChannels b + ch))%nat by lia.
    exact Hlo.
  - rewrite lookup_app_r by (rewrite wav_header_length; lia).
    rewrite wav_header_length.
    replace (44 + 2 * (i * AudioBuffer.numberOfChannels b + ch) + 1 - 44)%nat
      with (2 * (i * AudioBuffer.numberOfChannels b + ch) + 1)%nat by lia.
    exact Hhi.
  - rewrite int16_le_bytes. apply signed16_small, encode_number_range.
  - apply encode_number_range.
Qed.

(** A stereo buffer: the second sample of the right channel is [-1/2],
    stored as [-16384] at bytes 50 and 51. *)
Lemma audioBufferToWav_sample_witness :
  exists lo hi,
    blob_bytes (audioBufferToWav
      (AudioBuffer.mk 24000 2 [[JS.Fin (1 # 4); JS.Fin 1]; [JS.Fin 2; JS.Fin (-1 # 2)]]))
      !! 50%nat = Some lo
    /\ blob_bytes (audioBufferToWav
      (AudioBuffer.mk 24000 2 [[JS.Fin (1 # 4); JS.Fin 1]; [JS.Fin 2; JS.Fin (-1 # 2)]]))
      !! 51%nat = Some hi
    /\ int16_le lo hi = -16384.
Proof.
  destruct (audioBufferToWav_sample
              (AudioBuffer.mk 24000 2 [[JS.Fin (1 # 4); JS.Fin 1]; [JS.Fin 2; JS.Fin (-1 # 2)]])
              1 1 [JS.Fin 2; JS.Fin (-1 # 2)] (JS.Fin (-1 # 2)))
    as (lo & hi & Hlo & Hhi & Hv & _).
  - reflexivity.
  - reflexivity.
  - apply Nat.lt_succ_diag_r.
  - exists lo, hi. split; [exact Hlo|]. split; [exact Hhi|]. exact Hv.
Defined.

(** ** The WAV encoder: header *)

(** The header, byte by byte. *)
Lemma wav_header_bytes (numChannels : nat) (sampleRate format bitDepth : JS.number)
    (byteLength : nat) :
  let riff := JS.ToUint32 (JS.of_Z (36 + Z.of_nat byteLength)) in
  let channels := JS.ToUint16 (JS.of_nat numChannels) in
  let rate := JS.ToUint32 sampleRate in
  let byteRate := JS.ToUint32 (JS.mul (JS.mul sampleRate (JS.of_nat numChannels))
                                 (JS.div bitDepth (JS.of_Z 8))) in
  let align := JS.ToUint16 (JS.mul (JS.of_nat numChannels) (JS.div bitDepth (JS.of_Z 8))) in
  let size := JS.ToUint32 (JS.of_nat byteLength) in
  let b := JS.byte_of_Z in
  wav_header numChannels sampleRate format bitDepth byteLength
  = [ "R"; "I"; "F"; "F";
      b riff; b (riff / 2 ^ 8); b (riff / 2 ^ 16); b (riff / 2 ^ 24);
      "W"; "A"; "V"; "E";
      "f"; "m"; "t"; " ";
      x10; x00; x00; x00;
      b (JS.ToUint16 format); b (JS.ToUint16 format / 2 ^ 8);
      b channels; b (channels / 2 ^ 8);
      b rate; b (rate / 2 ^ 8); b (rate / 2 ^ 16); b (rate / 2 ^ 24);
      b byteRate; b (byteRate / 2 ^ 8); b (byteRate / 2 ^ 16); b (byteRate / 2 ^ 24);
      b align; b (align / 2 ^ 8);
      b (JS.ToUint16 bitDepth); b (JS.ToUint16 bitDepth / 2 ^ 8);
      "d"; "a"; "t"; "a";
      b size; b (size / 2 ^ 8); b (size / 2 ^ 16); b (size / 2 ^ 24) ]%byte.
Proof. reflexivity. Qed.

Lemma le16_bytes (v : Z) :
  0 <= v < 2 ^ 16 ->
  JS.Z_of_byte (JS.byte_of_Z v) + 2 ^ 8 * JS.Z_of_byte (JS.byte_of_Z (v / 2 ^ 8)) = v.
Proof.
  intros Hv. rewrite !Z_of_byte_of_Z.
  change (2 ^ 8) with 256. change (2 ^ 16) with 65536 in Hv.
  Z.to_euclidean_division_equations. lia.
Qed.

Lemma le32_bytes (v : Z) :
  0 <= v < 2 ^ 32 ->
  JS.Z_of_byte (JS.byte_of_Z v) + 2 ^ 8 * JS.Z_of_byte (JS.byte_of_Z (v / 2 ^ 8))
  + 2 ^ 16 * JS.Z_of_byte (JS.byte_of_Z (v / 2 ^ 16))
  + 2 ^ 24 * JS.Z_of_byte (JS.byte_of_Z (v / 2 ^ 24)) = v.
Proof.
  intros Hv. rewrite !Z_of_byte_of_Z.
  change (2 ^ 8) with 256. change (2 ^ 16) with 65536.
  change (2 ^ 24) with 16777216. change (2 ^ 32) with 4294967296 in Hv.
  Z.to_euclidean_division_equations. lia.
Qed.

(** A number that is the integer [z] converts to [z]. *)
Lemma trunc_integer (q : Q) (z : Z) : (q == inject_Z z)%Q -> JS.trunc q = z.
Proof.
  intros Hq. enough (z <= JS.trunc q <= z) by lia.
  apply trunc_between; rewrite Hq; apply Qle_refl.
Qed.

Lemma ToUint32_integer (q : Q) (z : Z) :
  (q == inject_Z z)%Q -> 0 <= z < 2 ^ 32 -> JS.ToUint32 (JS.Fin q) = z.
Proof.
  intros Hq Hz. unfold JS.ToUint32, JS.ToIntegerOrZero.
  rewrite (trunc_integer q z Hq). by apply Z.mod_small.
Qed.

Lemma ToUint16_integer (q : Q) (z : Z) :
  (q == inject_Z z)%Q -> 0 <= z < 2 ^ 16 -> JS.ToUint16 (JS.Fin q) = z.
Proof.
  intros Hq Hz. unfold JS.ToUint16, JS.ToIntegerOrZero.
  rewrite (trunc_integer q z Hq). by apply Z.mod_small.
Qed.

Lemma ToUint32_range (x : JS.number) : 0 <= JS.ToUint32 x < 2 ^ 32.
Proof. unfold JS.ToUint32. by apply Z.mod_pos_bound. Qed.

Lemma ToUint16_range (x : JS.number) : 0 <= JS.ToUint16 x < 2 ^ 16.
Proof. unfold JS.ToUint16. by apply Z.mod_pos_bound. Qed.

(** C2 (as amended): for every buffer the encoder's output starts with 44
    header bytes carrying the four chunk identifiers at bytes 0, 8, 12 and
    36, the format chunk size 16, the format 1 and 16 bits per sample, all
    little-endian; the rate field holds the sample rate and the byte rate
    field [sampleRate * channels * 2], each cut to an unsigned 32-bit
    integer.  The RIFF size and the data size are the lengths of what
    follows them when that fits 32 bits; the channel count and the block
    align [channels * 2] are exact when they fit 16 bits; and the two rate
    fields are exact when the sample rate is a whole number [hz] of hertz
    and the byte rate fits 32 bits. *)
Theorem audioBufferToWav_header (b : AudioBuffer.t) (hz : Z) :
  let w := blob_bytes (audioBufferToWav b) in
  let n := Z.of_nat (AudioBuffer.numberOfChannels b) in
  let rate := JS.Fin (AudioBuffer.sampleRate b) in
  (length w = (44 + 2 * (AudioBuffer.length b * AudioBuffer.numberOfChannels b))%nat
   /\ Spec.tag_at w 0 = ["R"; "I"; "F"; "F"]%byte
   /\ Spec.tag_at w 8 = ["W"; "A"; "V"; "E"]%byte
   /\ Spec.tag_at w 12 = ["f"; "m"; "t"; " "]%byte
   /\ Spec.tag_at w 36 = ["d"; "a"; "t"; "a"]%byte
   /\ Spec.u32_at w 16 = 16
   /\ Spec.u16_at w 20 = 1
   /\ Spec.u16_at w 34 = 16
   /\ Spec.u32_at w 24 = JS.ToUint32 rate
   /\ Spec.u32_at w 28
      = JS.ToUint32 (JS.mul (JS.mul rate (JS.of_nat (AudioBuffer.numberOfChannels b)))
                       (JS.div (JS.of_Z 16) (JS.of_Z 8))))
  /\ (36 + 2 * (Z.of_nat (AudioBuffer.length b) * n) < 2 ^ 32 ->
      Spec.u32_at w 4 = Z.of_nat (length w) - 8
      /\ Spec.u32_at w 40 = Z.of_nat (length w) - 44)
  /\ (n * 2 < 2 ^ 16 ->
      Spec.u16_at w 22 = n /\ Spec.u16_at w 32 = n * 2)
  /\ ((AudioBuffer.sampleRate b == inject_Z hz)%Q ->
      0 <= hz < 2 ^ 32 ->
      hz * n * 2 < 2 ^ 32 ->
      Spec.u32_at w 24 = hz /\ Spec.u32_at w 28 = hz * n * 2).
Proof.
  cbv zeta.
  set (n := Z.of_nat (AudioBuffer.numberOfChannels b)) in *.
  assert (Hlen : length (blob_bytes (audioBufferToWav b))
                 = (44 + 2 * (AudioBuffer.length b * AudioBuffer.numberOfChannels b))%nat).
  { unfold audioBufferToWav. cbn [blob_bytes].
    by rewrite length_app, wav_header_length, int16_bytes_length, interleave_size. }
  rewrite Hlen. unfold audioBufferToWav. cbn [blob_bytes].
  rewrite wav_header_bytes. cbv zeta. rewrite interleave_size.
  set (bytes := (2 * (AudioBuffer.length b * AudioBuffer.numberOfChannels b))%nat).
  assert (Hbytes : Z.of_nat bytes = 2 * (Z.of_nat (AudioBuffer.length b) * n))
    by (subst bytes n; lia).
  assert (Hn : 0 <= n) by (subst n; lia).
  assert (E4 : 36 + 2 * (Z.of_nat (AudioBuffer.length b) * n) < 2 ^ 32 ->
               JS.ToUint32 (JS.of_Z (36 + Z.of_nat bytes)) = 36 + Z.of_nat bytes)
    by (intros; apply ToUint32_integer; [reflexivity | lia]).
  assert (E40 : 36 + 2 * (Z.of_nat (AudioBuffer.length b) * n) < 2 ^ 32 ->
                JS.ToUint32 (JS.of_nat bytes) = Z.of_nat bytes)
    by (intros; apply ToUint32_integer; [reflexivity | lia]).
  assert (E22 : n * 2 < 2 ^ 16 ->
                JS.ToUint16 (JS.of_nat (AudioBuffer.numberOfChannels b)) = n)
    by (intros; apply ToUint16_integer; [reflexivity | lia]).
  assert (E32 : n * 2 < 2 ^ 16 ->
                JS.ToUint16 (JS.mul (JS.of_nat (AudioBuffer.numberOfChannels b))
                               (JS.div (JS.of_Z 16) (JS.of_Z 8))) = n * 2).
  { intros. apply ToUint16_integer; [|lia]. fold n.
    assert (Hdiv : (inject_Z 16 / inject_Z 8 == inject_Z 2)%Q) by reflexivity.
    rewrite Hdiv, <- !inject_Z_mult. reflexivity. }
  assert (E24 : (AudioBuffer.sampleRate b == inject_Z hz)%Q -> 0 <= hz < 2 ^ 32 ->
                JS.ToUint32 (JS.Fin (AudioBuffer.sampleRate b)) = hz)
    by (intros; by apply ToUint32_integer).
  assert (E28 : (AudioBuffer.sampleRate b == inject_Z hz)%Q -> 0 <= hz < 2 ^ 32 ->
                hz * n * 2 < 2 ^ 32 ->
                JS.ToUint32
                  (JS.mul (JS.mul (JS.Fin (AudioBuffer.sampleRate b))
                             (JS.of_nat (AudioBuffer.numberOfChannels b)))
                     (JS.div (JS.of_Z 16) (JS.of_Z 8))) = hz * n * 2).
  { intros Hsr Hhz Hrate. apply ToUint32_integer; [|nia]. rewrite Hsr. fold n.
    assert (Hdiv : (inject_Z 16 / inject_Z 8 == inject_Z 2)%Q) by reflexivity.
    rewrite Hdiv, <- !inject_Z_mult. reflexivity. }
  pose proof (ToUint32_range (JS.of_Z (36 + Z.of_nat bytes))) as R4.
  pose proof (ToUint32_range (JS.of_nat bytes)) as R40.
  pose proof (ToUint16_range (JS.of_nat (AudioBuffer.numberOfChannels b))) as R22.
  pose proof (ToUint16_range (JS.mul (JS.of_nat (AudioBuffer.numberOfChannels b))
                                (JS.div (JS.of_Z 16) (JS.of_Z 8)))) as R32.
  pose proof (ToUint32_range (JS.Fin (AudioBuffer.sampleRate b))) as R24.
  pose proof (ToUint32_range
                (JS.mul (JS.mul (JS.Fin (AudioBuffer.sampleRate b))
                           (JS.of_nat (AudioBuffer.numberOfChannels b)))
                   (JS.div (JS.of_Z 16) (JS.of_Z 8)))) as R28.
  set (riff := JS.ToUint32 (JS.of_Z (36 + Z.of_nat bytes))) in *.
  set (size := JS.ToUint32 (JS.of_nat bytes)) in *.
  set (channels := JS.ToUint16 (JS.of_nat (AudioBuffer.numberOfChannels b))) in *.
  set (align := JS.ToUint16 (JS.mul (JS.of_nat (AudioBuffer.numberOfChannels b))
                               (JS.div (JS.of_Z 16) (JS.of_Z 8)))) in *.
  set (rate := JS.ToUint32 (JS.Fin (AudioBuffer.sampleRate b))) in *.
  set (byteRate := JS.ToUint32
                     (JS.mul (JS.mul (JS.Fin (AudioBuffer.sampleRate b))
                                (JS.of_nat (AudioBuffer.numberOfChannels b)))
                        (JS.div (JS.of_Z 16) (JS.of_Z 8)))) in *.
  change (JS.ToUint16 (JS.of_Z 1)) with 1. change (JS.ToUint16 (JS.of_Z 16)) with 16.
  set (total := (44 + bytes)%nat).
  assert (Htotal : Z.of_nat total = 44 + Z.of_nat bytes) by (subst total; lia).
  clearbody total bytes riff size channels align rate byteRate.
  unfold Spec.tag_at, Spec.u32_at, Spec.u16_at, Spec.byte_at.
  cbn [lookup list_lookup app drop take default Nat.add]. unfold id.
  rewrite !le32_bytes, !le16_bytes by (assumption || done).
  split_and!; try reflexivity.
  - intros Hfit. specialize (E4 Hfit). specialize (E40 Hfit). lia.
  - intros Hfit. by rewrite (E22 Hfit), (E32 Hfit).
  - intros Hsr Hhz Hfit. by rewrite (E24 Hsr Hhz), (E28 Hsr Hhz Hfit).
Qed.

(** The buffers the application encodes are the ones it has decoded, mono
    at 24 kHz: they fit the header. *)
Lemma decoded_buffer_fits (data : list byte) (ctx : AudioContext.t) (b : AudioBuffer.t) :
  Z.of_nat (length data) < 2 ^ 32 - 36 ->
  decodeAudioData data ctx 24000 1 = JS.Ok b ->
  Spec.header_fits b 24000.
Proof.
  intros Hsize Hb.
  assert (Hframes : (Spec.frames_of data 1 <= length data)%nat).
  { unfold Spec.frames_of. rewrite Nat.div_1_r. apply Nat.Div0.div_le_upper_bound. lia. }
  destruct (Nat.even (length data)) eqn:Heven;
    [| by rewrite decodeAudioData_odd in Hb].
  destruct (AudioContext.supports ctx 1 (Spec.frames_of data 1) 24000) eqn:Hsup;
    [| rewrite decodeAudioData_unsupported in Hb; [done | done | lia | lia | done] ].
  destruct (decodeAudioData_even data ctx 24000 1) as (b' & Hb' & Hsr & Hn & Hlen & _);
    [done | lia | lia | done |].
  rewrite Hb' in Hb. injection Hb as <-.
  unfold Spec.header_fits. cbv zeta. rewrite Hsr, Hn, Hlen.
  assert (H2 : (2 * Spec.frames_of data 1 <= length data)%nat).
  { unfold Spec.frames_of. rewrite Nat.div_1_r. lia. }
  repeat split; try reflexivity; try lia.
Qed.

(** A mono buffer of two samples at 24 kHz. *)
Lemma audioBufferToWav_header_witness :
  Spec.u32_at (blob_bytes (audioBufferToWav
                 (AudioBuffer.mk 24000 2 [[JS.Fin (1 # 2); JS.Fin (-1 # 2)]]))) 28 = 48000
  /\ Spec.u32_at (blob_bytes (audioBufferToWav
                 (AudioBuffer.mk 24000 2 [[JS.Fin (1 # 2); JS.Fin (-1 # 2)]]))) 40 = 4.
Proof.
  pose proof (audioBufferToWav_header
                (AudioBuffer.mk 24000 2 [[JS.Fin (1 # 2); JS.Fin (-1 # 2)]]) 24000) as H.
  cbv zeta in H.
  destruct H as ((Hlen & _) & Hsizes & _ & Hrates).
  destruct Hsizes as [_ H40]; [reflexivity|].
  destruct Hrates as [_ H28]; [reflexivity | split; [discriminate | reflexivity]
                              | reflexivity |].
  split; [exact H28|]. rewrite H40, Hlen. reflexivity.
Defined.

(** C2, the claim as written fails on a buffer at 22050.5 Hz: the rate
    field holds 22050, which is not the sample rate, and the byte rate
    field holds 44101, which is not that rate times the block align. *)
Lemma audioBufferToWav_header_fractional :
  let b := AudioBuffer.mk (44101 # 2) 2 [[JS.Fin (1 # 2); JS.Fin (-1 # 2)]] in
  let w := blob_bytes (audioBufferToWav b) in
  Spec.u32_at w 24 = 22050
  /\ (inject_Z (Spec.u32_at w 24) < AudioBuffer.sampleRate b)%Q
  /\ Spec.u32_at w 28 = 44101
  /\ Spec.u16_at w 32 = 2.
Proof. by repeat split. Qed.

(** ** Encoding, then decoding *)

(** The integer part of a rational is within one of it, on the side of
    zero. *)
Lemma trunc_near (q : Q) :
  ((0 <= q -> inject_Z (JS.trunc q) <= q /\ q < inject_Z (JS.trunc q) + 1)
   /\ (q <= 0 -> q <= inject_Z (JS.trunc q) /\ inject_Z (JS.trunc q) - 1 < q))%Q.
Proof.
  destruct q as [n d]. unfold Qle, Qlt, Qplus, Qminus, Qopp, JS.trunc.
  cbn [Qnum Qden inject_Z Qplus Qopp]. change (Z.pos (1 * 1)) with 1.
  split; intros Hsign; Z.to_euclidean_division_equations; nia.
Qed.

Lemma clamp_inside (q : Q) : (-1 <= q <= 1)%Q -> (Spec.clamp q == q)%Q.
Proof.
  intros [Hlo Hhi]. unfold Spec.clamp.
  rewrite Q.min_r by done. by rewrite Q.max_r.
Qed.

(** The quantisation error of one sample, after the division by 32768 of
    the decoder. *)
Lemma encode_error (q : Q) :
  (-1 <= q <= 1)%Q ->
  (Qabs (inject_Z (Spec.encode q) / 32768 - q) < 2 # 32768
   /\ (q <= 0 -> Qabs (inject_Z (Spec.encode q) / 32768 - q) < 1 # 32768))%Q.
Proof.
  intros Hq. pose proof (clamp_inside q Hq) as Hc.
  unfold Spec.encode. set (c := Spec.clamp q) in *.
  destruct (trunc_near (Spec.scale c)) as [Hpos Hneg].
  set (t := inject_Z (JS.trunc (Spec.scale c))) in *.
  assert (Ht : (t / 32768 * 32768 == t)%Q) by (field; discriminate).
  set (r := (t / 32768)%Q) in *. clearbody r t.
  unfold Spec.scale in *.
  destruct (Qlt_le_dec c 0) as [Hc0|Hc0].
  - destruct Hneg as [H1 H2]; [lra|].
    split; [|intros _]; apply Qabs_Qlt_condition; split; lra.
  - destruct Hpos as [H1 H2]; [lra|].
    split; [|intros Hq0]; apply Qabs_Qlt_condition; split; lra.
Qed.

Lemma frames_of_wav_data (b : AudioBuffer.t) :
  (0 < AudioBuffer.numberOfChannels b)%nat ->
  Spec.frames_of (int16_bytes (interleave b)) (AudioBuffer.numberOfChannels b)
  = AudioBuffer.length b.
Proof.
  intros Hn. unfold Spec.frames_of. rewrite int16_bytes_length, interleave_size.
  rewrite (Nat.mul_comm 2), Nat.div_mul by lia. apply Nat.div_mul. lia.
Qed.

(** C4 (as amended): a buffer of finite samples in [[-1, 1]], encoded and
    then decoded from the bytes after the 44-byte header, comes back with
    the same shape and every sample within less than 2/32768 of the original,
    and within less than 1/32768 for the samples that are not positive. *)
Theorem wav_round_trip (b : AudioBuffer.t) (ctx : AudioContext.t) :
  AudioBuffer.wf b ->
  Spec.normalized b ->
  (0 < AudioBuffer.numberOfChannels b)%nat ->
  Z.of_nat (AudioBuffer.length b) < 2 ^ 32 ->
  AudioContext.supports ctx (AudioBuffer.numberOfChannels b) (AudioBuffer.length b)
    (AudioBuffer.sampleRate b) = true ->
  exists b',
    decodeAudioData (drop 44 (blob_bytes (audioBufferToWav b))) ctx
      (AudioBuffer.sampleRate b) (AudioBuffer.numberOfChannels b) = JS.Ok b'
    /\ AudioBuffer.numberOfChannels b' = AudioBuffer.numberOfChannels b
    /\ AudioBuffer.length b' = AudioBuffer.length b
    /\ forall ch c i s,
         AudioBuffer.channelData b !! ch = Some c ->
         c !! i = Some s ->
         exists c' q q',
           s = JS.Fin q
           /\ AudioBuffer.channelData b' !! ch = Some c'
           /\ c' !! i = Some (JS.Fin q')
           /\ (Qabs (q' - q) < 2 # 32768)%Q
           /\ ((q <= 0)%Q -> (Qabs (q' - q) < 1 # 32768)%Q).
Proof.
  intros Hwf Hnorm Hn Hlen Hsup.
  assert (Hdrop : drop 44 (blob_bytes (audioBufferToWav b)) = int16_bytes (interleave b)).
  { unfold audioBufferToWav. cbn [blob_bytes].
    apply drop_app_length'. reflexivity. }
  rewrite Hdrop.
  pose proof (frames_of_wav_data b Hn) as HF.
  destruct (decodeAudioData_even (int16_bytes (interleave b)) ctx
              (AudioBuffer.sampleRate b) (AudioBuffer.numberOfChannels b))
    as (b' & Hb' & _ & Hn' & Hl' & Hsamples).
  { rewrite int16_bytes_length. rewrite Nat.even_mul. done. }
  { done. }
  { by rewrite HF. }
  { by rewrite HF. }
  exists b'. split; [exact Hb'|]. split; [exact Hn'|]. split; [by rewrite Hl', HF|].
  intros ch c i s Hc Hs.
  assert (Hch : (ch < AudioBuffer.numberOfChannels b)%nat)
    by (by apply lookup_lt_Some in Hc).
  assert (Hi : (i < AudioBuffer.length b)%nat).
  { unfold AudioBuffer.wf in Hwf. rewrite Forall_lookup in Hwf.
    rewrite <- (Hwf ch c Hc). by apply lookup_lt_Some in Hs. }
  assert (Hq : exists q, s = JS.Fin q /\ (-1 <= q <= 1)%Q).
  { unfold Spec.normalized in Hnorm. rewrite Forall_lookup in Hnorm.
    specialize (Hnorm ch c Hc). rewrite Forall_lookup in Hnorm. exact (Hnorm i s Hs). }
  destruct Hq as (q & -> & Hq).
  destruct (Hsamples ch Hch) as (c' & Hc' & _ & Hc'i).
  destruct (Hc'i i) as (lo & hi & Hlo & Hhi & Hv); [by rewrite HF|].
  pose proof (interleave_sample b ch i c (JS.Fin q) Hc Hs Hi) as Hk.
  destruct (int16_bytes_lookup _ _ _ Hk) as [Hlo' Hhi'].
  rewrite Hlo' in Hlo. rewrite Hhi' in Hhi.
  injection Hlo as <-. injection Hhi as <-.
  rewrite int16_le_bytes in Hv. cbn [Spec.encode_number] in Hv.
  rewrite signed16_small in Hv by apply encode_range.
  exists c', q, (inject_Z (Spec.encode q) / 32768)%Q.
  split; [done|]. split; [done|]. split; [done|].
  by apply encode_error.
Qed.

(** One sample, [1/2], in a mono buffer at 24 kHz: it comes back as
    [16383/32768]. *)
Lemma wav_round_trip_witness :
  exists b',
    decodeAudioData
      (drop 44 (blob_bytes (audioBufferToWav (AudioBuffer.mk 24000 1 [[JS.Fin (1 # 2)]]))))
      AudioContext.webAudio 24000 1 = JS.Ok b'
    /\ AudioBuffer.length b' = 1%nat.
Proof.
  destruct (wav_round_trip (AudioBuffer.mk 24000 1 [[JS.Fin (1 # 2)]])
              AudioContext.webAudio)
    as (b' & Hb' & _ & Hl' & _).
  - repeat constructor.
  - repeat constructor. exists (1 # 2)%Q. repeat split; discriminate.
  - apply Nat.lt_0_succ.
  - reflexivity.
  - reflexivity.
  - exists b'. split; [exact Hb' | exact Hl'].
Defined.

(** C4, the claim as written fails on the sample [32769/65536], just above
    one half: it is stored as 16383 and comes back as [16383/32768], which
    is [3/65536] away, more than [1/32768]. *)
Lemma wav_round_trip_above_half :
  decodeAudioData
    (drop 44 (blob_bytes (audioBufferToWav
                            (AudioBuffer.mk 24000 1 [[JS.Fin (32769 # 65536)]]))))
    AudioContext.webAudio 24000 1
  = JS.Ok (AudioBuffer.mk 24000 1 [[JS.Fin (16383 # 32768)]])
  /\ (1 # 32768 < Qabs ((16383 # 32768) - (32769 # 65536)))%Q.
Proof. split; reflexivity. Qed.

(** ** The base64 decoder *)

Ltac Zify.zify_post_hook ::= Z.to_euclidean_division_equations.

(** Induction over a list three and four elements at a time. *)
Lemma list_triple_ind {A : Type} (P : list A -> Prop) :
  P [] -> (forall x, P [x]) -> (forall x y, P [x; y]) ->
  (forall x y z l, P l -> P (x :: y :: z :: l)) ->
  forall l, P l.
Proof.
  intros H0 H1 H2 H3 l.
  enough (H : P l /\ (forall x, P (x :: l)) /\ forall x y, P (x :: y :: l)) by apply H.
  induction l as [|z l (IH0 & IH1 & IH2)]; repeat split; auto.
Qed.

Lemma list_quad_ind {A : Type} (P : list A -> Prop) :
  P [] -> (forall x, P [x]) -> (forall x y, P [x; y]) -> (forall x y z, P [x; y; z]) ->
  (forall x y z t l, P l -> P (x :: y :: z :: t :: l)) ->
  forall l, P l.
Proof.
  intros H0 H1 H2 H3 H4 l.
  enough (H : P l /\ (forall x, P (x :: l)) /\ (forall x y, P (x :: y :: l))
              /\ forall x y z, P (x :: y :: z :: l)) by apply H.
  induction l as [|t l (IH0 & IH1 & IH2 & IH3)]; repeat split; auto.
Qed.

(** The copy loop of [decodeBase64] maps the code units to bytes. *)
Lemma copy_loop {A B : Type} (f : nat -> B) (x : B) (n : nat) :
  foldl (fun bytes i => <[i := f i]> bytes) (replicate n x) (seq 0 n) = f <$> seq 0 n.
Proof.
  apply list_eq. intros i. rewrite fill_lookup, length_replicate, list_lookup_fmap.
  destruct (decide (i < n)%nat) as [Hi|Hi].
  - rewrite decide_True by lia. by rewrite lookup_seq_lt.
  - rewrite decide_False by lia. rewrite lookup_seq_ge by lia.
    apply lookup_replicate_None. lia.
Qed.

Lemma ToUint8_charCodeAt (s : list N) (i : nat) (c : N) :
  s !! i = Some c -> JS.ToUint8 (JS.charCodeAt s i) = Z.of_N c mod 256.
Proof.
  intros Hc. unfold JS.charCodeAt, JS.ToUint8, JS.ToIntegerOrZero, JS.of_Z.
  rewrite Hc. by rewrite (trunc_integer _ (Z.of_N c)).
Qed.

(** [decodeBase64] is [atob] followed by the conversion of each code unit
    to a byte. *)
Lemma decodeBase64_atob (base64 : list N) :
  decodeBase64 base64
  = match Web.atob base64 with
    | JS.Ok binaryString =>
        JS.Ok ((fun c => JS.byte_of_Z (Z.of_N c mod 256)) <$> binaryString)
    | JS.Throw e => JS.Throw e
    end.
Proof.
  unfold decodeBase64. destruct (Web.atob base64) as [bin|e]; [|done].
  cbn [mbind JS.result_bind]. f_equal. rewrite (copy_loop (A := N)).
  apply list_eq. intros i. rewrite !list_lookup_fmap.
  destruct (bin !! i) as [c|] eqn:Ec.
  - rewrite lookup_seq_lt by (by apply lookup_lt_Some in Ec).
    cbn [fmap option_fmap option_map Nat.add]. by rewrite (ToUint8_charCodeAt bin i c).
  - rewrite lookup_seq_ge by (by apply lookup_ge_None in Ec). done.
Qed.

Lemma byte_of_to_N (b : byte) : JS.byte_of_Z (Z.of_N (Byte.to_N b) mod 256) = b.
Proof.
  pose proof (Byte.to_N_bounded b) as Hb. unfold JS.byte_of_Z.
  rewrite Z.mod_mod by lia. rewrite Z.mod_small by lia.
  rewrite N2Z.id. by rewrite Byte.of_to_N.
Qed.

Lemma sextet_alphabet_char (v : N) :
  (v < 64)%N -> Web.sextet (Spec.alphabet_char v) = Some v.
Proof.
  intros Hv.
  assert (H : forall n, (n < 64)%nat ->
              Web.sextet (Spec.alphabet_char (N.of_nat n)) = Some (N.of_nat n)).
  { intros n Hn. do 64 (destruct n as [|n]; [reflexivity|]). lia. }
  rewrite <- (N2Nat.id v). apply H. lia.
Qed.

Lemma sextet_range (c v : N) : Web.sextet c = Some v -> (v < 64)%N.
Proof.
  unfold Web.sextet. intros H.
  repeat match type of H with
         | (if ?t then _ else _) = _ => destruct t eqn:?
         end; try discriminate; injection H as <-; lia.
Qed.

Lemma sextet_not_equals (c : N) : is_Some (Web.sextet c) -> c <> 61%N.
Proof. intros [v Hv] ->. discriminate. Qed.

Lemma sextet_not_whitespace (c : N) :
  is_Some (Web.sextet c) -> Web.is_ascii_whitespace c = false.
Proof.
  intros [v Hv]. destruct (Web.is_ascii_whitespace c) eqn:Ews; [|done].
  unfold Web.is_ascii_whitespace in Ews.
  repeat (apply orb_prop in Ews as [Ews|Ews]);
    apply N.eqb_eq in Ews; subst c; discriminate.
Qed.

Lemma sextets_of_bytes_range (ns : list N) :
  Forall (fun n => (n < 256)%N) ns ->
  Forall (fun v => (v < 64)%N) (Spec.sextets_of_bytes ns).
Proof.
  induction ns as [|x|x y|x y z ns IH] using list_triple_ind; intros Hns;
    cbn [Spec.sextets_of_bytes].
  - constructor.
  - apply Forall_cons_1 in Hns as [Hx _].
    repeat apply Forall_cons_2; try apply Forall_nil; lia.
  - apply Forall_cons_1 in Hns as [Hx Hns]. apply Forall_cons_1 in Hns as [Hy _].
    repeat apply Forall_cons_2; try apply Forall_nil; lia.
  - apply Forall_cons_1 in Hns as [Hx Hns]. apply Forall_cons_1 in Hns as [Hy Hns].
    apply Forall_cons_1 in Hns as [Hz Hns].
    repeat apply Forall_cons_2; try (by apply IH); lia.
Qed.

(** Decoding the 6-bit values of a byte sequence gives the bytes back. *)
Lemma decode_sextets_of_bytes (ns : list N) :
  Forall (fun n => (n < 256)%N) ns ->
  Web.decode_sextets (Spec.sextets_of_bytes ns) = ns.
Proof.
  induction ns as [|x|x y|x y z ns IH] using list_triple_ind; intros Hns.
  - done.
  - apply Forall_cons_1 in Hns as [Hx _].
    cbn [Spec.sextets_of_bytes Web.decode_sextets]. f_equal. lia.
  - apply Forall_cons_1 in Hns as [Hx Hns]. apply Forall_cons_1 in Hns as [Hy _].
    cbn [Spec.sextets_of_bytes Web.decode_sextets]. repeat f_equal; lia.
  - apply Forall_cons_1 in Hns as [Hx Hns]. apply Forall_cons_1 in Hns as [Hy Hns].
    apply Forall_cons_1 in Hns as [Hz Hns].
    cbn [Spec.sextets_of_bytes Web.decode_sextets]. rewrite IH by done.
    repeat f_equal; lia.
Qed.

Lemma sextets_of_bytes_length (ns : list N) :
  ((length (Spec.sextets_of_bytes ns) + Spec.padding (length ns)) mod 4 = 0)%nat.
Proof.
  induction ns as [|x|x y|x y z ns IH] using list_triple_ind; try reflexivity.
  cbn [Spec.sextets_of_bytes length].
  replace (Spec.padding (S (S (S (length ns))))) with (Spec.padding (length ns)).
  - lia.
  - unfold Spec.padding.
    replace (S (S (S (length ns))) mod 3)%nat with (length ns mod 3)%nat; [done|].
    change (S (S (S (length ns)))) with (3 + length ns)%nat. lia.
Qed.

Lemma padding_le (n : nat) : (Spec.padding n <= 2)%nat.
Proof. unfold Spec.padding. by repeat case_match; lia. Qed.

Lemma decode_sextets_length (vs : list N) :
  length (Web.decode_sextets vs) = (length vs * 3 / 4)%nat.
Proof.
  induction vs as [|a|a b|a b c|a b c d vs IH] using list_quad_ind; try reflexivity.
  cbn [Web.decode_sextets length]. rewrite IH. lia.
Qed.

Lemma sextets_Some (data : list N) :
  Forall (fun c => is_Some (Web.sextet c)) data ->
  exists vs, Web.sextets data = Some vs /\ length vs = length data.
Proof.
  induction 1 as [|c data [v Hv] _ (vs & Hvs & Hlen)].
  - by exists [].
  - exists (v :: vs). cbn [Web.sextets length]. rewrite Hv, Hvs. auto.
Qed.

Lemma sextets_alphabet (vs : list N) :
  Forall (fun v => (v < 64)%N) vs ->
  Web.sextets (Spec.alphabet_char <$> vs) = Some vs.
Proof.
  induction 1 as [|v vs Hv _ IH]; [done|].
  cbn [fmap list_fmap Web.sextets]. fold (fmap Spec.alphabet_char vs).
  by rewrite sextet_alphabet_char, IH.
Qed.

Lemma sextets_None (data : list N) (c : N) :
  c ∈ data -> Web.sextet c = None -> Web.sextets data = None.
Proof.
  induction 1 as [c data|c d data _ IH]; intros Hc; cbn [Web.sextets].
  - by rewrite Hc.
  - rewrite (IH Hc). by destruct (Web.sextet d).
Qed.

(** ** Whitespace and padding *)

Lemma filter_all {A : Type} (f : A -> bool) (l : list A) :
  Forall (fun x => f x = true) l -> List.filter f l = l.
Proof.
  induction 1 as [|x l Hx _ IH]; [done|]. cbn [List.filter]. by rewrite Hx, IH.
Qed.

Lemma remove_final_equals_snoc (data : list N) :
  Web.remove_final_equals (data ++ [61%N]) = data.
Proof.
  unfold Web.remove_final_equals. rewrite last_snoc. cbn [N.eqb Pos.eqb].
  rewrite length_app. cbn [length].
  replace (length data + 1 - 1)%nat with (length data) by lia.
  by rewrite take_app_length.
Qed.

Lemma remove_final_equals_body (body : list N) :
  Forall (fun c => c <> 61%N) body -> Web.remove_final_equals body = body.
Proof.
  intros Hbody. unfold Web.remove_final_equals.
  destruct (last body) as [c|] eqn:Ec; [|done].
  assert (Hc : c <> 61%N).
  { rewrite Forall_forall in Hbody. apply Hbody. by apply last_Some_elem_of. }
  by apply N.eqb_neq in Hc as ->.
Qed.

Lemma strip_padding_padded (body : list N) (pad : nat) :
  Forall (fun c => c <> 61%N) body ->
  (pad <= 2)%nat ->
  Web.strip_padding (body ++ replicate pad 61%N)
  = if (length (body ++ replicate pad 61%N) mod 4 =? 0)%nat
    then body else body ++ replicate pad 61%N.
Proof.
  intros Hbody Hpad. unfold Web.strip_padding.
  destruct (length (body ++ replicate pad 61%N) mod 4 =? 0)%nat; [|done].
  destruct pad as [|[|[|pad]]]; [| | |lia]; cbn [replicate].
  - rewrite app_nil_r. by rewrite !(remove_final_equals_body body Hbody).
  - rewrite remove_final_equals_snoc. by apply remove_final_equals_body.
  - change [61%N; 61%N] with ([61%N] ++ [61%N]). rewrite app_assoc.
    by rewrite !remove_final_equals_snoc.
Qed.

Lemma strip_padding_keeps (data : list N) (c : N) :
  c ∈ data -> c <> 61%N -> c ∈ Web.strip_padding data.
Proof.
  intros Hin Hc.
  assert (Hstep : forall l, c ∈ l -> c ∈ Web.remove_final_equals l).
  { intros l Hl. unfold Web.remove_final_equals.
    destruct (last l) as [x|] eqn:Ex; [|done].
    destruct (N.eqb_spec x 61) as [->|Hx]; [|done].
    apply last_Some in Ex as [l' ->].
    rewrite length_app. cbn [length].
    replace (length l' + 1 - 1)%nat with (length l') by lia.
    rewrite take_app_length. apply elem_of_app in Hl as [Hl|Hl]; [done|].
    apply list_elem_of_singleton in Hl. congruence. }
  unfold Web.strip_padding. destruct (length data mod 4 =? 0)%nat; auto.
Qed.

(** ** [decodeBase64] on padded input, on encoded bytes and on foreign
    characters *)

Lemma atob_padded (body : list N) (pad : nat) :
  Spec.padded_base64 body pad ->
  exists vs,
    Web.sextets body = Some vs /\ length vs = length body
    /\ Web.atob (body ++ replicate pad 61%N) = JS.Ok (Web.decode_sextets vs).
Proof.
  intros (Hbody & Hpad & Hlen).
  destruct (sextets_Some body Hbody) as (vs & Hvs & Hvslen).
  exists vs. split; [done|]. split; [done|].
  unfold Web.atob. rewrite filter_all.
  - rewrite strip_padding_padded;
      [| by eapply Forall_impl; [exact Hbody | apply sextet_not_equals] | done].
    rewrite length_app, length_replicate.
    rewrite (proj2 (Nat.eqb_eq _ _) Hlen).
    replace (length body mod 4 =? 1)%nat with false by (symmetry; apply Nat.eqb_neq; lia).
    by rewrite Hvs.
  - apply Forall_app. split.
    + eapply Forall_impl; [exact Hbody|]. intros c Hc. cbv beta.
      by rewrite sextet_not_whitespace.
    + by apply Forall_replicate.
Qed.

Lemma decodeBase64_padded (body : list N) (pad : nat) :
  Spec.padded_base64 body pad ->
  exists bytes,
    decodeBase64 (body ++ replicate pad 61%N) = JS.Ok bytes
    /\ length bytes = ((length body + pad) * 3 / 4 - pad)%nat.
Proof.
  intros Hvalid. destruct (atob_padded body pad Hvalid) as (vs & _ & Hlen & Hatob).
  destruct Hvalid as (_ & Hpad & Hmod).
  rewrite decodeBase64_atob, Hatob. eexists. split; [reflexivity|].
  rewrite length_fmap, decode_sextets_length, Hlen. lia.
Qed.

Lemma decodeBase64_encode (bs : list byte) :
  decodeBase64 (Spec.base64_encode bs) = JS.Ok bs.
Proof.
  assert (Hbytes : Forall (fun n => (n < 256)%N) (Byte.to_N <$> bs)).
  { apply Forall_fmap, Forall_forall. intros b _. cbv beta.
    pose proof (Byte.to_N_bounded b). unfold compose. lia. }
  pose proof (sextets_of_bytes_range _ Hbytes) as Hrange.
  unfold Spec.base64_encode.
  destruct (atob_padded (Spec.alphabet_char <$> Spec.sextets_of_bytes (Byte.to_N <$> bs))
              (Spec.padding (length bs))) as (vs & Hvs & _ & Hatob).
  { split; [|split].
    - apply Forall_fmap. eapply Forall_impl; [exact Hrange|].
      intros v Hv. unfold compose. by rewrite sextet_alphabet_char.
    - apply padding_le.
    - rewrite length_fmap. rewrite <- (length_fmap Byte.to_N bs).
      apply sextets_of_bytes_length. }
  rewrite sextets_alphabet in Hvs by done. injection Hvs as <-.
  rewrite decodeBase64_atob, Hatob. f_equal.
  rewrite decode_sextets_of_bytes by done.
  rewrite <- list_fmap_compose. rewrite <- (list_fmap_id bs) at 2.
  apply list_fmap_ext. intros i b _. unfold compose. apply byte_of_to_N.
Qed.

Lemma decodeBase64_foreign (base64 : list N) (c : N) :
  c ∈ base64 ->
  Web.sextet c = None -> c <> 61%N -> Web.is_ascii_whitespace c = false ->
  decodeBase64 base64 = JS.Throw JS.InvalidCharacterError.
Proof.
  intros Hin Hc Heq Hws. rewrite decodeBase64_atob. unfold Web.atob.
  set (data := List.filter (fun c => negb (Web.is_ascii_whitespace c)) base64).
  assert (Hdata : c ∈ data).
  { apply list_elem_of_In, filter_In. split; [by apply list_elem_of_In|].
    by rewrite Hws. }
  pose proof (strip_padding_keeps data c Hdata Heq) as Hkept.
  destruct (length (Web.strip_padding data) mod 4 =? 1)%nat; [done|].
  by rewrite (sextets_None _ c Hkept Hc).
Qed.

(** C6 (as amended): [decodeBase64] is a pure function.  It returns the
    bytes whose base64 encoding it is given; on a padded base64 string of
    length [len] with [pad] final [=] it returns [floor (len * 3 / 4) - pad]
    bytes; and it fails, with the [InvalidCharacterError] of [atob], when the
    input contains a character that is neither in the base64 alphabet, nor
    [=], nor ASCII whitespace. *)
Theorem decodeBase64_spec :
  (forall bs : list byte, decodeBase64 (Spec.base64_encode bs) = JS.Ok bs)
  /\ (forall (body : list N) (pad : nat),
        Spec.padded_base64 body pad ->
        exists bytes,
          decodeBase64 (body ++ replicate pad 61%N) = JS.Ok bytes
          /\ length bytes = ((length body + pad) * 3 / 4 - pad)%nat)
  /\ (forall (base64 : list N) (c : N),
        c ∈ base64 ->
        Web.sextet c = None -> c <> 61%N -> Web.is_ascii_whitespace c = false ->
        decodeBase64 base64 = JS.Throw JS.InvalidCharacterError).
Proof.
  split; [exact decodeBase64_encode|].
  split; [exact decodeBase64_padded | exact decodeBase64_foreign].
Qed.

(** ["QUI="] holds two bytes, and ["QU-D"] holds a character that is not of
    the alphabet. *)
Lemma decodeBase64_spec_witness :
  (exists bytes,
      decodeBase64 (JS.str "QUI" ++ replicate 1 61%N) = JS.Ok bytes
      /\ length bytes = 2%nat)
  /\ decodeBase64 (JS.str "QU-D") = JS.Throw JS.InvalidCharacterError.
Proof.
  split.
  - apply (proj1 (proj2 decodeBase64_spec) (JS.str "QUI") 1%nat).
    split; [|split].
    + repeat constructor; eexists; reflexivity.
    + apply Nat.le_succ_diag_r.
    + reflexivity.
  - apply (proj2 (proj2 decodeBase64_spec) (JS.str "QU-D") 45%N).
    + apply list_elem_of_further, list_elem_of_further, list_elem_of_here.
    + reflexivity.
    + discriminate.
    + reflexivity.
Defined.

(** C6, the claim as written fails on ["QQ=="] followed by a line feed: the
    line feed is not a character of the alphabet nor padding, and the
    decoder returns the byte of ["A"]. *)
Lemma decodeBase64_line_feed :
  Web.sextet 10 = None
  /\ decodeBase64 (JS.str "QQ==" ++ [10%N]) = JS.Ok [x41].
Proof. split; reflexivity. Qed.

(** ** The playback controller *)

Import App.

(** C10: with no cached buffer, [handleReplay] and [handleDownload] return
    at once: they end normally and the whole state (playback state, audio
    flag, error message, refs, nodes, downloads, console) is the one they
    were called in. *)
Theorem handlers_without_buffer (p : Platform) (iso : string) (s : State) :
  lastAudioBufferRef s = None ->
  handleReplay p s = (JS.Ok tt, s) /\ handleDownload iso s = (JS.Ok tt, s).
Proof.
  intros Hnone.
  cbv beta iota delta [handleReplay handleDownload get mbind M_bind].
  rewrite Hnone. done.
Qed.

(** The state after a generation whose playback has ended and whose text
    was then edited: the cache is empty again. *)
Lemma handlers_without_buffer_witness :
  handleReplay (mkPlatform true false true)
    (mkState false false None false (Some running) None true None [] [] [])
  = (JS.Ok tt, mkState false false None false (Some running) None true None [] [] [])
  /\ handleDownload "2026-11-02T01:28:00.000Z"
       (mkState false false None false (Some running) None true None [] [] [])
     = (JS.Ok tt, mkState false false None false (Some running) None true None [] [] []).
Proof.
  apply (handlers_without_buffer (mkPlatform true false true) "2026-11-02T01:28:00.000Z"
           (mkState false false None false (Some running) None true None [] [] [])).
  reflexivity.
Defined.

(** [stopAudio] ends normally in every state. *)
Lemma stopAudio_ends (s : State) : (stopAudio s).1 = JS.Ok tt.
Proof.
  cbv beta iota delta [stopAudio get try_catch node_stop node_connection modify
                         mbind M_bind mret M_ret].
  destruct (sourceNodeRef s) as [id|]; [|done].
  by destruct (nodes s !! id) as [n|]; [destruct (started n)|].
Qed.

(** ** The speech service *)

Lemma trimStart_nil (s : list N) :
  JS.trimStart s = [] <-> Forall (fun c => JS.is_white_space c = true) s.
Proof.
  induction s as [|c s IH]; cbn [JS.trimStart].
  - split; [constructor | done].
  - destruct (JS.is_white_space c) eqn:Ec.
    + rewrite IH. split; [by constructor | by inversion 1].
    + split; [done | inversion 1; congruence].
Qed.

(** What [trimStart] keeps starts with a character that is not white
    space, so white space alone is never kept. *)
Lemma trimStart_kept (s : list N) :
  Forall (fun c => JS.is_white_space c = true) (JS.trimStart s) -> JS.trimStart s = [].
Proof.
  induction s as [|c s IH]; cbn [JS.trimStart]; [done|].
  destruct (JS.is_white_space c) eqn:Ec; [exact IH|].
  inversion 1; congruence.
Qed.

Lemma trim_nil (s : list N) :
  JS.trim s = [] <-> Forall (fun c => JS.is_white_space c = true) s.
Proof.
  unfold JS.trim. split.
  - intros H. apply (f_equal reverse) in H. rewrite reverse_involutive in H.
    change (reverse []) with (@nil N) in H.
    apply trimStart_nil in H. apply (proj1 (Forall_reverse _ _)) in H.
    apply trimStart_nil. by apply trimStart_kept.
  - intros H. apply trimStart_nil in H. rewrite H. done.
Qed.

(** C9: a text that is empty or made of white space only makes
    [generateJapaneseSpeech] throw ["Please enter some Japanese text."]
    without any request to the remote service; a text with a character that
    is not white space sends exactly one request, for that text and
    voice. *)
Theorem generateJapaneseSpeech_guard {VoiceName : Type}
    (ai : GeminiService.GenAI) (text : list N) (voice : VoiceName) :
  (Forall (fun c => JS.is_white_space c = true) text ->
   GeminiService.generateJapaneseSpeech ai text voice
   = (JS.Throw (JS.Error "Please enter some Japanese text."), []))
  /\ (Exists (fun c => JS.is_white_space c = false) text ->
      (GeminiService.generateJapaneseSpeech ai text voice).2 = [(text, voice)]).
Proof.
  unfold GeminiService.generateJapaneseSpeech. split.
  - intros Hws. apply trim_nil in Hws. by rewrite Hws.
  - intros Hex. destruct (JS.trim text) as [|c r] eqn:Et.
    + apply trim_nil in Et. apply Exists_exists in Hex as (c & Hin & Hc).
      rewrite Forall_forall in Et. specialize (Et c Hin). congruence.
    + cbn [JS.truthy negb]. unfold GeminiService.generateContent.
      by destruct (ai text voice) as [[[|c' d]|]|e].
Qed.

(** Two spaces and an ideographic space are refused without a request; the
    text with the single character U+3053 is sent. *)
Lemma generateJapaneseSpeech_guard_witness :
  GeminiService.generateJapaneseSpeech
    (fun _ (_ : unit) => JS.Ok (Some (JS.str "QUJD"))) [32%N; 32%N; 12288%N] tt
  = (JS.Throw (JS.Error "Please enter some Japanese text."), [])
  /\ (GeminiService.generateJapaneseSpeech
        (fun _ (_ : unit) => JS.Ok (Some (JS.str "QUJD"))) [12371%N] tt).2
     = [([12371%N], tt)].
Proof.
  split.
  - apply (proj1 (generateJapaneseSpeech_guard
                    (fun _ (_ : unit) => JS.Ok (Some (JS.str "QUJD")))
                    [32%N; 32%N; 12288%N] tt)).
    repeat constructor.
  - apply (proj2 (generateJapaneseSpeech_guard
                    (fun _ (_ : unit) => JS.Ok (Some (JS.str "QUJD")))
                    [12371%N] tt)).
    apply Exists_cons_hd. reflexivity.
Defined.

(** ** One session at a time *)

Lemma stopAudio_effect (s : State) :
  sourceNodeRef (stopAudio s).2 = None
  /\ isPlaying (stopAudio s).2 = false
  /\ length (nodes (stopAudio s).2) = length (nodes s)
  /\ lastAudioBufferRef (stopAudio s).2 = lastAudioBufferRef s
  /\ audioContextRef (stopAudio s).2 = audioContextRef s
  /\ forall id,
       nodes (stopAudio s).2 !! id
       = if decide (sourceNodeRef s = Some id)
         then torn_down <$> nodes s !! id else nodes s !! id.
Proof.
  cbv beta iota delta [stopAudio get try_catch node_stop node_connection modify
                         mbind M_bind mret M_ret].
  destruct (sourceNodeRef s) as [cur|] eqn:Eref; [|by repeat split].
  assert (Hlookup : forall (f g : SourceNode -> SourceNode) id,
             (forall n, nodes s !! cur = Some n -> g (f n) = torn_down n) ->
             alter g cur (alter f cur (nodes s)) !! id
             = if decide (Some cur = Some id)
               then torn_down <$> nodes s !! id else nodes s !! id).
  { intros f g id Hfg. destruct (decide (Some cur = Some id)) as [[= <-]|Hne].
    - rewrite !list_lookup_alter_eq. destruct (nodes s !! cur) as [n|]; [|done].
      cbn [fmap option_fmap option_map]. by rewrite Hfg.
    - rewrite !list_lookup_alter_ne by congruence. done. }
  destruct (nodes s !! cur) as [n|] eqn:En; [destruct (started n) eqn:Es|];
    cbn [snd sourceNodeRef isPlaying nodes lastAudioBufferRef audioContextRef
           set_isPlaying set_sourceNodeRef set_nodes];
    rewrite ?length_alter; repeat split; try done; intros id.
  - rewrite Hlookup; [done|]. intros n' Hn'. injection Hn' as <-.
    unfold torn_down. by rewrite Es.
  - destruct (decide (Some cur = Some id)) as [[= <-]|Hne].
    + rewrite list_lookup_alter_eq, En. cbn [fmap option_fmap option_map].
      unfold torn_down. by rewrite Es.
    + by rewrite list_lookup_alter_ne by congruence.
  - destruct (decide (Some cur = Some id)) as [[= <-]|Hne].
    + by rewrite list_lookup_alter_eq, En.
    + by rewrite list_lookup_alter_ne by congruence.
Qed.

Lemma torn_down_silent (n : SourceNode) :
  playing (torn_down n) = false /\ connected (torn_down n) = false.
Proof. unfold playing, torn_down. cbn. by destruct (started n). Qed.

(** After [stopAudio] no node produces sound, if at most the held one
    did. *)
Lemma stopAudio_silence (s : State) :
  single_session s ->
  forall id n, nodes (stopAudio s).2 !! id = Some n -> playing n = false.
Proof.
  intros Hsingle id n.
  destruct (stopAudio_effect s) as (_ & _ & _ & _ & _ & Hnodes). rewrite Hnodes.
  destruct (decide (sourceNodeRef s = Some id)) as [Href|Href].
  - destruct (nodes s !! id) as [n0|]; [|done]. intros [= <-].
    apply torn_down_silent.
  - intros Hn. destruct (playing n) eqn:Hp; [|done].
    by specialize (Hsingle id n Hn Hp).
Qed.

Lemma stopAudio_frame (s : State) :
  isLoading (stopAudio s).2 = isLoading s
  /\ error (stopAudio s).2 = error s
  /\ hasAudio (stopAudio s).2 = hasAudio s
  /\ analyserRef (stopAudio s).2 = analyserRef s
  /\ downloads (stopAudio s).2 = downloads s
  /\ console (stopAudio s).2 = console s.
Proof.
  cbv beta iota delta [stopAudio get try_catch node_stop node_connection modify
                         mbind M_bind mret M_ret].
  destruct (sourceNodeRef s) as [id|]; [|done].
  by destruct (nodes s !! id) as [n|]; [destruct (started n)|].
Qed.

(** With no node held and [isPlaying] false nothing changes. *)
Lemma stopAudio_idle (s : State) :
  sourceNodeRef s = None -> isPlaying s = false -> stopAudio s = (JS.Ok tt, s).
Proof.
  intros Href Hplay.
  cbv beta iota delta [stopAudio get modify mbind M_bind mret M_ret].
  rewrite Href. destruct s. cbn in *. by subst.
Qed.

(** C8 (as amended): [stopAudio] never throws, whatever the node it holds
    answers to [stop()].  It leaves [isPlaying] false and the ref empty; the
    node that was held is stopped, if it had been started, and disconnected;
    every other node and everything else of the state stay as they were, and
    where at most the held node sounded nothing sounds.  It changes nothing
    when no node is held and [isPlaying] is false, as before any playback,
    and so nothing when it is called again. *)
Theorem stopAudio_safe (s : State) :
  exists s',
    stopAudio s = (JS.Ok tt, s')
    /\ isPlaying s' = false
    /\ sourceNodeRef s' = None
    /\ (forall id,
          nodes s' !! id
          = if decide (sourceNodeRef s = Some id)
            then torn_down <$> nodes s !! id else nodes s !! id)
    /\ (isLoading s' = isLoading s /\ error s' = error s /\ hasAudio s' = hasAudio s
        /\ audioContextRef s' = audioContextRef s /\ analyserRef s' = analyserRef s
        /\ lastAudioBufferRef s' = lastAudioBufferRef s
        /\ downloads s' = downloads s /\ console s' = console s)
    /\ (single_session s ->
        forall id n, nodes s' !! id = Some n -> playing n = false)
    /\ (sourceNodeRef s = None -> isPlaying s = false -> s' = s)
    /\ stopAudio s' = (JS.Ok tt, s').
Proof.
  exists (stopAudio s).2.
  destruct (stopAudio_effect s) as (Href & Hplay & _ & Hlast & Hctx & Hnodes).
  destruct (stopAudio_frame s) as (F1 & F2 & F3 & F4 & F5 & F6).
  split_and!; try done.
  - pose proof (stopAudio_ends s) as Hends.
    destruct (stopAudio s) as [r s']. cbn [fst snd] in *. by subst r.
  - by apply stopAudio_silence.
  - intros Hnone Hidle. by rewrite stopAudio_idle.
  - by apply stopAudio_idle.
Qed.

(** Before any playback [stopAudio] is a no-op; while a node plays it
    stops and disconnects it. *)
Lemma stopAudio_safe_witness :
  let buffer := AudioBuffer.mk 24000 1 [[JS.Fin 0]] in
  let s := (playBuffer (mkPlatform true false true) buffer initial).2 in
  stopAudio initial = (JS.Ok tt, initial)
  /\ (stopAudio s).1 = JS.Ok tt
  /\ nodes (stopAudio s).2 !! 0%nat = Some (mkNode buffer true true false false).
Proof.
  intros buffer s. split.
  - destruct (stopAudio_safe initial) as (s' & Hrun & _ & _ & _ & _ & _ & Hsame & _).
    rewrite Hrun. f_equal. apply Hsame; reflexivity.
  - destruct (stopAudio_safe s) as (s' & Hrun & _ & _ & Hnodes & _).
    rewrite Hrun. cbn [fst snd]. split; [reflexivity|]. rewrite Hnodes. reflexivity.
Defined.

(** C8, the claim as written fails once the playback has ended by itself:
    the node is still held, and [stopAudio], though it raises nothing and
    [isPlaying] stays false, is no no-op: it marks the node stopped,
    disconnects it and empties the ref. *)
Lemma stopAudio_after_end :
  let buffer := AudioBuffer.mk 24000 1 [[JS.Fin 0]] in
  let s := (onended 0 (playBuffer (mkPlatform true false true) buffer initial).2).2 in
  (isPlaying s = false
   /\ sourceNodeRef s = Some 0%nat
   /\ nodes s = [mkNode buffer true false true true])
  /\ (stopAudio s).1 = JS.Ok tt
  /\ isPlaying (stopAudio s).2 = false
  /\ sourceNodeRef (stopAudio s).2 = None
  /\ nodes (stopAudio s).2 = [mkNode buffer true true true false].
Proof. by repeat split. Qed.

Lemma alter_last {A : Type} (f : A -> A) (l : list A) (x : A) :
  alter f (length l) (l ++ [x]) = l ++ [f x].
Proof.
  rewrite <- (Nat.add_0_r (length l)) at 1. by rewrite alter_app_r.
Qed.

Lemma playBuffer_available (p : Platform) (buffer : AudioBuffer.t) (s : State) :
  audio_available p s = true ->
  playBuffer p buffer s
  = (JS.Ok tt,
     mkState (isLoading s) true (error s) (hasAudio s) (Some running)
       (Some (length (nodes s))) true (lastAudioBufferRef s)
       (nodes s ++ [mkNode buffer true false false true])
       (downloads s) (console s)).
Proof.
  unfold audio_available. intros Hav.
  destruct s as [ld pl er ha ctx ref an last ns dl co].
  destruct p as [create susp resume].
  cbn [audioContextRef can_create starts_suspended can_resume] in Hav.
  cbv beta iota delta [playBuffer ensureAudioContext createBufferSource node_connection
                         node_start get modify throw mbind M_bind mret M_ret].
  destruct an; (destruct ctx as [[|]|]; [ | | destruct create; [destruct susp|] ]);
    try discriminate; cbn [negb orb andb] in Hav; subst; cbn;
    rewrite !alter_last; reflexivity.
Qed.


Lemma handleReplay_run (p : Platform) (buffer : AudioBuffer.t) (s : State) :
  lastAudioBufferRef s = Some buffer ->
  handleReplay p s
  = try_catch (playBuffer p buffer)
      (fun err =>
         console_error err;;
         modify (set_error (Some "Failed to replay audio."%string)))
      (stopAudio s).2.
Proof.
  intros Hlast. pose proof (stopAudio_ends s) as Hends.
  unfold handleReplay at 1, get at 1. cbv beta iota delta [mbind M_bind].
  rewrite Hlast. cbv beta iota.
  destruct (stopAudio s) as [r s1]. cbn [fst snd] in *. by rewrite Hends.
Qed.






(** [playBuffer] on its own starts a node without a look at the one held:
    the teardown is the [stopAudio] its callers run first. *)
Lemma playBuffer_keeps_previous :
  let buffer := AudioBuffer.mk 24000 1 [[JS.Fin 0]] in
  let p := mkPlatform true false true in
  nodes (playBuffer p buffer (playBuffer p buffer initial).2).2
  = [mkNode buffer true false false true; mkNode buffer true false false true].
Proof. reflexivity. Qed.

(** * Further properties *)

(** ** Every decoded buffer *)

Lemma int16_view_range (bs : list byte) :
  Forall (fun v => -32768 <= v <= 32767) (int16_view bs).
Proof.
  induction bs as [|lo|lo hi rest IH] using list_pair_ind; cbn [int16_view];
    constructor; [apply signed16_range | exact IH].
Qed.

Lemma pcm_sample_zero : Derived.pcm_sample (JS.Fin 0).
Proof. exists 0%Q, 0. repeat split; try reflexivity; lia. Qed.

Lemma pcm_sample_normalized (s : JS.number) :
  Derived.pcm_sample s -> exists q, s = JS.Fin q /\ (-1 <= q <= 1)%Q.
Proof.
  intros (q & k & -> & Hq & Hk). exists q. split; [done|]. rewrite Hq.
  assert (H1 : (inject_Z (-32768) <= inject_Z k)%Q) by (rewrite <- Zle_Qle; lia).
  assert (H2 : (inject_Z k <= inject_Z 32767)%Q) by (rewrite <- Zle_Qle; lia).
  change (inject_Z (-32768)) with (-32768)%Q in H1.
  change (inject_Z 32767) with 32767%Q in H2.
  set (x := inject_Z k) in *. clearbody x.
  assert (Hx : (x / 32768 * 32768 == x)%Q) by (field; discriminate).
  set (y := (x / 32768)%Q) in *. clearbody y. split; lra.
Qed.

(** The shape and the samples of a decoded buffer. *)
Lemma decodeAudioData_samples (data : list byte) (ctx : AudioContext.t)
    (sampleRate : Q) (numChannels : nat) (b : AudioBuffer.t) :
  decodeAudioData data ctx sampleRate numChannels = JS.Ok b ->
  AudioBuffer.sampleRate b = sampleRate
  /\ AudioBuffer.numberOfChannels b = numChannels
  /\ AudioBuffer.wf b
  /\ Forall (Forall Derived.pcm_sample) (AudioBuffer.channelData b).
Proof.
  intros Hb.
  unfold decodeAudioData, Int16Array_of_buffer in Hb.
  destruct (Nat.even (length data)); [|discriminate].
  cbn [mbind JS.result_bind] in Hb. unfold AudioContext.createBuffer in Hb.
  set (frameCount := JS.div (JS.of_nat (length (int16_view data)))
                       (JS.of_nat numChannels)) in *.
  set (L := Z.to_nat (JS.ToUint32 frameCount)) in *.
  destruct (AudioContext.supports ctx numChannels L sampleRate); [|discriminate].
  cbn [mbind JS.result_bind] in Hb. injection Hb as <-.
  set (g := fun (channel : nat) (channelData : list JS.number) =>
         foldl (fun channelData i =>
                  <[i := JS.div (JS.load (int16_view data) (i * numChannels + channel))
                           (JS.Fin 32768)]> channelData)
           channelData (seq 0 (JS.rounds frameCount))).
  pose proof (per_channel_shape g numChannels
                (AudioBuffer.zeros numChannels L sampleRate)) as (Hs & Hl & Hn).
  pose proof (per_channel_lookup g numChannels
                (AudioBuffer.zeros numChannels L sampleRate)) as Hlk.
  subst g. cbv beta in Hs, Hl, Hn, Hlk.
  assert (Hzeros : AudioBuffer.numberOfChannels
                     (AudioBuffer.zeros numChannels L sampleRate) = numChannels)
    by apply length_replicate.
  rewrite Hzeros in Hn. clear Hzeros.
  split; [exact Hs|]. split; [exact Hn|].
  assert (Hchan : forall ch c,
             AudioBuffer.channelData
               (foldl
                  (fun buffer channel =>
                     AudioBuffer.setChannelData buffer channel
                       (foldl
                          (fun channelData i =>
                             <[i := JS.div (JS.load (int16_view data)
                                              (i * numChannels + channel))
                                      (JS.Fin 32768)]> channelData)
                          (AudioBuffer.getChannelData buffer channel)
                          (seq 0 (JS.rounds frameCount))))
                  (AudioBuffer.zeros numChannels L sampleRate) (seq 0 numChannels))
             !! ch = Some c ->
             (ch < numChannels)%nat
             /\ c = foldl (fun channelData i =>
                            <[i := JS.div (JS.load (int16_view data)
                                             (i * numChannels + ch))
                                     (JS.Fin 32768)]> channelData)
                      (replicate L (JS.Fin 0)) (seq 0 (JS.rounds frameCount))).
  { intros ch c Hc. apply lookup_lt_Some in Hc as Hlt.
    unfold AudioBuffer.numberOfChannels in Hn. rewrite Hn in Hlt.
    split; [done|]. rewrite Hlk, decide_True in Hc by done.
    unfold AudioBuffer.zeros in Hc. cbn [AudioBuffer.channelData] in Hc.
    rewrite lookup_replicate_2 in Hc by done. by injection Hc as <-. }
  split.
  - unfold AudioBuffer.wf. rewrite Hl. apply Forall_lookup. intros ch c Hc.
    destruct (Hchan ch c Hc) as [_ ->]. by rewrite fill_length, length_replicate.
  - apply Forall_lookup. intros ch c Hc. destruct (Hchan ch c Hc) as [Hch ->].
    apply Forall_lookup. intros i s. rewrite fill_lookup, length_replicate.
    destruct (decide (i < JS.rounds frameCount /\ i < L)%nat) as [[_ HiL]|_].
    + intros [= <-].
      assert (Hframe : frameCount
                       = JS.Fin (inject_Z (Z.of_nat (length (int16_view data)))
                                 / inject_Z (Z.of_nat numChannels)))
        by (subst frameCount; apply div_of_nat; lia).
      assert (HL : (L <= length (int16_view data) / numChannels)%nat).
      { subst L. rewrite Hframe. unfold JS.ToUint32, JS.ToIntegerOrZero.
        rewrite trunc_quotient by lia. change (2 ^ 32) with 4294967296. lia. }
      assert (Hidx : (i * numChannels + ch < length (int16_view data))%nat).
      { pose proof (Nat.div_mod_eq (length (int16_view data)) numChannels). nia. }
      destruct (lookup_lt_is_Some_2 _ _ Hidx) as [v Hv].
      pose proof (int16_view_range data) as Hrange.
      rewrite Forall_lookup in Hrange. specialize (Hrange _ _ Hv).
      unfold JS.load. rewrite Hv.
      exists (inject_Z v / 32768)%Q, v. repeat split; try reflexivity; lia.
    + intros Hs'. apply lookup_replicate_1 in Hs' as [-> _]. apply pcm_sample_zero.
Qed.

Lemma pcm_samples_normalized (b : AudioBuffer.t) :
  Forall (Forall Derived.pcm_sample) (AudioBuffer.channelData b) -> Spec.normalized b.
Proof.
  intros H. unfold Spec.normalized. eapply Forall_impl; [exact H|]. intros c Hc.
  eapply Forall_impl; [exact Hc|]. apply pcm_sample_normalized.
Qed.

(** X1: whatever bytes, context, rate and channel count produced it, a buffer
    [decodeAudioData] returns has the rate and the channel count asked for,
    channels of its length, and only samples [k / 32768] with [k] a 16-bit
    integer: finite, in [[-1, 1]]. *)
Theorem decoded_buffer_shape (data : list byte) (ctx : AudioContext.t)
    (sampleRate : Q) (numChannels : nat) (b : AudioBuffer.t) :
  decodeAudioData data ctx sampleRate numChannels = JS.Ok b ->
  AudioBuffer.sampleRate b = sampleRate
  /\ AudioBuffer.numberOfChannels b = numChannels
  /\ AudioBuffer.wf b
  /\ Forall (Forall Derived.pcm_sample) (AudioBuffer.channelData b)
  /\ Spec.normalized b.
Proof.
  intros Hb.
  destruct (decodeAudioData_samples data ctx sampleRate numChannels b Hb)
    as (H1 & H2 & H3 & H4).
  repeat split; try done. by apply pcm_samples_normalized.
Qed.

Lemma decoded_buffer_shape_witness :
  exists b,
    decodeAudioData [x00; x80; xff; x7f] AudioContext.webAudio 24000 1 = JS.Ok b
    /\ AudioBuffer.numberOfChannels b = 1%nat /\ AudioBuffer.wf b.
Proof.
  exists (AudioBuffer.mk 24000 2 [[JS.Fin (-32768 # 32768); JS.Fin (32767 # 32768)]]).
  split; [reflexivity|].
  destruct (decoded_buffer_shape [x00; x80; xff; x7f] AudioContext.webAudio 24000 1
              (AudioBuffer.mk 24000 2 [[JS.Fin (-32768 # 32768); JS.Fin (32767 # 32768)]]))
    as (_ & Hn & Hwf & _).
  - reflexivity.
  - split; [exact Hn | exact Hwf].
Defined.

(** ** Decoding, then encoding *)

Lemma int16_bytes_view (bs : list byte) :
  Nat.even (length bs) = true -> int16_bytes (int16_view bs) = bs.
Proof.
  induction bs as [|lo|lo hi rest IH] using list_pair_ind; intros Heven;
    [done | discriminate |].
  cbn [int16_view int16_bytes flat_map app]. fold (int16_bytes (int16_view rest)).
  rewrite IH by exact Heven.
  pose proof (Z_of_byte_range lo) as Hlo. pose proof (Z_of_byte_range hi) as Hhi.
  assert (Hback : forall (b : byte) z, z mod 256 = JS.Z_of_byte b -> JS.byte_of_Z z = b).
  { intros b z Hz. unfold JS.byte_of_Z. rewrite Hz. unfold JS.Z_of_byte.
    by rewrite N2Z.id, Byte.of_to_N. }
  f_equal; [|f_equal]; apply Hback; unfold int16_le, JS.signed16;
    change (2 ^ 16) with 65536; change (2 ^ 15) with 32768; change (2 ^ 8) with 256;
    destruct (Z.ltb_spec ((JS.Z_of_byte lo + 256 * JS.Z_of_byte hi) mod 65536) 32768);
    lia.
Qed.

(** A decoded sample [v / 32768] is encoded as [v] when [v] is not
    positive and as [v - 1] when it is. *)
Lemma encode_decoded (v : Z) :
  -32768 <= v <= 32767 ->
  Spec.encode (inject_Z v / 32768) = Derived.reencoded v.
Proof.
  intros Hv. unfold Spec.encode, Derived.reencoded.
  assert (H1 : (inject_Z (-32768) <= inject_Z v)%Q) by (rewrite <- Zle_Qle; lia).
  assert (H2 : (inject_Z v <= inject_Z 32767)%Q) by (rewrite <- Zle_Qle; lia).
  change (inject_Z (-32768)) with (-32768)%Q in H1.
  change (inject_Z 32767) with 32767%Q in H2.
  assert (Hq : (inject_Z v / 32768 * 32768 == inject_Z v)%Q) by (field; discriminate).
  set (q := (inject_Z v / 32768)%Q) in *.
  assert (Hc : (Spec.clamp q == q)%Q) by (apply clamp_inside; split; lra).
  set (c := Spec.clamp q) in *.
  unfold Spec.scale. destruct (Qlt_le_dec c 0) as [Hneg|Hpos].
  - assert (Hv0 : v < 0) by (rewrite Zlt_Qlt; change (inject_Z 0) with 0%Q; lra).
    rewrite (proj2 (Z.ltb_ge 0 v)) by lia. apply trunc_integer. lra.
  - assert (Hv0 : 0 <= v) by (rewrite Zle_Qle; change (inject_Z 0) with 0%Q; lra).
    destruct (Z.ltb_spec 0 v) as [Hpos'|Hzero].
    + assert (Hv1 : (1 <= inject_Z v)%Q)
        by (change 1%Q with (inject_Z 1); rewrite <- Zle_Qle; lia).
      destruct (trunc_near (c * 32767)) as [Hnear _].
      destruct Hnear as [Hle Hlt]; [lra|].
      set (t := JS.trunc (c * 32767)) in *.
      assert (Hup : t < v) by (rewrite Zlt_Qlt; lra).
      assert (Hlow : v < t + 2).
      { rewrite Zlt_Qlt, inject_Z_plus. change (inject_Z 2) with 2%Q. lra. }
      lia.
    + assert (v = 0) by lia. subst v. apply trunc_integer.
      change (inject_Z 0) with 0%Q in *. lra.
Qed.

(** Decoding a stream of whole frames and encoding the buffer gives the
    stream of the re-encoded samples. *)
Lemma decode_encode_stream (data : list byte) (ctx : AudioContext.t)
    (sampleRate : Q) (numChannels : nat) :
  Nat.even (length data) = true ->
  (0 < numChannels)%nat ->
  ((length data / 2) mod numChannels = 0)%nat ->
  Z.of_nat (Spec.frames_of data numChannels) < 2 ^ 32 ->
  AudioContext.supports ctx numChannels (Spec.frames_of data numChannels) sampleRate
  = true ->
  exists b,
    decodeAudioData data ctx sampleRate numChannels = JS.Ok b
    /\ drop 44 (blob_bytes (audioBufferToWav b))
       = int16_bytes (Derived.reencoded <$> int16_view data).
Proof.
  intros Heven Hnc Hwhole Hfit Hsup.
  destruct (decodeAudioData_even data ctx sampleRate numChannels Heven Hnc Hfit Hsup)
    as (b & Hb & _ & Hn & Hlen & Hsamples).
  exists b. split; [exact Hb|].
  assert (Hdrop : drop 44 (blob_bytes (audioBufferToWav b)) = int16_bytes (interleave b)).
  { unfold audioBufferToWav. cbn [blob_bytes]. apply drop_app_length'. reflexivity. }
  assert (Hsize : (Spec.frames_of data numChannels * numChannels
                   = length (int16_view data))%nat).
  { rewrite int16_view_length. unfold Spec.frames_of.
    pose proof (Nat.div_mod_eq (length data / 2) numChannels). lia. }
  assert (Hinter : interleave b = Derived.reencoded <$> int16_view data).
  { apply list_eq. intros k. rewrite list_lookup_fmap.
    destruct (decide (k < length (int16_view data))%nat) as [Hk|Hk].
    - pose proof (Nat.div_mod_eq k numChannels) as Ek.
      pose proof (Nat.mod_upper_bound k numChannels ltac:(lia)) as Hch.
      set (i := (k / numChannels)%nat) in *. set (ch := (k mod numChannels)%nat) in *.
      assert (Hi : (i < Spec.frames_of data numChannels)%nat) by nia.
      destruct (Hsamples ch Hch) as (c & Hc & _ & Hci).
      destruct (Hci i Hi) as (lo & hi & Hlo & Hhi & Hs).
      assert (Hk' : (2 * (i * numChannels + ch) + 1 < length data)%nat)
        by (by apply lookup_lt_Some in Hhi).
      destruct (int16_view_lookup data _ Hk') as (lo' & hi' & Hlo' & Hhi' & Hv).
      rewrite Hlo in Hlo'. rewrite Hhi in Hhi'.
      injection Hlo' as <-. injection Hhi' as <-.
      replace k with (i * numChannels + ch)%nat by lia.
      rewrite Hv. cbn [fmap option_fmap option_map].
      rewrite <- Hn at 1.
      rewrite (interleave_sample b ch i c _ Hc Hs) by (by rewrite Hlen).
      cbn [Spec.encode_number]. f_equal. apply encode_decoded.
      pose proof (int16_view_range data) as Hrange.
      rewrite Forall_lookup in Hrange. exact (Hrange _ _ Hv).
    - rewrite (proj2 (lookup_ge_None _ _)) by (rewrite interleave_size, Hlen, Hn; lia).
      by rewrite (proj2 (lookup_ge_None (int16_view data) k)) by lia. }
  by rewrite Hdrop, Hinter.
Qed.

(** X2: a PCM stream of whole frames that is decoded and encoded again
    comes back with every positive 16-bit sample lowered by one and the
    others unchanged; a stream without positive samples comes back byte for
    byte. *)
Theorem reencoded_stream (data : list byte) (ctx : AudioContext.t)
    (sampleRate : Q) (numChannels : nat) :
  Nat.even (length data) = true ->
  (0 < numChannels)%nat ->
  ((length data / 2) mod numChannels = 0)%nat ->
  Z.of_nat (Spec.frames_of data numChannels) < 2 ^ 32 ->
  AudioContext.supports ctx numChannels (Spec.frames_of data numChannels) sampleRate
  = true ->
  exists b,
    decodeAudioData data ctx sampleRate numChannels = JS.Ok b
    /\ drop 44 (blob_bytes (audioBufferToWav b))
       = int16_bytes (Derived.reencoded <$> int16_view data)
    /\ (Forall (fun v => v <= 0) (int16_view data) ->
        drop 44 (blob_bytes (audioBufferToWav b)) = data).
Proof.
  intros Heven Hnc Hwhole Hfit Hsup.
  destruct (decode_encode_stream data ctx sampleRate numChannels
              Heven Hnc Hwhole Hfit Hsup) as (b & Hb & Hstream).
  exists b. split; [exact Hb|]. split; [exact Hstream|]. rewrite Hstream.
  intros Hquiet. rewrite <- (int16_bytes_view data Heven) at 2. f_equal.
  rewrite <- (list_fmap_id (int16_view data)) at 2.
  apply list_fmap_ext. intros j v Hv. rewrite Forall_lookup in Hquiet.
  specialize (Hquiet j v Hv). unfold Derived.reencoded.
  by rewrite (proj2 (Z.ltb_ge 0 v)) by lia.
Qed.

(** The samples 1 and -1: the first comes back as 0. *)
Lemma reencoded_stream_witness :
  exists b,
    decodeAudioData [x01; x00; xff; xff] AudioContext.webAudio 24000 1 = JS.Ok b
    /\ drop 44 (blob_bytes (audioBufferToWav b)) = [x00; x00; xff; xff].
Proof.
  destruct (reencoded_stream [x01; x00; xff; xff] AudioContext.webAudio 24000 1)
    as (b & Hb & Hbytes & _).
  - reflexivity.
  - apply Nat.lt_0_succ.
  - reflexivity.
  - reflexivity.
  - reflexivity.
  - exists b. split; [exact Hb|]. rewrite Hbytes. reflexivity.
Defined.

(** ** The quantiser of the encoder *)

Lemma trunc_monotone (q q' : Q) : (q <= q')%Q -> JS.trunc q <= JS.trunc q'.
Proof.
  intros Hle.
  destruct (trunc_near q) as [Hpos Hneg]. destruct (trunc_near q') as [Hpos' Hneg'].
  enough (H : JS.trunc q < JS.trunc q' + 1) by lia.
  rewrite Zlt_Qlt, inject_Z_plus.
  destruct (Qlt_le_dec q 0) as [Hq|Hq]; destruct (Qlt_le_dec q' 0) as [Hq'|Hq'];
    change (inject_Z 1) with 1%Q in *.
  - destruct Hneg as [_ H1]; [lra|]. destruct Hneg' as [H2 _]; [lra|]. lra.
  - destruct Hneg as [_ H1]; [lra|]. destruct Hpos' as [_ H2]; [lra|].
    assert (Ht : JS.trunc q < 1)
      by (rewrite Zlt_Qlt; change (inject_Z 1) with 1%Q; lra).
    assert (Ht' : -1 < JS.trunc q')
      by (rewrite Zlt_Qlt; change (inject_Z (-1)) with (-1)%Q; lra).
    assert (Hq0 : (inject_Z (JS.trunc q) <= inject_Z 0)%Q)
      by (rewrite <- Zle_Qle; lia).
    assert (Hq0' : (inject_Z 0 <= inject_Z (JS.trunc q'))%Q)
      by (rewrite <- Zle_Qle; lia).
    change (inject_Z 0) with 0%Q in *. lra.
  - lra.
  - destruct Hpos as [H1 _]; [lra|]. destruct Hpos' as [_ H2]; [lra|]. lra.
Qed.

Lemma clamp_cases (q : Q) :
  ((q <= -1 /\ Spec.clamp q == -1)
   \/ (-1 <= q <= 1 /\ Spec.clamp q == q)
   \/ (1 <= q /\ Spec.clamp q == 1))%Q.
Proof.
  destruct (Qlt_le_dec q (-1)) as [Hlow|Hlow].
  - left. split; [lra|]. unfold Spec.clamp.
    rewrite Q.max_l; [reflexivity|]. rewrite Q.min_r by lra. lra.
  - destruct (Qlt_le_dec 1 q) as [Hhigh|Hhigh].
    + right. right. split; [lra|]. unfold Spec.clamp.
      rewrite Q.min_l by lra. by rewrite Q.max_r.
    + right. left. split; [done|]. by apply clamp_inside.
Qed.

Lemma scale_clamp_monotone (q q' : Q) :
  (q <= q')%Q -> (Spec.scale (Spec.clamp q) <= Spec.scale (Spec.clamp q'))%Q.
Proof.
  intros Hle. pose proof (clamp_cases q) as Hc. pose proof (clamp_cases q') as Hc'.
  set (c := Spec.clamp q) in *. set (c' := Spec.clamp q') in *. clearbody c c'.
  unfold Spec.scale.
  destruct (Qlt_le_dec c 0); destruct (Qlt_le_dec c' 0);
    destruct Hc as [[? ?]|[[? ?]|[? ?]]]; destruct Hc' as [[? ?]|[[? ?]|[? ?]]]; lra.
Qed.

(** X3: the 16-bit value the encoder stores never decreases when the
    sample increases, is 32767 for every sample from 1 up and -32768 for
    every sample from -1 down: clipping saturates and never wraps. *)
Theorem quantiser_order :
  (forall q q' : Q,
      (q <= q')%Q ->
      JS.ToInt16 (clip_and_scale (JS.Fin q)) <= JS.ToInt16 (clip_and_scale (JS.Fin q')))
  /\ (forall q : Q, (1 <= q)%Q -> JS.ToInt16 (clip_and_scale (JS.Fin q)) = 32767)
  /\ (forall q : Q, (q <= -1)%Q -> JS.ToInt16 (clip_and_scale (JS.Fin q)) = -32768).
Proof.
  split; [|split].
  - intros q q' Hle. rewrite !clip_and_scale_encode. cbn [Spec.encode_number].
    unfold Spec.encode. by apply trunc_monotone, scale_clamp_monotone.
  - intros q Hq. rewrite clip_and_scale_encode. cbn [Spec.encode_number].
    unfold Spec.encode. apply trunc_integer. change (inject_Z 32767) with 32767%Q.
    pose proof (clamp_cases q) as Hc. set (c := Spec.clamp q) in *. clearbody c.
    unfold Spec.scale.
    destruct (Qlt_le_dec c 0); destruct Hc as [[? ?]|[[? ?]|[? ?]]]; lra.
  - intros q Hq. rewrite clip_and_scale_encode. cbn [Spec.encode_number].
    unfold Spec.encode. apply trunc_integer. change (inject_Z (-32768)) with (-32768)%Q.
    pose proof (clamp_cases q) as Hc. set (c := Spec.clamp q) in *. clearbody c.
    unfold Spec.scale.
    destruct (Qlt_le_dec c 0); destruct Hc as [[? ?]|[[? ?]|[? ?]]]; lra.
Qed.

Lemma quantiser_order_witness :
  JS.ToInt16 (clip_and_scale (JS.Fin (1 # 3))) <= JS.ToInt16 (clip_and_scale (JS.Fin (1 # 2)))
  /\ JS.ToInt16 (clip_and_scale (JS.Fin (3 # 2))) = 32767.
Proof.
  split.
  - apply (proj1 quantiser_order). discriminate.
  - apply (proj1 (proj2 quantiser_order)). discriminate.
Defined.

(** ** [writeString] *)

(** X4: [writeString] replaces the bytes of the view from [offset] on by
    the low bytes of the characters of the string, one each, and leaves every
    other byte of the view as it was (for a string that fits the view). *)
Theorem writeString_bytes (view : list byte) (offset : nat) (s : list N) :
  (offset + length s <= length view)%nat ->
  writeString view offset s
  = take offset view ++ (Derived.low_byte <$> s) ++ drop (offset + length s) view.
Proof.
  intros Hfit. unfold writeString, setUint8.
  apply list_eq. intros k.
  rewrite (fill_from_lookup (fun i => JS.byte_of_Z (JS.ToUint8 (JS.charCodeAt s i)))
             offset (length s) view k).
  destruct (decide (k < offset)%nat) as [Hlow|Hlow].
  - rewrite decide_False by lia. rewrite lookup_app_l by (rewrite length_take; lia).
    by rewrite lookup_take_lt.
  - rewrite lookup_app_r by (rewrite length_take; lia). rewrite length_take.
    replace (offset `min` length view)%nat with offset by lia.
    destruct (decide (k < offset + length s)%nat) as [Hin|Hout].
    + rewrite decide_True by lia.
      rewrite lookup_app_l by (rewrite length_fmap; lia).
      rewrite list_lookup_fmap.
      destruct (lookup_lt_is_Some_2 s (k - offset)) as [c Hc]; [lia|].
      rewrite Hc. cbn [fmap option_fmap option_map]. f_equal.
      unfold Derived.low_byte. by rewrite (ToUint8_charCodeAt s (k - offset) c).
    + rewrite decide_False by lia.
      rewrite lookup_app_r by (rewrite length_fmap; lia).
      rewrite length_fmap, lookup_drop. f_equal. lia.
Qed.

Lemma writeString_bytes_witness :
  writeString [x00; x01; x02; x03; x04] 1 [82%N; 12371%N]
  = [x00; x52; x53; x03; x04].
Proof.
  rewrite (writeString_bytes [x00; x01; x02; x03; x04] 1 [82%N; 12371%N]).
  - reflexivity.
  - cbn [length Nat.add]. do 3 apply le_n_S. apply Nat.le_0_l.
Defined.

(** ** The speech service: how a call ends *)

(** X5: [generateJapaneseSpeech] sends at most one request.  When it
    fails, it fails with an [Error] whose message is not empty, whatever the
    service threw; when it succeeds, its result is the inline data of the
    response, unchanged and not empty, and one request was sent. *)
Theorem generateJapaneseSpeech_outcome {VoiceName : Type}
    (ai : GeminiService.GenAI) (text : list N) (voice : VoiceName) :
  (length (GeminiService.generateJapaneseSpeech ai text voice).2 <= 1)%nat
  /\ (forall e,
        (GeminiService.generateJapaneseSpeech ai text voice).1 = JS.Throw e ->
        exists m, e = JS.Error m /\ m <> ""%string)
  /\ (forall data,
        (GeminiService.generateJapaneseSpeech ai text voice).1 = JS.Ok data ->
        data <> [] /\ ai text voice = JS.Ok (Some data)
        /\ (GeminiService.generateJapaneseSpeech ai text voice).2 = [(text, voice)]).
Proof.
  unfold GeminiService.generateJapaneseSpeech, GeminiService.generateContent.
  destruct (negb (JS.truthy (JS.trim text))).
  - cbn. split; [lia|]. split; [|discriminate].
    intros e [= <-]. by eexists.
  - destruct (ai text voice) as [[[|c d]|]|err]; cbn.
    + split; [lia|]. split; [|discriminate]. intros e [= <-]. by eexists.
    + split; [lia|]. split; [discriminate|]. by intros data [= <-].
    + split; [lia|]. split; [|discriminate]. intros e [= <-]. by eexists.
    + split; [lia|]. split; [|discriminate]. intros e [= <-].
      destruct (String.eqb_spec (JS.message err) "") as [Hempty|Hfull];
        by eexists.
Qed.

Lemma generateJapaneseSpeech_outcome_witness :
  exists m,
    (GeminiService.generateJapaneseSpeech
       (fun _ (_ : unit) => JS.Throw (JS.Error "")) [12371%N] tt).1
    = JS.Throw (JS.Error m)
    /\ m <> ""%string.
Proof.
  destruct (proj1 (proj2 (generateJapaneseSpeech_outcome
                            (fun _ (_ : unit) => JS.Throw (JS.Error "")) [12371%N] tt))
              (JS.Error "Failed to generate speech."))
    as (m & Hm & Hne).
  - reflexivity.
  - exists m. split; [by rewrite <- Hm | exact Hne].
Defined.

(** ** The base64 decoder: white space and missing padding *)

Lemma filter_twice {A : Type} (f : A -> bool) (l : list A) :
  List.filter f (List.filter f l) = List.filter f l.
Proof.
  induction l as [|x l IH]; [done|]. cbn [List.filter].
  destruct (f x) eqn:Ex; [|exact IH]. cbn [List.filter]. by rewrite Ex, IH.
Qed.

Lemma atob_filtered (data : list N) :
  Web.atob (List.filter (fun c => negb (Web.is_ascii_whitespace c)) data)
  = Web.atob data.
Proof. unfold Web.atob. by rewrite filter_twice. Qed.

(** X6: ASCII white space anywhere in the input does not change what
    [decodeBase64] returns, result or error. *)
Theorem decodeBase64_whitespace (before after : list N) (c : N) :
  Web.is_ascii_whitespace c = true ->
  decodeBase64 (before ++ c :: after) = decodeBase64 (before ++ after).
Proof.
  intros Hc. rewrite !decodeBase64_atob.
  rewrite <- (atob_filtered (before ++ c :: after)).
  rewrite List.filter_app. cbn [List.filter]. rewrite Hc. cbn [negb].
  by rewrite <- List.filter_app, atob_filtered.
Qed.

Lemma decodeBase64_whitespace_witness :
  decodeBase64 (JS.str "QU" ++ 10%N :: JS.str "JD") = JS.Ok [x41; x42; x43].
Proof.
  rewrite (decodeBase64_whitespace (JS.str "QU") (JS.str "JD") 10).
  - reflexivity.
  - reflexivity.
Defined.

(** X7: on characters of the alphabet alone, without padding,
    [decodeBase64] fails exactly when their number is one more than a
    multiple of four; otherwise it returns [floor (len * 3 / 4)] bytes. *)
Theorem decodeBase64_unpadded (body : list N) :
  Forall (fun c => is_Some (Web.sextet c)) body ->
  if (length body mod 4 =? 1)%nat
  then decodeBase64 body = JS.Throw JS.InvalidCharacterError
  else exists bytes,
      decodeBase64 body = JS.Ok bytes /\ length bytes = (length body * 3 / 4)%nat.
Proof.
  intros Hbody. rewrite decodeBase64_atob. unfold Web.atob.
  rewrite filter_all
    by (eapply Forall_impl; [exact Hbody|]; intros c Hc; cbv beta;
        by rewrite sextet_not_whitespace).
  assert (Hstrip : Web.strip_padding body = body).
  { pose proof (strip_padding_padded body 0) as H. cbn [replicate] in H.
    rewrite app_nil_r in H. rewrite H; [by destruct (_ =? _)%nat| |lia].
    eapply Forall_impl; [exact Hbody | apply sextet_not_equals]. }
  rewrite Hstrip. destruct (length body mod 4 =? 1)%nat; [done|].
  destruct (sextets_Some body Hbody) as (vs & Hvs & Hlen). rewrite Hvs.
  eexists. split; [reflexivity|]. by rewrite length_fmap, decode_sextets_length, Hlen.
Qed.

Lemma decodeBase64_unpadded_witness :
  decodeBase64 (JS.str "QUJDR") = JS.Throw JS.InvalidCharacterError.
Proof.
  apply (decodeBase64_unpadded (JS.str "QUJDR")).
  repeat constructor; eexists; reflexivity.
Defined.

(** ** The name of the downloaded file *)

Lemma get_dashes (iso : string) (i : nat) :
  String.get i (dashes iso) = Derived.dash <$> String.get i iso.
Proof.
  revert i. induction iso as [|c iso IH]; intros i; [done|].
  destruct i as [|i]; cbn [dashes String.get]; [done | apply IH].
Qed.

Lemma dash_plain (c : ascii) : Derived.dash c <> ":"%char /\ Derived.dash c <> "."%char.
Proof.
  unfold Derived.dash.
  destruct (Ascii.eqb_spec c ":") as [->|Hcolon]; [by split|].
  destruct (Ascii.eqb_spec c ".") as [->|Hdot]; [by split|]. by split.
Qed.

(** X8: the file name is ["nihongo-voice-"], a stamp and [".wav"]; the
    stamp is made of the first 19 characters of the ISO time, each colon and
    dot replaced by a dash, so it holds neither colon nor dot, and what
    follows the seconds is dropped. *)
Theorem file_name_stamp (iso : string) :
  exists stamp,
    file_name iso = ("nihongo-voice-" ++ stamp ++ ".wav")%string
    /\ (forall i,
          String.get i stamp
          = if (i <? 19)%nat then Derived.dash <$> String.get i iso else None)
    /\ (forall i c, String.get i stamp = Some c -> c <> ":"%char /\ c <> "."%char).
Proof.
  exists (substring 0 19 (dashes iso)). split; [reflexivity|].
  assert (Hget : forall i,
             String.get i (substring 0 19 (dashes iso))
             = if (i <? 19)%nat then Derived.dash <$> String.get i iso else None).
  { intros i. destruct (Nat.ltb_spec i 19) as [Hi|Hi].
    - rewrite substring_correct1 by done. rewrite Nat.add_0_r. apply get_dashes.
    - by apply substring_correct2. }
  split; [exact Hget|]. intros i c. rewrite Hget.
  destruct (i <? 19)%nat; [|discriminate].
  destruct (String.get i iso) as [c0|]; [|discriminate].
  intros [= <-]. apply dash_plain.
Qed.

(** ** The audio context *)

(** X9: once [ensureAudioContext] has succeeded the context is running,
    nothing else of the state has changed, and a further call succeeds
    without a change, whatever the platform would answer then. *)
Theorem ensureAudioContext_idempotent (p : Platform) (s s' : State) :
  ensureAudioContext p s = (JS.Ok tt, s') ->
  s' = set_audioContextRef (Some running) s
  /\ forall p', ensureAudioContext p' s' = (JS.Ok tt, s').
Proof.
  destruct s as [ld pl er ha ctx ref an last ns dl co].
  destruct p as [create susp resume].
  cbv beta iota delta [ensureAudioContext get modify throw mbind M_bind mret M_ret].
  cbn [audioContextRef can_create starts_suspended can_resume].
  destruct ctx as [[|]|]; [ | | destruct create; [destruct susp|] ];
    try destruct resume; cbn; intros [= <-]; by split.
Qed.

Lemma ensureAudioContext_idempotent_witness :
  ensureAudioContext (mkPlatform false false false)
    (set_audioContextRef (Some running) initial)
  = (JS.Ok tt, set_audioContextRef (Some running) initial).
Proof.
  destruct (ensureAudioContext_idempotent (mkPlatform true true true) initial
              (set_audioContextRef (Some running) initial)) as [_ Hagain].
  - reflexivity.
  - apply Hagain.
Defined.

(** ** A replay that cannot start *)

(** A [playBuffer] that fails has changed the audio context ref at
    most. *)
Lemma playBuffer_failure (p : Platform) (buffer : AudioBuffer.t) (s : State) :
  audio_available p s = false ->
  exists e c, playBuffer p buffer s = (JS.Throw e, set_audioContextRef c s).
Proof.
  unfold audio_available. intros Hav.
  destruct s as [ld pl er ha ctx ref an last ns dl co].
  destruct p as [create susp resume].
  cbn [audioContextRef can_create starts_suspended can_resume] in Hav.
  cbv beta iota delta [playBuffer ensureAudioContext createBufferSource node_connection
                         node_start get modify throw mbind M_bind mret M_ret].
  destruct ctx as [[|]|]; [ | | destruct create; [destruct susp|] ];
    try discriminate; cbn [negb orb andb] in Hav; subst; cbn;
    by do 2 eexists.
Qed.

(** X10: with a buffer cached, in a state where at most the held node
    produces sound, when the audio context cannot be had [handleReplay]
    still ends normally: the session that was held is stopped and released,
    no node produces sound, [isPlaying] is false, the error shown is
    ["Failed to replay audio."], one entry is added to the console and the
    cached buffer stays. *)
Theorem handleReplay_unavailable (p : Platform) (buffer : AudioBuffer.t) (s : State) :
  lastAudioBufferRef s = Some buffer ->
  single_session s ->
  audio_available p s = false ->
  (handleReplay p s).1 = JS.Ok tt
  /\ error (handleReplay p s).2 = Some "Failed to replay audio."%string
  /\ isPlaying (handleReplay p s).2 = false
  /\ sourceNodeRef (handleReplay p s).2 = None
  /\ (forall id n, nodes (handleReplay p s).2 !! id = Some n -> playing n = false)
  /\ length (console (handleReplay p s).2) = S (length (console s))
  /\ lastAudioBufferRef (handleReplay p s).2 = Some buffer.
Proof.
  intros Hlast Hsingle Hav. rewrite (handleReplay_run p buffer s Hlast).
  pose proof (stopAudio_silence s Hsingle) as Hsilent.
  destruct (stopAudio_effect s) as (Href & Hplay & _ & Hcache & Hctx & _).
  destruct (stopAudio_frame s) as (_ & _ & _ & _ & _ & Hconsole).
  set (s1 := (stopAudio s).2) in *.
  destruct (playBuffer_failure p buffer s1) as (e & c & Hrun).
  { unfold audio_available in *. by rewrite Hctx. }
  unfold try_catch. rewrite Hrun.
  cbv beta iota delta [console_error modify mbind M_bind].
  cbn [fst snd error isPlaying sourceNodeRef nodes console lastAudioBufferRef
         set_error set_console set_audioContextRef].
  rewrite length_app, Hconsole, Hcache, Hlast. cbn [length].
  repeat split; try done. lia.
Qed.

Lemma handleReplay_unavailable_witness :
  let buffer := AudioBuffer.mk 24000 1 [[JS.Fin 0]] in
  let s := mkState false false None true (Some suspended) None true (Some buffer)
             [] [] [] in
  error (handleReplay (mkPlatform true true false) s).2
  = Some "Failed to replay audio."%string.
Proof.
  intros buffer s.
  destruct (handleReplay_unavailable (mkPlatform true true false) buffer s)
    as (_ & Herr & _).
  - reflexivity.
  - intros id n Hn. destruct id; discriminate.
  - reflexivity.
  - exact Herr.
Defined.

(** ** The controls *)

(** X11: the stop button is offered exactly while playing and then it is
    the only button; replay and download are offered together, exactly when
    audio is there and nothing plays or loads; generate reaches its handler
    exactly when nothing plays or loads and the text is not blank; and
    whenever a button other than stop can be clicked the two inputs are
    enabled. *)
Theorem controls_offer (props : Controls.Props) :
  Controls.clickable Controls.Stop props = Controls.isPlaying props
  /\ (Controls.isPlaying props = true -> Controls.buttons props = [(Controls.Stop, false)])
  /\ Controls.clickable Controls.Replay props
     = negb (Controls.isPlaying props) && Controls.hasAudio props
       && negb (Controls.isLoading props)
  /\ Controls.clickable Controls.Download props
     = Controls.clickable Controls.Replay props
  /\ Controls.clickable Controls.Generate props
     = negb (Controls.isPlaying props) && negb (Controls.isLoading props)
       && JS.truthy (JS.trim (Controls.text props))
  /\ (forall b, b <> Controls.Stop -> Controls.clickable b props = true ->
      Controls.inputs_disabled props = false).
Proof.
  destruct props as [text loading playing audio].
  unfold Controls.clickable, Controls.buttons, Controls.inputs_disabled.
  cbn [Controls.text Controls.isLoading Controls.isPlaying Controls.hasAudio].
  destruct (JS.truthy (JS.trim text)), playing, loading, audio;
    repeat split; try done; intros [] Hb; try done.
Qed.

(** ** The oscilloscope *)

Import Visualizer.

Lemma advance_linear (sliceWidth : Q) (i : nat) :
  (advance sliceWidth i == inject_Z (Z.of_nat i) * sliceWidth)%Q.
Proof.
  induction i as [|i IH]; cbn [advance]; [ring|].
  rewrite IH, Nat2Z.inj_succ. unfold Z.succ. rewrite inject_Z_plus. ring.
Qed.

Lemma plot_loop (dataArray : list byte) (sliceWidth : Q) (m a : nat)
    (path : list command) :
  foldl (plot dataArray sliceWidth) (advance sliceWidth a, path) (seq a m)
  = (advance sliceWidth (a + m),
     path ++ ((fun i => (if (i =? 0)%nat then MoveTo else LineTo)
                          (advance sliceWidth i) (level dataArray i))
              <$> seq a m)).
Proof.
  revert a path. induction m as [|m IH]; intros a path.
  - cbn. by rewrite Nat.add_0_r, app_nil_r.
  - cbn [seq foldl fmap list_fmap]. unfold plot at 2.
    change (advance sliceWidth a + sliceWidth)%Q with (advance sliceWidth (S a)).
    rewrite IH. rewrite <- app_assoc. cbn [app]. f_equal; [f_equal; lia|].
    unfold level. by destruct (a =? 0)%nat.
Qed.

Lemma draw_points (dataArray : list byte) :
  points (draw true dataArray)
  = ((fun i => (advance (width * 1 / inject_Z (Z.of_nat (length dataArray))) i,
                level dataArray i))
     <$> seq 0 (length dataArray))
    ++ [(width, (height / 2)%Q)].
Proof.
  unfold draw, points. cbn [negb]. cbv zeta.
  pose proof (plot_loop dataArray (width * 1 / inject_Z (Z.of_nat (length dataArray)))
                (length dataArray) 0 []) as Hloop.
  cbn [advance Nat.add app] in Hloop. rewrite Hloop. clear Hloop. cbn [snd].
  rewrite !omap_app. cbn [omap list_omap point app].
  f_equal. generalize (seq 0 (length dataArray)).
  intros l. induction l as [|i l IH]; [done|].
  cbn [fmap list_fmap omap list_omap]. rewrite <- IH.
  by destruct (i =? 0)%nat.
Qed.

Lemma level_range (dataArray : list byte) (i : nat) :
  (0 <= level dataArray i /\ level dataArray i < height)%Q.
Proof.
  unfold level, height.
  pose proof (Z_of_byte_range (default x00 (dataArray !! i))) as Hd.
  set (d := JS.Z_of_byte (default x00 (dataArray !! i))) in *. clearbody d.
  assert (H0 : (inject_Z 0 <= inject_Z d)%Q) by (rewrite <- Zle_Qle; lia).
  assert (H1 : (inject_Z d <= inject_Z 255)%Q) by (rewrite <- Zle_Qle; lia).
  change (inject_Z 0) with 0%Q in H0. change (inject_Z 255) with 255%Q in H1.
  set (q := inject_Z d) in *. clearbody q.
  assert (E : (q / 128 * 100 / 2 == q * (25 # 64))%Q) by (field; discriminate).
  rewrite E. split; lra.
Qed.

(** X12: while playing, for the [2 ^ k] bytes the analyser gives, the frame
    traces one point for each byte and a last one at the right edge, at mid
    height: byte [i] of value [d] at [x = i * width / length] and
    [y = d * height / 256], inside the canvas. *)
Theorem draw_waveform (dataArray : list byte) (k : nat) :
  (4 <= k <= 14)%nat ->
  length dataArray = (2 ^ k)%nat ->
  length (points (draw true dataArray)) = S (length dataArray)
  /\ (forall i d, dataArray !! i = Some d ->
      exists x y,
        points (draw true dataArray) !! i = Some (x, y)
        /\ (x == inject_Z (Z.of_nat i) * width / inject_Z (Z.of_nat (length dataArray)))%Q
        /\ (y == inject_Z (JS.Z_of_byte d) * height / 256)%Q
        /\ (0 <= x /\ x < width)%Q /\ (0 <= y /\ y < height)%Q)
  /\ points (draw true dataArray) !! length dataArray = Some (width, (height / 2)%Q).
Proof.
  intros Hk Hlen. rewrite draw_points.
  assert (Hn : (0 < length dataArray)%nat).
  { rewrite Hlen. pose proof (Nat.pow_nonzero 2 k). lia. }
  clear Hk Hlen k.
  set (n := length dataArray) in *.
  assert (HN : (0 < inject_Z (Z.of_nat n))%Q).
  { change 0%Q with (inject_Z 0). rewrite <- Zlt_Qlt. lia. }
  split; [|split].
  - rewrite length_app, length_fmap, length_seq. cbn. lia.
  - intros i d Hd. pose proof (lookup_lt_Some _ _ _ Hd) as Hi. fold n in Hi.
    eexists _, _. split.
    { rewrite lookup_app_l by (rewrite length_fmap, length_seq; lia).
      rewrite list_lookup_fmap, lookup_seq_lt by lia. reflexivity. }
    cbn [Nat.add].
    assert (Hx : (advance (width * 1 / inject_Z (Z.of_nat n)) i
                  == inject_Z (Z.of_nat i) * width / inject_Z (Z.of_nat n))%Q).
    { rewrite advance_linear. unfold width.
      generalize dependent (inject_Z (Z.of_nat n)). intros qn Hqn.
      generalize (inject_Z (Z.of_nat i)). intros qi. clear -Hqn. field. lra. }
    assert (Hy : (level dataArray i == inject_Z (JS.Z_of_byte d) * height / 256)%Q).
    { unfold level. rewrite Hd. cbn [default]. unfold id, height.
      generalize (inject_Z (JS.Z_of_byte d)). intros q. field. }
    split; [exact Hx|]. split; [exact Hy|]. split; [|apply level_range].
    rewrite Hx.
    assert (HI0 : (0 <= inject_Z (Z.of_nat i))%Q).
    { change 0%Q with (inject_Z 0). rewrite <- Zle_Qle. lia. }
    assert (HI1 : (inject_Z (Z.of_nat i) < inject_Z (Z.of_nat n))%Q).
    { rewrite <- Zlt_Qlt. lia. }
    set (qi := inject_Z (Z.of_nat i)) in *. set (qn := inject_Z (Z.of_nat n)) in *.
    clearbody qi qn. unfold width. split.
    + apply Qle_shift_div_l; [exact HN|]. lra.
    + apply Qlt_shift_div_r; [exact HN|]. lra.
  - rewrite lookup_app_r by (rewrite length_fmap, length_seq; lia).
    rewrite length_fmap, length_seq, Nat.sub_diag. reflexivity.
Qed.

Lemma draw_waveform_witness :
  length (points (draw true (replicate 16 x80))) = 17%nat.
Proof.
  destruct (draw_waveform (replicate 16 x80) 4) as (Hlength & _).
  - lia.
  - reflexivity.
  - exact Hlength.
Defined.

(** X13: a frame of silence, every byte 128, keeps the trace at mid height,
    where the idle frame draws its line; only the playing frame reads the
    analyser and asks for another frame. *)
Theorem draw_silence (dataArray : list byte) :
  Forall (fun d => d = x80) dataArray ->
  Forall (fun pt => (pt.2 == height / 2)%Q) (points (draw true dataArray))
  /\ points (draw false dataArray) = [(0%Q, (height / 2)%Q); (width, (height / 2)%Q)]
  /\ (forall isPlaying,
        RequestAnimationFrame ∈ draw isPlaying dataArray <-> isPlaying = true)
  /\ (forall isPlaying,
        GetByteTimeDomainData ∈ draw isPlaying dataArray <-> isPlaying = true).
Proof.
  intros Hsilent. split; [|split; [reflexivity|]].
  - rewrite draw_points. apply Forall_app. split; [|by repeat constructor].
    apply Forall_fmap, Forall_forall. intros i Hi. unfold compose. cbn [snd].
    apply elem_of_seq in Hi. unfold level.
    destruct (lookup_lt_is_Some_2 dataArray i) as [d Hd]; [lia|].
    rewrite Hd. cbn [default].
    rewrite (proj1 (Forall_lookup _ _) Hsilent i d Hd). unfold id, height.
    reflexivity.
  - assert (Hidle : forall c, c = RequestAnimationFrame \/ c = GetByteTimeDomainData ->
                      c ∈ draw false dataArray -> False).
    { intros c Hc Hin. unfold draw in Hin. cbn [negb] in Hin.
      repeat (apply elem_of_cons in Hin as [->|Hin]; [by destruct Hc|]).
      by apply elem_of_nil in Hin. }
    split; intros [|]; split; intros H; try done.
    + unfold draw. cbn [negb]. cbv zeta. cbn [app]. apply elem_of_cons. by left.
    + exfalso. eapply Hidle; [by left | exact H].
    + unfold draw. cbn [negb]. cbv zeta. cbn [app].
      apply elem_of_cons. right. apply elem_of_cons. by left.
    + exfalso. eapply Hidle; [by right | exact H].
Qed.

Lemma draw_silence_witness :
  Forall (fun pt => (pt.2 == height / 2)%Q) (points (draw true (replicate 16 x80))).
Proof.
  destruct (draw_silence (replicate 16 x80)) as (Hflat & _).
  - by apply Forall_replicate.
  - exact Hflat.
Defined.

(** ** Generating speech *)

Import Page.

Lemma ensureAudioContext_available (p : Platform) (s : State) :
  audio_available p s = true ->
  ensureAudioContext p s = (JS.Ok tt, set_audioContextRef (Some running) s).
Proof.
  unfold audio_available.
  destruct s as [ld pl er ha ctx ref an last ns dl co].
  destruct p as [create susp resume].
  cbn [audioContextRef can_create starts_suspended can_resume].
  cbv beta iota delta [ensureAudioContext get modify throw mbind M_bind mret M_ret].
  cbn [audioContextRef can_create starts_suspended can_resume].
  destruct ctx as [[|]|]; [ | | destruct create; [destruct susp|] ];
    try destruct resume; cbn; by intros.
Qed.

Lemma ensureAudioContext_unavailable (p : Platform) (s : State) :
  audio_available p s = false ->
  exists e c,
    ensureAudioContext p s = (JS.Throw e, set_audioContextRef c s)
    /\ JS.message e <> ""%string.
Proof.
  unfold audio_available.
  destruct s as [ld pl er ha ctx ref an last ns dl co].
  destruct p as [create susp resume].
  cbn [audioContextRef can_create starts_suspended can_resume].
  cbv beta iota delta [ensureAudioContext get modify throw mbind M_bind mret M_ret].
  cbn [audioContextRef can_create starts_suspended can_resume].
  destruct ctx as [[|]|]; [ | | destruct create; [destruct susp|] ];
    try destruct resume; cbn; intros; try done; by do 2 eexists.
Qed.

Section Generating.
Context {VoiceName : Type}.
Implicit Types (ai : @GeminiService.GenAI VoiceName) (voice : VoiceName).

Lemma generateJapaneseSpeech_cases ai (text : list N) voice :
  GeminiService.generateJapaneseSpeech ai text voice
  = if negb (JS.truthy (JS.trim text))
    then (JS.Throw (JS.Error "Please enter some Japanese text."), [])
    else
      match ai text voice with
      | JS.Ok (Some (c :: data)) => (JS.Ok (c :: data), [(text, voice)])
      | JS.Ok _ =>
          (JS.Throw (JS.Error "No audio data received from Gemini."), [(text, voice)])
      | JS.Throw err =>
          (JS.Throw (JS.Error (if String.eqb (JS.message err) ""
                               then "Failed to generate speech."
                               else JS.message err)), [(text, voice)])
      end.
Proof.
  unfold GeminiService.generateJapaneseSpeech, GeminiService.generateContent.
  destruct (negb (JS.truthy (JS.trim text))); [done|].
  by destruct (ai text voice) as [[[|c d]|]|err].
Qed.

Lemma handleGenerateAndPlay_run (p : Platform) (ctx : AudioContext.t) ai
    (text : list N) voice (s : State) :
  handleGenerateAndPlay p ctx ai text voice s
  = match ensureAudioContext p (prepared s) with
    | (JS.Throw e, s1) => (JS.Ok tt, failed e s1, [])
    | (JS.Ok _, s1) =>
        match GeminiService.generateJapaneseSpeech ai text voice with
        | (JS.Throw e, requests) => (JS.Ok tt, failed e s1, requests)
        | (JS.Ok base64Data, requests) =>
            match decodeBase64 base64Data with
            | JS.Throw e => (JS.Ok tt, failed e s1, requests)
            | JS.Ok rawBytes =>
                match decodeAudioData rawBytes ctx 24000 1 with
                | JS.Throw e => (JS.Ok tt, failed e s1, requests)
                | JS.Ok audioBuffer =>
                    match playBuffer p audioBuffer
                            (set_hasAudio true
                               (set_lastAudioBufferRef (Some audioBuffer) s1)) with
                    | (JS.Ok _, s2) => (JS.Ok tt, set_isLoading false s2, requests)
                    | (JS.Throw e, s2) => (JS.Ok tt, failed e s2, requests)
                    end
                end
            end
        end
    end.
Proof.
  unfold handleGenerateAndPlay, prepared, failed.
  cbv beta iota delta [mbind G_bind on_page on_service call try_catch_finally
                         modify console_error M_bind].
  pose proof (stopAudio_ends
                (set_hasAudio false (set_isLoading true (set_error None s)))) as Hends.
  destruct (stopAudio (set_hasAudio false (set_isLoading true (set_error None s))))
    as [r s0]. cbn [fst snd] in *. subst r.
  destruct (ensureAudioContext p s0) as [[[]|e] s1]; [|by rewrite ?app_nil_r].
  destruct (GeminiService.generateJapaneseSpeech ai text voice) as [[data|e] requests];
    cbn [fst snd]; [|by rewrite ?app_nil_r].
  destruct (decodeBase64 data) as [bytes|e]; [|by rewrite ?app_nil_r].
  destruct (decodeAudioData bytes ctx 24000 1) as [b|e]; [|by rewrite ?app_nil_r].
  destruct (playBuffer p b _) as [[[]|e] s2]; by rewrite ?app_nil_r.
Qed.

Lemma stopAudio_nodes (s : State) (id : nat) (n : SourceNode) :
  nodes (stopAudio s).2 !! id = Some n ->
  exists n0, nodes s !! id = Some n0 /\ node_buffer n = node_buffer n0
             /\ started n = started n0.
Proof.
  destruct (stopAudio_effect s) as (_ & _ & _ & _ & _ & Hnodes).
  rewrite Hnodes. destruct (decide (sourceNodeRef s = Some id)) as [_|_].
  - intros Hn. apply fmap_Some in Hn as (n0 & Hn0 & ->). by exists n0.
  - intros Hn. by exists n.
Qed.

Lemma prepared_fields (s : State) :
  isLoading (prepared s) = true
  /\ isPlaying (prepared s) = false
  /\ error (prepared s) = None
  /\ hasAudio (prepared s) = false
  /\ audioContextRef (prepared s) = audioContextRef s
  /\ sourceNodeRef (prepared s) = None
  /\ analyserRef (prepared s) = analyserRef s
  /\ lastAudioBufferRef (prepared s) = lastAudioBufferRef s
  /\ length (nodes (prepared s)) = length (nodes s)
  /\ downloads (prepared s) = downloads s
  /\ console (prepared s) = console s.
Proof.
  unfold prepared.
  set (s' := set_hasAudio false (set_isLoading true (set_error None s))).
  destruct (stopAudio_effect s') as (H1 & H2 & H3 & H4 & H5 & _).
  destruct (stopAudio_frame s') as (F1 & F2 & F3 & F4 & F5 & F6).
  by repeat split.
Qed.

Lemma prepared_nodes (s : State) (id : nat) (n : SourceNode) :
  nodes (prepared s) !! id = Some n ->
  exists n0, nodes s !! id = Some n0 /\ node_buffer n = node_buffer n0
             /\ started n = started n0.
Proof. unfold prepared. intros Hn. by apply stopAudio_nodes in Hn. Qed.

Lemma prepared_silent (s : State) :
  single_session s ->
  forall id n, nodes (prepared s) !! id = Some n -> playing n = false.
Proof. intros Hsingle. unfold prepared. by apply stopAudio_silence. Qed.

Lemma message_or_full (e : JS.exn) : message_or e "An unexpected error occurred." <> ""%string.
Proof.
  unfold message_or. by destruct (String.eqb_spec (JS.message e) "").
Qed.

(** How a generation ends: as a failure, the audio context apart in the
    prepared state, or playing the buffer decoded from the answer. *)
Lemma handleGenerateAndPlay_cases (p : Platform) (ctx : AudioContext.t) ai
    (text : list N) voice (s : State) :
  (exists e c,
     handleGenerateAndPlay p ctx ai text voice s
     = (JS.Ok tt, failed e (set_audioContextRef c (prepared s)),
        if audio_available p s && JS.truthy (JS.trim text)
        then [(text, voice)] else []))
  \/ (exists data bytes b,
        audio_available p s = true
        /\ GeminiService.generateJapaneseSpeech ai text voice
           = (JS.Ok data, [(text, voice)])
        /\ decodeBase64 data = JS.Ok bytes
        /\ decodeAudioData bytes ctx 24000 1 = JS.Ok b
        /\ handleGenerateAndPlay p ctx ai text voice s
           = (JS.Ok tt, succeeded b (prepared s), [(text, voice)])).
Proof.
  rewrite handleGenerateAndPlay_run.
  destruct (prepared_fields s)
    as (Hld & Hpl & Her & Hha & Hctx & Href & Han & Hlast & Hlen & Hdl & Hco).
  assert (Hav : audio_available p (prepared s) = audio_available p s).
  { unfold audio_available. by rewrite Hctx. }
  destruct (audio_available p s) eqn:Havail.
  - rewrite (ensureAudioContext_available p (prepared s) Hav). cbn [andb].
    rewrite generateJapaneseSpeech_cases.
    destruct (JS.truthy (JS.trim text)); cbn [negb]; [|left; by do 2 eexists].
    destruct (ai text voice) as [[[|c d]|]|err]; try (left; by do 2 eexists).
    destruct (decodeBase64 (c :: d)) as [bytes|e] eqn:Hbytes;
      [|left; by do 2 eexists].
    destruct (decodeAudioData bytes ctx 24000 1) as [b|e] eqn:Hb;
      [|left; by do 2 eexists].
    right. exists (c :: d), bytes, b. repeat split; try done.
    rewrite playBuffer_available by done.
    unfold succeeded, set_isLoading, set_hasAudio, set_lastAudioBufferRef,
      set_audioContextRef.
    cbn [isLoading isPlaying error hasAudio audioContextRef sourceNodeRef
           analyserRef lastAudioBufferRef nodes downloads console].
    reflexivity.
  - destruct (ensureAudioContext_unavailable p (prepared s) Hav) as (e & c & Hrun & _).
    rewrite Hrun. left. by do 2 eexists.
Qed.

End Generating.

(** ** The page between two events *)

(** A state where nothing sounds keeps the invariant. *)
Lemma invariant_silent (s : State) :
  isLoading s = false ->
  isPlaying s = false ->
  (forall id n, nodes s !! id = Some n ->
     playing n = false /\ started n = true /\ decoded (node_buffer n)) ->
  (hasAudio s = true -> is_Some (lastAudioBufferRef s)) ->
  (forall m, error s = Some m -> m <> ""%string) ->
  (forall b, lastAudioBufferRef s = Some b -> decoded b) ->
  (forall name blob, (name, blob) ∈ downloads s ->
     exists iso b, name = file_name iso /\ decoded b /\ blob = audioBufferToWav b) ->
  invariant s.
Proof.
  intros Hld Hpl Hnodes Hha Her Hlast Hdl. unfold invariant, single_session.
  split_and!; try done.
  - intros id n Hn Hplaying. destruct (Hnodes id n Hn) as (Hsilent & _). congruence.
  - congruence.
  - intros id n Hn. by destruct (Hnodes id n Hn) as (_ & ? & ?).
Qed.

(** A state where a new node has just been started, the others silent,
    keeps it too. *)
Lemma invariant_sounding (s s0 : State) (b : AudioBuffer.t) :
  isLoading s = false ->
  sourceNodeRef s = Some (length (nodes s0)) ->
  nodes s = nodes s0 ++ [mkNode b true false false true] ->
  decoded b ->
  (forall id n, nodes s0 !! id = Some n ->
     playing n = false /\ started n = true /\ decoded (node_buffer n)) ->
  (hasAudio s = true -> is_Some (lastAudioBufferRef s)) ->
  (forall m, error s = Some m -> m <> ""%string) ->
  (forall b, lastAudioBufferRef s = Some b -> decoded b) ->
  (forall name blob, (name, blob) ∈ downloads s ->
     exists iso b, name = file_name iso /\ decoded b /\ blob = audioBufferToWav b) ->
  invariant s.
Proof.
  intros Hld Href Hns Hb Hnodes Hha Her Hlast Hdl. unfold invariant, single_session.
  assert (Hcases : forall id n, nodes s !! id = Some n ->
            (nodes s0 !! id = Some n /\ (id < length (nodes s0))%nat)
            \/ (id = length (nodes s0) /\ n = mkNode b true false false true)).
  { intros id n. rewrite Hns. intros Hn.
    apply lookup_app_Some in Hn as [Hn|[Hge Hn]].
    - left. split; [done|]. by eapply lookup_lt_Some.
    - right. apply list_lookup_singleton_Some in Hn as [Hid <-]. split; [lia|done]. }
  split_and!; try done.
  - intros id n Hn Hplaying. destruct (Hcases id n Hn) as [[Hn0 _]|[-> _]]; [|done].
    destruct (Hnodes id n Hn0) as (Hsilent & _). congruence.
  - intros _. exists (length (nodes s0)), (mkNode b true false false true).
    split; [done|]. split; [|done].
    rewrite Hns. by rewrite lookup_app_r, Nat.sub_diag by lia.
  - intros id n Hn. destruct (Hcases id n Hn) as [[Hn0 _]|[_ ->]]; [|done].
    by destruct (Hnodes id n Hn0) as (_ & ? & ?).
Qed.

(** What [stopAudio] leaves of a state of the invariant. *)
Lemma stopAudio_quiet (s : State) :
  invariant s ->
  forall id n, nodes (stopAudio s).2 !! id = Some n ->
    playing n = false /\ started n = true /\ decoded (node_buffer n).
Proof.
  intros (Hsingle & _ & _ & _ & _ & _ & Hnodes & _) id n Hn.
  split; [by eapply stopAudio_silence|].
  apply stopAudio_nodes in Hn as (n0 & Hn0 & -> & ->). by apply (Hnodes id).
Qed.

Lemma invariant_stopAudio (s : State) : invariant s -> invariant (stopAudio s).2.
Proof.
  intros Hinv. pose proof (stopAudio_quiet s Hinv) as Hquiet.
  destruct Hinv as (Hsingle & Hld & Hha & Hpl & Her & Hlast & Hnodes & Hdl).
  destruct (stopAudio_effect s) as (E1 & E2 & E3 & E4 & E5 & _).
  destruct (stopAudio_frame s) as (F1 & F2 & F3 & F4 & F5 & F6).
  apply invariant_silent; rewrite ?F1, ?F2, ?F3, ?F5, ?E4; done.
Qed.

Lemma handleReplay_none (p : Platform) (s : State) :
  lastAudioBufferRef s = None -> handleReplay p s = (JS.Ok tt, s).
Proof.
  intros Hnone. cbv beta iota delta [handleReplay get mbind M_bind].
  by rewrite Hnone.
Qed.

Lemma invariant_handleReplay (p : Platform) (s : State) :
  invariant s -> invariant (handleReplay p s).2.
Proof.
  intros Hinv. destruct (lastAudioBufferRef s) as [b|] eqn:Hb;
    [|by rewrite handleReplay_none].
  rewrite (handleReplay_run p b s Hb).
  pose proof (stopAudio_quiet s Hinv) as Hquiet.
  pose proof (invariant_stopAudio s Hinv)
    as (_ & Hld & Hha & _ & Her & Hlast & _ & Hdl).
  destruct (stopAudio_effect s) as (E1 & E2 & E3 & E4 & E5 & _).
  set (s1 := (stopAudio s).2) in *.
  assert (Hdecoded : decoded b) by (apply Hlast; congruence).
  unfold try_catch. destruct (audio_available p s1) eqn:Hav.
  - rewrite playBuffer_available by done. cbn [snd].
    by apply (invariant_sounding _ s1 b).
  - destruct (playBuffer_failure p b s1 Hav) as (e & c & ->).
    cbv beta iota delta [console_error modify mbind M_bind]. cbn [snd].
    apply invariant_silent; try done.
    cbn. by intros m [= <-].
Qed.

Lemma handleDownload_run (iso : string) (b : AudioBuffer.t) (s : State) :
  lastAudioBufferRef s = Some b ->
  handleDownload iso s
  = (JS.Ok tt, set_downloads (downloads s ++ [(file_name iso, audioBufferToWav b)]) s).
Proof.
  intros Hb. cbv beta iota delta [handleDownload get try_catch modify mbind M_bind].
  by rewrite Hb.
Qed.

Lemma handleDownload_none (iso : string) (s : State) :
  lastAudioBufferRef s = None -> handleDownload iso s = (JS.Ok tt, s).
Proof.
  intros Hnone. cbv beta iota delta [handleDownload get mbind M_bind].
  by rewrite Hnone.
Qed.

Lemma invariant_handleDownload (iso : string) (s : State) :
  invariant s -> invariant (handleDownload iso s).2.
Proof.
  intros Hinv. destruct (lastAudioBufferRef s) as [b|] eqn:Hb;
    [|by rewrite handleDownload_none].
  rewrite (handleDownload_run iso b s Hb). cbn [snd].
  destruct Hinv as (Hsingle & Hld & Hha & Hpl & Her & Hlast & Hnodes & Hdl).
  unfold invariant. split_and!; try done.
  intros name blob. cbn [downloads set_downloads]. intros Hin.
  apply elem_of_app in Hin as [Hin|Hin]; [by apply Hdl|].
  apply list_elem_of_singleton in Hin as [= -> ->].
  exists iso, b. split_and!; try done. by apply Hlast.
Qed.

Lemma invariant_onended (id : nat) (s : State) :
  invariant s -> invariant (onended id s).2.
Proof.
  intros (Hsingle & Hld & Hha & Hpl & Her & Hlast & Hnodes & Hdl).
  cbv beta iota delta [onended modify mbind M_bind]. cbn [snd].
  assert (Hnode : forall k n,
            alter (fun n => mkNode (node_buffer n) (started n) (stopped n) true
                              (connected n)) id (nodes s) !! k = Some n ->
            exists n0, nodes s !! k = Some n0
                       /\ node_buffer n = node_buffer n0
                       /\ started n = started n0
                       /\ (playing n = true -> n = n0)).
  { intros k n. destruct (decide (k = id)) as [->|Hne].
    - rewrite list_lookup_alter_eq. intros Hn.
      apply fmap_Some in Hn as (n0 & Hn0 & ->). exists n0.
      split_and!; try done. unfold playing. cbn.
      by rewrite andb_false_r.
    - rewrite list_lookup_alter_ne by done. intros Hn. by exists n. }
  unfold invariant, single_session.
  cbn [isLoading isPlaying error hasAudio sourceNodeRef lastAudioBufferRef nodes
         downloads set_isPlaying set_nodes].
  split_and!; try done.
  - intros k n Hn Hplaying. destruct (Hnode k n Hn) as (n0 & Hn0 & _ & _ & Heq).
    pose proof (Heq Hplaying) as ->. exact (Hsingle k n0 Hn0 Hplaying).
  - intros k n Hn. destruct (Hnode k n Hn) as (n0 & Hn0 & -> & -> & _).
    by apply (Hnodes k n0).
Qed.

Lemma invariant_resetCache (s : State) : invariant s -> invariant (resetCache s).2.
Proof.
  intros (Hsingle & Hld & Hha & Hpl & Her & Hlast & Hnodes & Hdl).
  cbv beta iota delta [resetCache modify mbind M_bind]. cbn [snd].
  unfold invariant. split_and!; done.
Qed.

Lemma prepared_quiet (s : State) :
  invariant s ->
  forall id n, nodes (prepared s) !! id = Some n ->
    playing n = false /\ started n = true /\ decoded (node_buffer n).
Proof.
  intros (Hsingle & _ & _ & _ & _ & _ & Hnodes & _) id n Hn.
  split; [by eapply prepared_silent|].
  apply prepared_nodes in Hn as (n0 & Hn0 & -> & ->). by apply (Hnodes id).
Qed.

Lemma invariant_failed (e : JS.exn) (c : option ContextState) (s : State) :
  invariant s -> invariant (failed e (set_audioContextRef c (prepared s))).
Proof.
  intros Hinv. pose proof (prepared_quiet s Hinv) as Hquiet.
  destruct Hinv as (Hsingle & Hld & Hha & Hpl & Her & Hlast & Hnodes & Hdl).
  destruct (prepared_fields s)
    as (P1 & P2 & P3 & P4 & P5 & P6 & P7 & P8 & P9 & P10 & P11).
  apply invariant_silent; unfold failed;
    cbn [isLoading isPlaying error hasAudio lastAudioBufferRef nodes downloads
           set_isLoading set_hasAudio set_error set_console set_audioContextRef];
    rewrite ?P8, ?P10; try done.
  intros m [= <-]. apply message_or_full.
Qed.

Lemma invariant_succeeded (b : AudioBuffer.t) (s : State) :
  invariant s -> decoded b -> invariant (succeeded b (prepared s)).
Proof.
  intros Hinv Hb. pose proof (prepared_quiet s Hinv) as Hquiet.
  destruct Hinv as (Hsingle & Hld & Hha & Hpl & Her & Hlast & Hnodes & Hdl).
  destruct (prepared_fields s)
    as (P1 & P2 & P3 & P4 & P5 & P6 & P7 & P8 & P9 & P10 & P11).
  apply (invariant_sounding _ (prepared s) b); unfold succeeded;
    cbn [isLoading isPlaying error hasAudio lastAudioBufferRef nodes downloads
           sourceNodeRef];
    rewrite ?P3, ?P10; try done.
  by intros b' [= <-].
Qed.

Lemma decodeAudioData_decoded (data : list byte) (ctx : AudioContext.t)
    (b : AudioBuffer.t) :
  decodeAudioData data ctx 24000 1 = JS.Ok b -> decoded b.
Proof. intros Hb. by apply decodeAudioData_samples in Hb. Qed.

Lemma invariant_initial : invariant initial.
Proof.
  apply invariant_silent; try done.
  intros name blob Hin. by apply elem_of_nil in Hin.
Qed.



(** X15: when the audio context can be had, the text is not blank, the
    service answers with inline data that is not empty, and the data decodes to the buffer
    [b], the generation ends with [b] cached and flagged, a new node playing
    it, and the one request sent. *)
Theorem handleGenerateAndPlay_plays {VoiceName : Type} (p : Platform)
    (ctx : AudioContext.t) (ai : GeminiService.GenAI) (text : list N)
    (voice : VoiceName) (s : State) (data : list N) (bytes : list byte)
    (b : AudioBuffer.t) :
  audio_available p s = true ->
  JS.truthy (JS.trim text) = true ->
  ai text voice = JS.Ok (Some data) ->
  data <> [] ->
  decodeBase64 data = JS.Ok bytes ->
  decodeAudioData bytes ctx 24000 1 = JS.Ok b ->
  handleGenerateAndPlay p ctx ai text voice s
  = (JS.Ok tt, succeeded b (prepared s), [(text, voice)]).
Proof.
  intros Hav Htext Hai Hdata Hbytes Hb.
  destruct (handleGenerateAndPlay_cases p ctx ai text voice s)
    as [(e & c & Hrun)|(data' & bytes' & b' & _ & Hgen & Hbytes' & Hb' & Hrun)].
  - exfalso. rewrite handleGenerateAndPlay_run in Hrun.
    destruct (prepared_fields s) as (_ & _ & _ & _ & P5 & _).
    assert (Hav' : audio_available p (prepared s) = true).
    { unfold audio_available in *. by rewrite P5. }
    rewrite (ensureAudioContext_available p (prepared s) Hav') in Hrun.
    rewrite generateJapaneseSpeech_cases, Htext, Hai in Hrun. cbn [negb] in Hrun.
    destruct data as [|ch data]; [done|].
    rewrite Hbytes, Hb in Hrun.
    rewrite playBuffer_available in Hrun by done.
    pose proof (f_equal (fun r => hasAudio r.1.2) Hrun) as Hflag.
    unfold failed in Hflag.
    cbn [fst snd hasAudio set_isLoading set_hasAudio] in Hflag. discriminate.
  - rewrite generateJapaneseSpeech_cases, Htext, Hai in Hgen. cbn [negb] in Hgen.
    destruct data as [|ch data]; [discriminate|]. injection Hgen as <-.
    rewrite Hbytes in Hbytes'. injection Hbytes' as <-.
    rewrite Hb in Hb'. injection Hb' as <-. exact Hrun.
Qed.

Lemma handleGenerateAndPlay_plays_witness :
  exists b,
    handleGenerateAndPlay (mkPlatform true false true) AudioContext.webAudio
      (fun _ (_ : unit) => JS.Ok (Some (JS.str "AAA="))) [12371%N] tt initial
    = (JS.Ok tt, succeeded b (prepared initial), [([12371%N], tt)]).
Proof.
  eexists.
  apply (handleGenerateAndPlay_plays (mkPlatform true false true)
           AudioContext.webAudio
           (fun _ (_ : unit) => JS.Ok (Some (JS.str "AAA="))) [12371%N] tt initial
           (JS.str "AAA=") [x00; x00]).
  - reflexivity.
  - reflexivity.
  - reflexivity.
  - discriminate.
  - vm_compute. reflexivity.
  - vm_compute. reflexivity.
Defined.

(** X16: when the audio context can be had, the message the page shows
    after a failure of the service is the one [generateJapaneseSpeech] made:
    the request for text when the text is blank, the service's own message
    when it has one and ["Failed to generate speech."] when it has none, and
    ["No audio data received from Gemini."] when the answer holds no data or
    empty data. *)
Theorem handleGenerateAndPlay_message {VoiceName : Type} (p : Platform)
    (ctx : AudioContext.t) (ai : GeminiService.GenAI) (text : list N)
    (voice : VoiceName) (s : State) :
  audio_available p s = true ->
  (JS.truthy (JS.trim text) = false ->
   error (handleGenerateAndPlay p ctx ai text voice s).1.2
   = Some "Please enter some Japanese text."%string)
  /\ (JS.truthy (JS.trim text) = true ->
      match ai text voice with
      | JS.Throw err =>
          error (handleGenerateAndPlay p ctx ai text voice s).1.2
          = Some (if String.eqb (JS.message err) ""
                  then "Failed to generate speech."%string
                  else JS.message err)
      | JS.Ok None | JS.Ok (Some []) =>
          error (handleGenerateAndPlay p ctx ai text voice s).1.2
          = Some "No audio data received from Gemini."%string
      | JS.Ok (Some (_ :: _)) => True
      end).
Proof.
  intros Hav. rewrite handleGenerateAndPlay_run.
  destruct (prepared_fields s) as (_ & _ & _ & _ & P5 & _).
  assert (Hav' : audio_available p (prepared s) = true).
  { unfold audio_available in *. by rewrite P5. }
  rewrite (ensureAudioContext_available p (prepared s) Hav').
  rewrite generateJapaneseSpeech_cases.
  split; intros ->; cbn [negb]; [reflexivity|].
  destruct (ai text voice) as [[[|c d]|]|err]; [reflexivity|done|reflexivity|].
  cbn [fst snd]. unfold failed, message_or.
  cbn [error set_isLoading set_hasAudio set_error JS.message].
  destruct (String.eqb_spec (JS.message err) "") as [Hempty|Hfull]; [reflexivity|].
  by destruct (String.eqb_spec (JS.message err) "").
Qed.

Lemma handleGenerateAndPlay_message_witness :
  error (handleGenerateAndPlay (mkPlatform true false true) AudioContext.webAudio
           (fun _ (_ : unit) => JS.Throw (JS.Error "quota")) [12371%N] tt initial).1.2
  = Some "quota"%string.
Proof.
  destruct (handleGenerateAndPlay_message (mkPlatform true false true)
              AudioContext.webAudio
              (fun _ (_ : unit) => JS.Throw (JS.Error "quota")) [12371%N] tt initial)
    as (_ & Hservice).
  - reflexivity.
  - apply Hservice. reflexivity.
Defined.

(** ** Every run of the page *)

Section Runs.
Context {VoiceName : Type} `{EqDecision VoiceName}.

Lemma handle_invariant (w : World) (ev : @event VoiceName) :
  invariant (state w) -> invariant (state (handle w ev)).
Proof.
  intros Hinv. destruct ev as [p ctx ai|p|iso| |id|t|v]; cbn [handle].
  - destruct (handleGenerateAndPlay_cases p ctx ai (Page.text w) (Page.voice w) (state w))
      as [(e & c & ->)|(data & bytes & b & _ & _ & _ & Hb & ->)]; cbn [state].
    + by apply invariant_failed.
    + apply invariant_succeeded; [done|]. by eapply decodeAudioData_decoded.
  - by apply invariant_handleReplay.
  - by apply invariant_handleDownload.
  - by apply invariant_stopAudio.
  - destruct (nodes (state w) !! id) as [n|]; [|done].
    destruct (started n && negb (ended n)); [|done].
    by apply invariant_onended.
  - destruct (decide (t = Page.text w)); [done|]. by apply invariant_resetCache.
  - destruct (decide (v = Page.voice w)); [done|]. by apply invariant_resetCache.
Qed.

Lemma handle_sent (w : World) (ev : @event VoiceName) :
  Forall (fun r => JS.truthy (JS.trim r.1) = true) (sent w) ->
  Forall (fun r => JS.truthy (JS.trim r.1) = true) (sent (handle w ev)).
Proof.
  intros Hsent. destruct ev as [p ctx ai|p|iso| |id|t|v]; cbn [handle]; try done.
  - destruct (handleGenerateAndPlay_cases p ctx ai (Page.text w) (Page.voice w) (state w))
      as [(e & c & ->)|(data & bytes & b & _ & Hgen & _ & _ & ->)]; cbn [sent].
    + apply Forall_app. split; [done|].
      destruct (JS.truthy (JS.trim (Page.text w))) eqn:Htext;
        rewrite ?andb_false_r; [|constructor].
      destruct (audio_available p (state w)); cbn [andb]; by repeat constructor.
    + apply Forall_app. split; [done|]. repeat constructor. cbn [fst].
      rewrite generateJapaneseSpeech_cases in Hgen.
      by destruct (JS.truthy (JS.trim (Page.text w))).
  - destruct (nodes (state w) !! id) as [n|]; [|done].
    by destruct (started n && negb (ended n)).
  - by destruct (decide (t = Page.text w)).
  - by destruct (decide (v = Page.voice w)).
Qed.

(** X17: whatever events reach the page after it is mounted, in whatever
    order and with whatever answers of the platform and the service, between
    two events: at most the held node sounds; nothing is loading; audio
    flagged means a buffer is cached; [isPlaying] means the held node
    sounds; an error shown is not empty; the cached buffer and the buffer of
    every node are mono 24 kHz buffers of 16-bit samples; every node was
    started; every file offered is the WAV of such a buffer; and no request
    was sent for a blank text. *)
Theorem page_invariant (text : list N) (voice : VoiceName)
    (events : list (@event VoiceName)) :
  invariant (state (run (mounted text voice) events))
  /\ Forall (fun r => JS.truthy (JS.trim r.1) = true)
       (sent (run (mounted text voice) events)).
Proof.
  unfold run.
  assert (Hstart : invariant (state (mounted text voice))
                   /\ Forall (fun r => JS.truthy (JS.trim r.1) = true)
                        (sent (mounted text voice))).
  { split; [apply invariant_initial | constructor]. }
  revert Hstart. generalize (mounted text voice).
  induction events as [|ev events IH]; intros w Hw; [exact Hw|].
  cbn [foldl]. apply IH. destruct Hw as [Hinv Hsent].
  split; [by apply handle_invariant | by apply handle_sent].
Qed.

(** X18: on a page of the invariant the controls offer only what works:
    replay and download only with a decoded buffer cached, so their handlers
    do not return early; stop only while the held node sounds; and a click
    on generate, when the audio context can be had, sends the request for
    the text and the voice. *)
Theorem controls_effective (w : @World VoiceName) :
  invariant (state w) ->
  (Controls.clickable Controls.Replay (props w) = true
   \/ Controls.clickable Controls.Download (props w) = true ->
   exists b, lastAudioBufferRef (state w) = Some b /\ decoded b)
  /\ (Controls.clickable Controls.Stop (props w) = true ->
      exists id n, sourceNodeRef (state w) = Some id
                   /\ nodes (state w) !! id = Some n /\ playing n = true)
  /\ (Controls.clickable Controls.Generate (props w) = true ->
      forall p ctx ai,
        audio_available p (state w) = true ->
        sent (handle w (ClickGenerate p ctx ai))
        = sent w ++ [(Page.text w, Page.voice w)]).
Proof.
  intros (Hsingle & Hld & Hha & Hpl & Her & Hlast & Hnodes & Hdl).
  unfold Controls.clickable, Controls.buttons, props.
  cbn [Controls.text Controls.isLoading Controls.isPlaying Controls.hasAudio].
  rewrite Hld. split_and!.
  - intros Hclick.
    assert (Haudio : hasAudio (state w) = true).
    { destruct (isPlaying (state w)), (hasAudio (state w)),
        (JS.truthy (JS.trim (Page.text w))); by destruct Hclick. }
    destruct (Hha Haudio) as [b Hb]. exists b. split; [done|]. by apply Hlast.
  - intros Hclick. apply Hpl.
    by destruct (isPlaying (state w)), (hasAudio (state w)),
      (JS.truthy (JS.trim (Page.text w))).
  - intros Hclick p ctx ai Hav.
    assert (Htext : JS.truthy (JS.trim (Page.text w)) = true).
    { by destruct (isPlaying (state w)), (hasAudio (state w)),
        (JS.truthy (JS.trim (Page.text w))). }
    cbn [handle].
    destruct (handleGenerateAndPlay_cases p ctx ai (Page.text w) (Page.voice w) (state w))
      as [(e & c & ->)|(data & bytes & b & _ & _ & _ & _ & ->)]; cbn [sent]; [|done].
    by rewrite Hav, Htext.
Qed.

End Runs.

Lemma controls_effective_witness :
  sent (handle (mounted [12371%N] tt)
          (ClickGenerate (mkPlatform true false true) AudioContext.webAudio
             (fun _ _ => JS.Ok None)))
  = [([12371%N], tt)].
Proof.
  destruct (controls_effective (mounted [12371%N] tt)) as (_ & _ & Hgenerate).
  - apply invariant_initial.
  - apply Hgenerate; reflexivity.
Defined.

(** ** The [ended] event of a node that is no longer held *)

(** X19: the [ended] handler does not look at which node ended.  When it
    runs for a node other than the held one while the held one sounds, as
    for the node a replay has just stopped, [isPlaying] becomes false and
    the stop button is no longer offered, while the held node still
    sounds. *)
Theorem onended_stale (s : State) (id held : nat) (n : SourceNode) (text : list N) :
  sourceNodeRef s = Some held ->
  id <> held ->
  nodes s !! held = Some n ->
  playing n = true ->
  isPlaying (onended id s).2 = false
  /\ sourceNodeRef (onended id s).2 = Some held
  /\ nodes (onended id s).2 !! held = Some n
  /\ Controls.clickable Controls.Stop
       (Controls.mkProps text (isLoading (onended id s).2)
          (isPlaying (onended id s).2) (hasAudio (onended id s).2)) = false.
Proof.
  intros Href Hne Hn Hplaying.
  cbv beta iota delta [onended modify mbind M_bind]. cbn [snd].
  cbn [isLoading isPlaying hasAudio sourceNodeRef nodes set_isPlaying set_nodes].
  rewrite list_lookup_alter_ne by done. split_and!; try done.
  unfold Controls.clickable, Controls.buttons.
  cbn [Controls.text Controls.isLoading Controls.isPlaying Controls.hasAudio].
  by destruct (hasAudio s), (isLoading s), (JS.truthy (JS.trim text)).
Qed.

(** The page after a generation, a stop and a replay; then the node the
    stop has stopped fires [ended]. *)
Lemma onended_stale_witness :
  let s := state (run (mounted [12371%N] tt)
                    [ClickGenerate (mkPlatform true false true) AudioContext.webAudio
                       (fun _ _ => JS.Ok (Some (JS.str "AAA=")));
                     ClickStop;
                     ClickReplay (mkPlatform true false true)]) in
  isPlaying (onended 0 s).2 = false
  /\ exists n, nodes (onended 0 s).2 !! 1%nat = Some n /\ playing n = true.
Proof.
  intros s.
  destruct (nodes s !! 1%nat) as [n|] eqn:Hn; [|vm_compute in Hn; discriminate].
  assert (Hplaying : playing n = true).
  { vm_compute in Hn. injection Hn as <-. reflexivity. }
  destruct (onended_stale s 0 1 n [] eq_refl) as (Hflag & _ & Hnode & _).
  - discriminate.
  - exact Hn.
  - exact Hplaying.
  - split; [exact Hflag|]. exists n. split; [exact Hnode | exact Hplaying].
Defined.

(** ** Downloading *)

(** X20: with a buffer cached, [handleDownload] ends normally and changes
    nothing but the downloads, to which it adds one file: its name made from
    the time, its content the WAV of the cached buffer, 44 bytes and two for
    each sample of each channel, of type [audio/wav]. *)
Theorem handleDownload_file (iso : string) (b : AudioBuffer.t) (s : State) :
  lastAudioBufferRef s = Some b ->
  handleDownload iso s
  = (JS.Ok tt, set_downloads (downloads s ++ [(file_name iso, audioBufferToWav b)]) s)
  /\ length (blob_bytes (audioBufferToWav b))
     = (44 + 2 * (AudioBuffer.length b * AudioBuffer.numberOfChannels b))%nat
  /\ blob_type (audioBufferToWav b) = "audio/wav"%string.
Proof.
  intros Hb. split; [by apply handleDownload_run|]. split; [|reflexivity].
  unfold audioBufferToWav. cbn [blob_bytes].
  by rewrite length_app, wav_header_length, int16_bytes_length, interleave_size.
Qed.

Lemma handleDownload_file_witness :
  let b := AudioBuffer.mk 24000 2 [[JS.Fin (1 # 2); JS.Fin (-1 # 2)]] in
  let s := mkState false false None true None None false (Some b) [] [] [] in
  length (downloads (handleDownload "2026-01-02T03:04:05.678Z" s).2) = 1%nat
  /\ length (blob_bytes (audioBufferToWav b)) = 48%nat.
Proof.
  intros b s.
  destruct (handleDownload_file "2026-01-02T03:04:05.678Z" b s) as (Hrun & Hsize & _).
  - reflexivity.
  - split; [by rewrite Hrun | exact Hsize].
Defined.

(** ** A change of the text or of the voice *)

(** X21: setting the text or the voice to the value it has changes nothing.
    A new value empties the cache and clears the audio flag, and touches
    nothing else: after it replay and download are not offered, and their
    handlers would change nothing. *)
Theorem input_change_resets {VoiceName : Type} `{EqDecision VoiceName}
    (w : @World VoiceName) (t : list N) (v : VoiceName) :
  handle w (TextChange (Page.text w)) = w
  /\ handle w (VoiceChange (Page.voice w)) = w
  /\ forall w',
       (t <> Page.text w /\ w' = handle w (TextChange t))
       \/ (v <> Page.voice w /\ w' = handle w (VoiceChange v)) ->
       state w' = set_lastAudioBufferRef None (set_hasAudio false (state w))
       /\ sent w' = sent w
       /\ Controls.clickable Controls.Replay (props w') = false
       /\ Controls.clickable Controls.Download (props w') = false
       /\ (forall p, handle w' (ClickReplay p) = w')
       /\ (forall iso, handle w' (ClickDownload iso) = w').
Proof.
  split; [|split].
  - cbn [handle]. by rewrite decide_True.
  - cbn [handle]. by rewrite decide_True.
  - assert (Hoffer : forall text s,
              Controls.clickable Controls.Replay
                (Controls.mkProps text (isLoading s) (isPlaying s) false) = false
              /\ Controls.clickable Controls.Download
                   (Controls.mkProps text (isLoading s) (isPlaying s) false) = false).
    { intros text s. unfold Controls.clickable, Controls.buttons.
      cbn [Controls.text Controls.isLoading Controls.isPlaying Controls.hasAudio].
      by destruct (isPlaying s), (isLoading s), (JS.truthy (JS.trim text)). }
    intros w' [[Ht ->]|[Hv ->]]; cbn [handle];
      rewrite decide_False by done; cbn [state sent];
      (split; [reflexivity|]); (split; [reflexivity|]);
      (split; [apply Hoffer|]); (split; [apply Hoffer|]); split; intros x;
      unfold on_state; cbn [state Page.text Page.voice sent];
      by rewrite ?handleReplay_none, ?handleDownload_none.
Qed.

Lemma input_change_resets_witness :
  let w := mkWorld (mkState false false None true None None false
                      (Some (AudioBuffer.mk 24000 1 [[JS.Fin 0]])) [] [] [])
             [12371%N] tt [] in
  lastAudioBufferRef (state (handle w (TextChange [12373%N]))) = None.
Proof.
  intros w.
  destruct (proj2 (proj2 (input_change_resets w [12373%N] tt))
              (handle w (TextChange [12373%N])))
    as (Hstate & _).
  - left. split; [discriminate | reflexivity].
  - by rewrite Hstate.
Defined.

(** ** While a generation waits *)


(** ** From the service to the file *)

(** X23: a generation followed by a download.  When the audio context can
    be had, the text is not blank and the service answers with base64 data
    that decodes to an even number of bytes the context can hold, the page
    offers one file more, of 44 bytes and the bytes received, whose data
    section is the PCM stream the service sent with every positive sample
    lowered by one. *)
Theorem generated_file {VoiceName : Type} `{EqDecision VoiceName}
    (w : @World VoiceName) (p : Platform) (ctx : AudioContext.t)
    (ai : GeminiService.GenAI) (iso : string) (data : list N) (bytes : list byte) :
  audio_available p (state w) = true ->
  JS.truthy (JS.trim (Page.text w)) = true ->
  ai (Page.text w) (Page.voice w) = JS.Ok (Some data) ->
  data <> [] ->
  decodeBase64 data = JS.Ok bytes ->
  Nat.even (length bytes) = true ->
  Z.of_nat (Spec.frames_of bytes 1) < 2 ^ 32 ->
  AudioContext.supports ctx 1 (Spec.frames_of bytes 1) 24000 = true ->
  exists blob,
    downloads (state (run w [ClickGenerate p ctx ai; ClickDownload iso]))
    = downloads (state w) ++ [(file_name iso, blob)]
    /\ drop 44 (blob_bytes blob) = int16_bytes (Derived.reencoded <$> int16_view bytes)
    /\ length (blob_bytes blob) = (44 + length bytes)%nat.
Proof.
  intros Hav Htext Hai Hdata Hbytes Heven Hfit Hsup.
  destruct (decode_encode_stream bytes ctx 24000 1 Heven) as (b & Hb & Hstream);
    [lia | apply Nat.mod_1_r | done | done |].
  exists (audioBufferToWav b). split; [|split; [exact Hstream|]].
  - unfold run. cbn [foldl handle]. rewrite handleGenerateAndPlay_run.
    destruct (prepared_fields (state w))
      as (_ & _ & _ & _ & P5 & _ & _ & _ & _ & P10 & _).
    assert (Hav' : audio_available p (prepared (state w)) = true).
    { unfold audio_available in *. by rewrite P5. }
    rewrite (ensureAudioContext_available p (prepared (state w)) Hav').
    rewrite generateJapaneseSpeech_cases, Htext, Hai. cbn [negb].
    destruct data as [|ch data]; [done|].
    rewrite Hbytes, Hb, playBuffer_available by done.
    unfold on_state. cbn [state].
    rewrite (handleDownload_run iso b) by reflexivity.
    cbn [snd downloads set_downloads set_isLoading set_hasAudio
           set_lastAudioBufferRef set_audioContextRef].
    by rewrite P10.
  - destruct (decodeAudioData_even bytes ctx 24000 1 Heven) as (b' & Hb' & _ & Hn & Hlen & _);
      [lia | done | done |].
    rewrite Hb in Hb'. injection Hb' as <-.
    unfold audioBufferToWav. cbn [blob_bytes].
    rewrite length_app, wav_header_length, int16_bytes_length, interleave_size, Hn, Hlen.
    unfold Spec.frames_of. rewrite Nat.div_1_r.
    assert (Hhalf : (length bytes mod 2 = 0)%nat).
    { apply Nat.even_spec in Heven as [k ->]. rewrite Nat.mul_comm.
      apply Nat.Div0.mod_mul. }
    pose proof (Nat.div_mod_eq (length bytes) 2). lia.
Qed.

Lemma generated_file_witness :
  exists blob,
    downloads (state (run (mounted [12371%N] tt)
                        [ClickGenerate (mkPlatform true false true)
                           AudioContext.webAudio
                           (fun _ _ => JS.Ok (Some (JS.str "AQD//w==")));
                         ClickDownload "2026-01-02T03:04:05.678Z"]))
    = [("nihongo-voice-2026-01-02T03-04-05.wav"%string, blob)]
    /\ drop 44 (blob_bytes blob) = [x00; x00; xff; xff].
Proof.
  destruct (generated_file (mounted [12371%N] tt) (mkPlatform true false true)
              AudioContext.webAudio (fun _ _ => JS.Ok (Some (JS.str "AQD//w==")))
              "2026-01-02T03:04:05.678Z" (JS.str "AQD//w==") [x01; x00; xff; xff])
    as (blob & Hfile & Hdata & _).
  - reflexivity.
  - reflexivity.
  - reflexivity.
  - discriminate.
  - vm_compute. reflexivity.
  - reflexivity.
  - reflexivity.
  - reflexivity.
  - exists blob. split; [exact Hfile | by rewrite Hdata].
Defined.

(** ** Why the handlers stop before they play *)

(** X24: [playBuffer] does not stop what sounds.  Called while the held
    node sounds and the audio context can be had, it leaves that node
    sounding beside the new one, and no longer held: two nodes sound and
    [stopAudio] can reach only the new one. *)
Theorem playBuffer_overlaps (p : Platform) (buffer : AudioBuffer.t) (s : State)
    (id : nat) (n : SourceNode) :
  sourceNodeRef s = Some id ->
  nodes s !! id = Some n ->
  playing n = true ->
  audio_available p s = true ->
  nodes (playBuffer p buffer s).2 !! id = Some n
  /\ nodes (playBuffer p buffer s).2 !! length (nodes s)
     = Some (mkNode buffer true false false true)
  /\ id <> length (nodes s)
  /\ sourceNodeRef (playBuffer p buffer s).2 = Some (length (nodes s))
  /\ nodes (stopAudio (playBuffer p buffer s).2).2 !! id = Some n.
Proof.
  intros Href Hn Hplaying Hav.
  pose proof (lookup_lt_Some _ _ _ Hn) as Hid.
  destruct (stopAudio_effect (playBuffer p buffer s).2) as (_ & _ & _ & _ & _ & Hnodes).
  rewrite Hnodes. clear Hnodes.
  rewrite playBuffer_available by done. cbn [snd nodes sourceNodeRef].
  rewrite decide_False by (intros [= Heq]; lia).
  rewrite lookup_app_l by done. rewrite lookup_app_r, Nat.sub_diag by lia.
  split_and!; try done. lia.
Qed.

Lemma playBuffer_overlaps_witness :
  let buffer := AudioBuffer.mk 24000 1 [[JS.Fin 0]] in
  let p := mkPlatform true false true in
  let s := (playBuffer p buffer initial).2 in
  nodes (playBuffer p buffer s).2 !! 0%nat = Some (mkNode buffer true false false true)
  /\ nodes (playBuffer p buffer s).2 !! 1%nat
     = Some (mkNode buffer true false false true).
Proof.
  intros buffer p s.
  destruct (playBuffer_overlaps p buffer s 0 (mkNode buffer true false false true))
    as (Hold & Hnew & _).
  - reflexivity.
  - reflexivity.
  - reflexivity.
  - reflexivity.
  - split; [exact Hold | exact Hnew].
Defined.
